(** * Host-side helpers of the EVPN gateway CNI: pkg/utils/utils.go

    A shallow embedding of the sysfs resolver, the NetConf cache, the
    MAC validation predicate and the retry helper, over an executable
    model of the parts of Go's standard library they call (strings,
    strconv, path/filepath and the file-system calls of package os). *)

From Stdlib Require Import ZArith Lia Ascii.
From Stdlib Require OrderedTypeEx.
From stdpp Require Import gmap strings list sorting pretty.

Local Open Scope Z_scope.

(** ** Errors

    Go errors are interface values.  The embedding keeps their structure:
    the *PathError of package os with its errno, the *NumError of strconv,
    and the result of fmt.Errorf kept as format string plus arguments. *)

Inductive errno :=
  ENOENT | ENOTDIR | EISDIR | ENOTEMPTY | EINVAL | ELOOP | EBUSY | EEXIST.

Inductive numerr := ErrSyntax | ErrRange.

Inductive error :=
| PathError (op path : string) (e : errno)
| NumError (fn num : string) (e : numerr)
| Errorf (format : string) (args : list fmtarg)
with fmtarg :=
| AStr (s : string)
| AInt (z : Z)
| AErr (e : error).

#[global] Instance errno_eq_dec : EqDecision errno.
Proof. solve_decision. Defined.

(** os.IsNotExist: only ENOENT under a *PathError counts; an error built
    by fmt.Errorf with the verb v does not wrap its cause. *)
Definition os_IsNotExist (e : error) : bool :=
  match e with
  | PathError _ _ ENOENT => true
  | _ => false
  end.

(** A Go call of type (T, error) that returns an error. *)
Definition isErr {A} (r : A * option error) : Prop := r.2 ≠ None.

(** ** Package strings *)

(** strings.Split(s, sep) for a one-byte separator: every occurrence of
    the separator cuts, so the result has one more element than there are
    separators, and the empty string gives one empty element. *)
Fixpoint strings_Split (s : string) (sep : ascii) : list string :=
  match s with
  | EmptyString => [EmptyString]
  | String a s' =>
      if decide (a = sep) then EmptyString :: strings_Split s' sep
      else match strings_Split s' sep with
           | h :: t => String a h :: t
           | [] => [String a EmptyString]
           end
  end.

(** strings.Count(s, sep) for a one-byte separator. *)
Fixpoint strings_Count (s : string) (sep : ascii) : nat :=
  match s with
  | EmptyString => 0%nat
  | String a s' =>
      if decide (a = sep) then S (strings_Count s' sep)
      else strings_Count s' sep
  end.

Definition strings_Join (elems : list string) (sep : string) : string :=
  String.concat sep elems.

(** The runes unicode.IsSpace accepts, in UTF-8: the six of ASCII
    (U+0009 to U+000D, U+0020), then U+0085, U+00A0, U+1680, U+2000 to
    U+200A, U+2028, U+2029, U+202F, U+205F and U+3000. *)
Definition bytesString (l : list nat) : string :=
  String.string_of_list_ascii (map Ascii.ascii_of_nat l).

Definition spaceRunes : list string :=
  map bytesString
    [ [9%nat]; [10%nat]; [11%nat]; [12%nat]; [13%nat]; [32%nat];
      [194; 133]%nat; [194; 160]%nat; [225; 154; 128]%nat;
      [226; 128; 128]%nat; [226; 128; 129]%nat; [226; 128; 130]%nat;
      [226; 128; 131]%nat; [226; 128; 132]%nat; [226; 128; 133]%nat;
      [226; 128; 134]%nat; [226; 128; 135]%nat; [226; 128; 136]%nat;
      [226; 128; 137]%nat; [226; 128; 138]%nat; [226; 128; 168]%nat;
      [226; 128; 169]%nat; [226; 128; 175]%nat; [226; 129; 159]%nat;
      [227; 128; 128]%nat ].

Definition isSpaceRune (s : string) : bool := bool_decide (s ∈ spaceRunes).

(** What is left of [s] after the space rune it starts with, if any. *)
Definition stripSpace (s : string) : option string :=
  match filter (λ r, String.prefix r s = true) spaceRunes with
  | r :: _ => Some (String.substring (String.length r)
                      (String.length s - String.length r) s)
  | [] => None
  end.

Fixpoint trimLeftN (n : nat) (s : string) : string :=
  match n with
  | O => s
  | S n' =>
      match stripSpace s with
      | Some rest => trimLeftN n' rest
      | None => s
      end
  end.

Definition trimLeft (s : string) : string := trimLeftN (String.length s) s.

(** A byte in front of a tail already trimmed goes with it only when the
    two together are one space rune, the tail having been all space. *)
Fixpoint trimRight (s : string) : string :=
  match s with
  | EmptyString => EmptyString
  | String c s' =>
      let t := trimRight s' in
      if isSpaceRune (String c t) then EmptyString else String c t
  end.

(** strings.TrimSpace: the leading and the trailing white space go. *)
Definition strings_TrimSpace (s : string) : string := trimRight (trimLeft s).

(** ** Package strconv and the d verb of fmt *)

Definition intMin : Z := - 2 ^ 63.
Definition intMax : Z := 2 ^ 63 - 1.

Definition isDigit (c : ascii) : bool :=
  let n := Ascii.nat_of_ascii c in (48 <=? n)%nat && (n <=? 57)%nat.

Definition digitVal (c : ascii) : option Z :=
  if isDigit c then Some (Z.of_nat (Ascii.nat_of_ascii c) - 48) else None.

Fixpoint parseDigits (acc : Z) (s : string) : option Z :=
  match s with
  | EmptyString => Some acc
  | String c s' =>
      match digitVal c with
      | Some d => parseDigits (acc * 10 + d) s'
      | None => None
      end
  end.

(** strconv.Atoi on a 64-bit int: an optional sign, then one decimal digit
    or more.  A syntax error gives 0, a value out of range gives the
    nearest bound, both with a *NumError. *)
Definition strconv_Atoi (s : string) : Z * option error :=
  let '(neg, body) :=
    match s with
    | String c r =>
        if decide (c = "-"%char) then (true, r)
        else if decide (c = "+"%char) then (false, r)
        else (false, s)
    | EmptyString => (false, s)
    end in
  match body with
  | EmptyString => (0, Some (NumError "Atoi" s ErrSyntax))
  | _ =>
      match parseDigits 0 body with
      | None => (0, Some (NumError "Atoi" s ErrSyntax))
      | Some n =>
          let v := if neg then - n else n in
          if v <? intMin then (intMin, Some (NumError "Atoi" s ErrRange))
          else if intMax <? v then (intMax, Some (NumError "Atoi" s ErrRange))
          else (v, None)
      end
  end.

(** fmt.Sprintf of the one format the resolver uses, "virtfn%d". *)
Definition virtfn (vf : Z) : string := "virtfn" +:+ pretty vf.

(** ** Package path/filepath (Unix) *)

Definition isRooted (path : string) : bool :=
  match path with
  | String c _ => bool_decide (c = "/"%char)
  | EmptyString => false
  end.

(** One element of the path met by Clean, [out] being the elements kept
    so far, last one first.  Empty and dot elements go; a dot-dot element
    takes the last real element away when there is one, is kept in front
    of a relative path, and is dropped at the root. *)
Definition cleanStep (rooted : bool) (out : list string) (c : string)
  : list string :=
  if decide (c = "") then out
  else if decide (c = ".") then out
  else if decide (c = "..") then
    match out with
    | top :: rest =>
        if decide (top = "..") then c :: out else rest
    | [] => if rooted then [] else [c]
    end
  else c :: out.

Definition cleanElems (rooted : bool) (elems : list string) : list string :=
  rev (fold_left (cleanStep rooted) elems []).

Definition filepath_Clean (path : string) : string :=
  if decide (path = "") then "."
  else
    let rooted := isRooted path in
    let out := cleanElems rooted (strings_Split path "/") in
    if rooted then "/" +:+ strings_Join out "/"
    else match out with
         | [] => "."
         | _ => strings_Join out "/"
         end.

(** filepath.Join: leading empty elements are skipped, the rest is joined
    with a slash and cleaned; nothing left gives the empty string. *)
Fixpoint filepath_Join (elem : list string) : string :=
  match elem with
  | [] => ""
  | e :: rest =>
      if decide (e = "") then filepath_Join rest
      else filepath_Clean (strings_Join elem "/")
  end.

(** filepath.Base: the last element, trailing slashes apart. *)
Definition filepath_Base (path : string) : string :=
  if decide (path = "") then "."
  else
    match filter (λ c, c ≠ "") (strings_Split path "/") with
    | [] => "/"
    | elems => default "/" (last elems)
    end.

(** ** The file system seen through package os

    A tree of nodes under absolute keys (the list of element names from
    the root), with the working directory relative names start from.
    Names are resolved the way the kernel resolves them: every element is
    looked up in a directory that has to exist, dot-dot goes to the parent
    and stays at the root, and a symbolic link met before the last element
    is followed, its target taking its place in front of the elements that
    are left.  A symbolic link that is the last element is followed by
    Stat, ReadFile, ReadDir and WriteFile, not by Lstat, Readlink, Remove
    and Mkdir.  No more than forty links are followed in one name. *)

Inductive node :=
| File (perm : Z) (data : list Byte.byte)
| Dir (perm : Z)
| Symlink (target : string).

Record FS := mkFS {
  cwd : list string;
  tree : gmap (list string) node
}.

Inductive sys (A : Type) :=
| Done (a : A)
| Fails (e : errno).
Arguments Done {A} a.
Arguments Fails {A} e.

Definition nodeAt (fs : FS) (k : list string) : option node :=
  match k with
  | [] => Some (Dir 493)
  | _ => tree fs !! k
  end.

Definition parent (k : list string) : list string := removelast k.

Definition fsInsert (fs : FS) (k : list string) (n : node) : FS :=
  mkFS (cwd fs) (<[k := n]> (tree fs)).

Definition fsDelete (fs : FS) (k : list string) : FS :=
  mkFS (cwd fs) (delete k (tree fs)).

(** The elements of a name from the directory [cur] on; [expand] is what
    following a link does, given its target, the directory it is in and
    the elements after it.  The last element is followed only under
    [flw]; an empty element after it, which is a trailing slash, makes it
    an element before the last. *)
Fixpoint walkWith
    (expand : string → list string → list string → sys (list string))
    (fs : FS) (flw : bool) (cur : list string) (elems : list string)
  : sys (list string) :=
  match elems with
  | [] => Done cur
  | c :: rest =>
      match nodeAt fs cur with
      | None => Fails ENOENT
      | Some (Dir _) =>
          if decide (c = "") then walkWith expand fs flw cur rest
          else if decide (c = ".") then walkWith expand fs flw cur rest
          else if decide (c = "..") then
            walkWith expand fs flw (parent cur) rest
          else
            match nodeAt fs (cur ++ [c]) with
            | Some (Symlink target) =>
                if flw || bool_decide (rest ≠ [])
                then expand target cur rest
                else walkWith expand fs flw (cur ++ [c]) rest
            | _ => walkWith expand fs flw (cur ++ [c]) rest
            end
      | Some _ => Fails ENOTDIR
      end
  end.

(** The target of a link is resolved from the directory of the link, or
    from the root when it is rooted, and then the elements left. *)
Definition viaLink (w : list string → list string → sys (list string))
    (target : string) (dir rest : list string) : sys (list string) :=
  if decide (target = "") then Fails ENOENT
  else w (if isRooted target then [] else dir)
         (strings_Split target "/" ++ rest).

(** Resolution with [fuel] links still allowed. *)
Fixpoint walk (fuel : nat) (fs : FS) (flw : bool)
  : list string → list string → sys (list string) :=
  match fuel with
  | O => walkWith (λ _ _ _, Fails ELOOP) fs flw
  | S fuel' => walkWith (viaLink (walk fuel' fs flw)) fs flw
  end.

Definition maxSymlinks : nat := 40.

Definition startDir (fs : FS) (path : string) : list string :=
  if isRooted path then [] else cwd fs.

(** The key a name denotes, the last element not followed; the empty name
    denotes nothing. *)
Definition locate (fs : FS) (path : string) : sys (list string) :=
  if decide (path = "") then Fails ENOENT
  else walk maxSymlinks fs false (startDir fs path) (strings_Split path "/").

(** The same with the last element followed. *)
Definition locateFollow (fs : FS) (path : string) : sys (list string) :=
  if decide (path = "") then Fails ENOENT
  else walk maxSymlinks fs true (startDir fs path) (strings_Split path "/").

(** os.FileMode: the type bits of package os over the permission bits. *)
Definition ModeDir : Z := 2 ^ 31.
Definition ModeSymlink : Z := 2 ^ 27.
Definition ModePerm : Z := 511.

Record FileInfo := mkFileInfo {
  Name : string;
  Mode : Z
}.

Definition modeOf (n : node) : Z :=
  match n with
  | File perm _ => Z.land perm ModePerm
  | Dir perm => Z.lor ModeDir (Z.land perm ModePerm)
  | Symlink _ => Z.lor ModeSymlink ModePerm
  end.

Definition IsDir (fi : FileInfo) : bool :=
  negb (Z.land (Mode fi) ModeDir =? 0).

Definition os_Lstat (fs : FS) (name : string) : FileInfo + error :=
  match locate fs name with
  | Fails e => inr (PathError "lstat" name e)
  | Done k =>
      match nodeAt fs k with
      | None => inr (PathError "lstat" name ENOENT)
      | Some n => inl (mkFileInfo (filepath_Base name) (modeOf n))
      end
  end.

Definition os_Stat (fs : FS) (name : string) : FileInfo + error :=
  match locateFollow fs name with
  | Fails e => inr (PathError "stat" name e)
  | Done k =>
      match nodeAt fs k with
      | None => inr (PathError "stat" name ENOENT)
      | Some n => inl (mkFileInfo (filepath_Base name) (modeOf n))
      end
  end.

Definition os_Readlink (fs : FS) (name : string) : string + error :=
  match locate fs name with
  | Fails e => inr (PathError "readlink" name e)
  | Done k =>
      match nodeAt fs k with
      | None => inr (PathError "readlink" name ENOENT)
      | Some (Symlink target) => inl target
      | Some _ => inr (PathError "readlink" name EINVAL)
      end
  end.

Definition os_ReadFile (fs : FS) (name : string) : list Byte.byte + error :=
  match locateFollow fs name with
  | Fails e => inr (PathError "open" name e)
  | Done k =>
      match nodeAt fs k with
      | None => inr (PathError "open" name ENOENT)
      | Some (File _ data) => inl data
      | Some (Dir _) => inr (PathError "read" name EISDIR)
      | Some (Symlink _) => inr (PathError "open" name ELOOP)
      end
  end.

(** The entries of the directory at a key, sorted by file name as
    os.ReadDir returns them. *)
Definition nameLe (a b : FileInfo) : Prop :=
  Is_true (String.leb (Name a) (Name b)).

#[global] Instance nameLe_dec a b : Decision (nameLe a b).
Proof. unfold nameLe. apply _. Defined.

Definition childOf (k : list string) (kn : list string * node)
  : option FileInfo :=
  match last kn.1 with
  | Some c =>
      if decide (removelast kn.1 = k) then Some (mkFileInfo c (modeOf kn.2))
      else None
  | None => None
  end.

Definition children (fs : FS) (k : list string) : list FileInfo :=
  merge_sort nameLe (omap (childOf k) (map_to_list (tree fs))).

Definition os_ReadDir (fs : FS) (name : string) : list FileInfo + error :=
  match locateFollow fs name with
  | Fails e => inr (PathError "open" name e)
  | Done k =>
      match nodeAt fs k with
      | None => inr (PathError "open" name ENOENT)
      | Some (Dir _) => inl (children fs k)
      | Some _ => inr (PathError "readdirent" name ENOTDIR)
      end
  end.

(** os.Remove: unlink, or rmdir of an empty directory.  The link itself
    goes, not what it points to. *)
Definition os_Remove (fs : FS) (name : string) : option error * FS :=
  match locate fs name with
  | Fails e => (Some (PathError "remove" name e), fs)
  | Done k =>
      if decide (filepath_Base name = ".") then
        (Some (PathError "remove" name EINVAL), fs)
      else if decide (filepath_Base name = "..") then
        (Some (PathError "remove" name ENOTEMPTY), fs)
      else
        match k with
        | [] => (Some (PathError "remove" name EBUSY), fs)
        | _ =>
            match tree fs !! k with
            | None => (Some (PathError "remove" name ENOENT), fs)
            | Some (Dir _) =>
                match children fs k with
                | [] => (None, fsDelete fs k)
                | _ => (Some (PathError "remove" name ENOTEMPTY), fs)
                end
            | Some _ => (None, fsDelete fs k)
            end
        end
  end.

(** os.WriteFile: open with O_WRONLY|O_CREATE|O_TRUNC, write, close.  The
    permission is used only when the file is created.  The failures are
    those of the open; a file that is open is written in full, as the
    files of procfs and of a disk with room left are. *)
Definition os_WriteFile (fs : FS) (name : string) (data : list Byte.byte)
    (perm : Z) : option error * FS :=
  match locateFollow fs name with
  | Fails e => (Some (PathError "open" name e), fs)
  | Done k =>
      match nodeAt fs k with
      | Some (Dir _) => (Some (PathError "open" name EISDIR), fs)
      | Some (Symlink _) => (Some (PathError "open" name ELOOP), fs)
      | Some (File p _) =>
          (None, fsInsert fs k (File p data))
      | None =>
          match nodeAt fs (parent k) with
          | Some (Dir _) =>
              (None, fsInsert fs k (File perm data))
          | Some _ => (Some (PathError "open" name ENOTDIR), fs)
          | None => (Some (PathError "open" name ENOENT), fs)
          end
      end
  end.

(** os.Mkdir: the name must denote nothing, a link that is its last
    element counting as something, and the directory it is to be in must
    be there.  Trailing slashes are allowed. *)
Fixpoint dropEmptyTail (elems : list string) : list string :=
  match elems with
  | [] => []
  | c :: rest =>
      match dropEmptyTail rest with
      | [] => if decide (c = "") then [] else [c]
      | r => c :: r
      end
  end.

Definition os_Mkdir (fs : FS) (name : string) (perm : Z)
  : option error * FS :=
  if decide (name = "") then (Some (PathError "mkdir" name ENOENT), fs)
  else
    match walk maxSymlinks fs false (startDir fs name)
            (dropEmptyTail (strings_Split name "/")) with
    | Fails e => (Some (PathError "mkdir" name e), fs)
    | Done k =>
        match nodeAt fs k with
        | Some _ => (Some (PathError "mkdir" name EEXIST), fs)
        | None =>
            match nodeAt fs (parent k) with
            | Some (Dir _) => (None, fsInsert fs k (Dir perm))
            | Some _ => (Some (PathError "mkdir" name ENOTDIR), fs)
            | None => (Some (PathError "mkdir" name ENOENT), fs)
            end
        end
    end.

(** The parent MkdirAll recurses on, path[:j-1] in its text: trailing
    slashes are skipped, then the last element, and what is in front of
    the slash reached is the parent; it is empty when there is no such
    slash or nothing in front of it, and then there is no recursion. *)
Fixpoint skipWhile (f : ascii → bool) (l : list ascii) : list ascii :=
  match l with
  | [] => []
  | a :: l' => if f a then skipWhile f l' else l
  end.

Definition isPathSeparator (a : ascii) : bool := bool_decide (a = "/"%char).

Definition parentOf (path : string) : string :=
  let r := rev (String.list_ascii_of_string path) in
  let r := skipWhile isPathSeparator r in
  let r := skipWhile (λ a, negb (isPathSeparator a)) r in
  String.string_of_list_ascii (rev (tail r)).

(** os.MkdirAll: nothing to do when Stat finds a directory; otherwise the
    parent is made first, by the same function, and then Mkdir makes the
    directory itself, an error of Mkdir being dropped when Lstat finds a
    directory all the same.  [fuel] bounds the depth of the recursion;
    the length of the name is enough, a parent being shorter. *)
Fixpoint mkdirAll (fuel : nat) (fs : FS) (path : string) (perm : Z)
  : option error * FS :=
  match os_Stat fs path with
  | inl dir =>
      if IsDir dir then (None, fs)
      else (Some (PathError "mkdir" path ENOTDIR), fs)
  | inr _ =>
      let parent := parentOf path in
      let made :=
        match fuel with
        | S fuel' =>
            if decide (parent = "") then (None, fs)
            else mkdirAll fuel' fs parent perm
        | O => (None, fs)
        end in
      match made with
      | (Some err, fs1) => (Some err, fs1)
      | (None, fs1) =>
          match os_Mkdir fs1 path perm with
          | (None, fs2) => (None, fs2)
          | (Some err, fs2) =>
              match os_Lstat fs2 path with
              | inl dir =>
                  if IsDir dir then (None, fs2) else (Some err, fs2)
              | inr _ => (Some err, fs2)
              end
          end
      end
  end.

Definition os_MkdirAll (fs : FS) (path : string) (perm : Z)
  : option error * FS :=
  mkdirAll (String.length path) fs path perm.

(** ** pkg/utils/utils.go *)

Definition sriovConfigured : string := "/sriov_numvfs".
Definition NetDirectory : string := "/sys/class/net".
Definition SysBusPci : string := "/sys/bus/pci/devices".
Definition ContainerSysBusPci : string := "/root/sys/bus/pci/devices".

Definition stringOfBytes (data : list Byte.byte) : string :=
  String.string_of_list_byte data.

Definition GetSriovNumVfs (fs : FS) (ifName : string) : Z * option error :=
  let vfTotal := 0 in
  let sriovFile :=
    filepath_Join [NetDirectory; ifName; "device"; sriovConfigured] in
  match os_Lstat fs sriovFile with
  | inr err =>
      (vfTotal,
       Some (Errorf "failed to open the sriov_numfs of device %q: %v"
               [AStr ifName; AErr err]))
  | inl _ =>
      match os_ReadFile fs (filepath_Clean sriovFile) with
      | inr err =>
          (vfTotal,
           Some (Errorf "failed to read the sriov_numfs of device %q: %v"
                   [AStr ifName; AErr err]))
      | inl data =>
          if decide (length data = 0%nat) then
            (vfTotal, Some (Errorf "no data in the file %q" [AStr sriovFile]))
          else
            let sriovNumfs := strings_TrimSpace (stringOfBytes data) in
            match strconv_Atoi sriovNumfs with
            | (vfTotal, Some err) =>
                (vfTotal,
                 Some (Errorf "failed to convert sriov_numfs(byte value) to int of device %q: %v"
                         [AStr ifName; AErr err]))
            | (vfTotal, None) => (vfTotal, None)
            end
      end
  end.

Definition vfDirOf (pfName : string) (vf : Z) : string :=
  filepath_Join [NetDirectory; pfName; "device"; virtfn vf].

(** The loop of GetVfid with [n] indices left to try from [vf] on. *)
Fixpoint GetVfid_loop (fs : FS) (addr pfName : string) (n : nat) (vf : Z)
  : option Z :=
  match n with
  | O => None
  | S n' =>
      let vfDir := vfDirOf pfName vf in
      match os_Lstat fs vfDir with
      | inr _ => GetVfid_loop fs addr pfName n' (vf + 1)
      | inl _ =>
          match os_Readlink fs vfDir with
          | inr _ => GetVfid_loop fs addr pfName n' (vf + 1)
          | inl pciinfo =>
              let pciaddr := filepath_Base pciinfo in
              if decide (pciaddr = addr) then Some vf
              else GetVfid_loop fs addr pfName n' (vf + 1)
          end
      end
  end.

Definition GetVfid (fs : FS) (addr pfName : string) : Z * option error :=
  let id := 0 in
  match GetSriovNumVfs fs pfName with
  | (_, Some err) => (id, Some err)
  | (vfTotal, None) =>
      match GetVfid_loop fs addr pfName (Z.to_nat vfTotal) 0 with
      | Some vf => (vf, None)
      | None =>
          (id,
           Some (Errorf "unable to get VF ID with PF: %s and VF pci address %v"
                   [AStr pfName; AStr addr]))
      end
  end.

Definition GetPciAddress (fs : FS) (ifName : string) (vf : Z)
  : string * option error :=
  let pciaddr := "" in
  let vfDir := vfDirOf ifName vf in
  match os_Lstat fs vfDir with
  | inr err =>
      (pciaddr,
       Some (Errorf "can't get the symbolic link of virtfn%d dir of the device %q: %v"
               [AInt vf; AStr ifName; AErr err]))
  | inl dirInfo =>
      if Z.land (Mode dirInfo) ModeSymlink =? 0 then
        (pciaddr,
         Some (Errorf "no symbolic link for the virtfn%d dir of the device %q"
                 [AInt vf; AStr ifName]))
      else
        match os_Readlink fs vfDir with
        | inr err =>
            (pciaddr,
             Some (Errorf "can't read the symbolic link of virtfn%d dir of the device %q: %v"
                     [AInt vf; AStr ifName; AErr err]))
        | inl pciinfo => (filepath_Base pciinfo, None)
        end
  end.

(** The index expression names[0] is in range, the listing not being
    empty past the guard on its length. *)
Definition GetVFLinkNames (fs : FS) (pciAddr : string)
  : string * option error :=
  let vfDir := filepath_Join [SysBusPci; pciAddr; "net"] in
  match os_Lstat fs vfDir with
  | inr err => ("", Some err)
  | inl _ =>
      match os_ReadDir fs vfDir with
      | inr err =>
          ("", Some (Errorf "failed to read net dir of the device %s: %v"
                       [AStr pciAddr; AErr err]))
      | inl fInfos =>
          if decide (length fInfos = 0%nat) then
            ("", Some (Errorf "VF device %s sysfs path (%s) has no entries"
                         [AStr pciAddr; AStr vfDir]))
          else
            let names := map Name fInfos in
            match names with
            | first :: _ => (first, None)
            | [] => ("", None)
            end
      end
  end.

Definition GetVFLinkNamesFromVFID (fs : FS) (pfName : string) (vfID : Z)
  : list string * option error :=
  let vfDir :=
    filepath_Join [NetDirectory; pfName; "device"; virtfn vfID; "net"] in
  match os_Lstat fs vfDir with
  | inr err => ([], Some err)
  | inl _ =>
      match os_ReadDir fs vfDir with
      | inr err =>
          ([], Some (Errorf "failed to read the virtfn%d dir of the device %q: %v"
                       [AInt vfID; AStr pfName; AErr err]))
      | inl fInfos => (map Name fInfos, None)
      end
  end.

(** A Go call either returns or panics. *)
Inductive outcome (A : Type) :=
| Returns (a : A)
| Panics (msg : string).
Arguments Returns {A} a.
Arguments Panics {A} msg.

(** The slice expression s[low:high] on a slice whose capacity is its
    length, which is how strings.Split allocates its result: out of range
    is a run-time panic. *)
Definition sliceExpr {A} (s : list A) (low high : nat) : option (list A) :=
  if decide (low ≤ high ∧ high ≤ length s)%nat
  then Some (take (high - low) (drop low s))
  else None.

(** utilfs.Fs is the file system of the host unless a test swaps it. *)
Definition getFileNamesFromPath (fs : FS) (dir : string)
  : list string * option error :=
  match os_Stat fs dir with
  | inr err =>
      ([], Some (Errorf "could not stat the directory %s: %v"
                   [AStr dir; AErr err]))
  | inl _ =>
      match os_ReadDir fs dir with
      | inr err =>
          ([], Some (Errorf "failed to read directory %s: %v"
                       [AStr dir; AErr err]))
      | inl files =>
          (map (λ netDeviceFile, strings_TrimSpace (Name netDeviceFile)) files,
           None)
      end
  end.

Definition GetContainerNetDevFromPci (fs : FS) (netNSPath pciAddress : string)
  : outcome (list string * option error) :=
  match sliceExpr (strings_Split netNSPath "/") 1 3 with
  | None => Panics "slice bounds out of range"
  | Some PidSlice =>
      let PidPath := strings_Join PidSlice "/" in
      let containerPciNetPath :=
        filepath_Join [PidPath; ContainerSysBusPci; pciAddress; "net"] in
      Returns (getFileNamesFromPath fs containerPciNetPath)
  end.

(** *** The NetConf cache *)

Section NetConfCache.

(** The configuration handed to SaveNetConf is an interface value; all
    the cache does with it is json.Marshal. *)
Context {Conf : Type}.
Variable json_Marshal : Conf → list Byte.byte + error.

Definition saveScratchNetConf (fs : FS) (containerID dataDir : string)
    (netconf : list Byte.byte) : option error * FS :=
  match os_MkdirAll fs dataDir 448 with
  | (Some err, fs1) =>
      (Some (Errorf "failed to create the sriov data directory(%q): %v"
               [AStr dataDir; AErr err]), fs1)
  | (None, fs1) =>
      let path := filepath_Join [dataDir; containerID] in
      match os_WriteFile fs1 path netconf 384 with
      | (Some err, fs2) =>
          (Some (Errorf "failed to write container data in the path(%q): %v"
                   [AStr path; AErr err]), fs2)
      | (None, fs2) => (None, fs2)
      end
  end.

Definition SaveNetConf (fs : FS) (cid dataDir podIfName : string)
    (conf : Conf) : option error * FS :=
  match json_Marshal conf with
  | inr err =>
      (Some (Errorf "error serializing delegate netconf: %v" [AErr err]), fs)
  | inl netConfBytes =>
      let s := [cid; podIfName] in
      let cRef := strings_Join s "-" in
      saveScratchNetConf fs cRef dataDir netConfBytes
  end.

End NetConfCache.

Definition ReadScratchNetConf (fs : FS) (cRefPath : string)
  : list Byte.byte * option error :=
  match os_ReadFile fs (filepath_Clean cRefPath) with
  | inr err =>
      ([], Some (Errorf "failed to read container data in the path(%q): %v"
                   [AStr cRefPath; AErr err]))
  | inl data => (data, None)
  end.

Definition CleanCachedNetConf (fs : FS) (cRefPath : string)
  : option error * FS :=
  match os_Stat fs cRefPath with
  | inr err =>
      if os_IsNotExist err then (None, fs)
      else
        (Some (Errorf "error stating cached NetConf file %s: %v"
                 [AStr cRefPath; AErr err]), fs)
  | inl _ =>
      match os_Remove fs cRefPath with
      | (Some err, fs') =>
          (Some (Errorf "error removing NetConf file %s: %v"
                   [AStr cRefPath; AErr err]), fs')
      | (None, fs') => (None, fs')
      end
  end.

(** *** Validation *)

#[global] Instance byte_eq_dec : EqDecision Byte.byte := Byte.byte_eq_dec.

Definition invalidMACAddresses : list (list Byte.byte) :=
  [ [Byte.x00; Byte.x00; Byte.x00; Byte.x00; Byte.x00; Byte.x00];
    [Byte.xff; Byte.xff; Byte.xff; Byte.xff; Byte.xff; Byte.xff] ].

(** bytes.Equal *)
Definition bytes_Equal (a b : list Byte.byte) : bool := bool_decide (a = b).

Definition IsValidMACAddress (addr : list Byte.byte) : bool :=
  let valid := false in
  if decide (length addr = 6%nat) then
    fold_left
      (λ valid invalidMACAddress,
         if bytes_Equal addr invalidMACAddress then false else valid)
      invalidMACAddresses true
  else valid.

(** *** Retry *)

Section Retry.

(** The state the operation works on, and what time.Sleep does to it. *)
Context {St : Type}.
Variable time_Sleep : Z → St → St.

(** The loop of Retry with [n] rounds left, [err] the error so far. *)
Fixpoint Retry_loop (n : nat) (sleep : Z) (f : St → option error * St)
    (err : option error) (s : St) : option error * St :=
  match n with
  | O => (err, s)
  | S n' =>
      match f s with
      | (None, s') => (None, s')
      | (Some e, s') => Retry_loop n' sleep f (Some e) (time_Sleep sleep s')
      end
  end.

Definition Retry (retries : Z) (sleep : Z) (f : St → option error * St)
    (s : St) : option error * St :=
  Retry_loop (Z.to_nat retries) sleep f None s.

End Retry.

(** ** Notions used by the statements *)

(** *** Names *)

Definition noSlash (s : string) : Prop := strings_Count s "/" = 0%nat.

Definition realName (c : string) : Prop := c ≠ "" ∧ c ≠ "." ∧ c ≠ "..".

(** Where one element takes a resolution that meets no obstacle and
    follows no link. *)
Definition lexStep (cur : list string) (c : string) : list string :=
  if decide (c = "") then cur
  else if decide (c = ".") then cur
  else if decide (c = "..") then parent cur
  else cur ++ [c].

(** The elements Clean keeps, last one first: real names over the dot-dot
    elements a relative path starts with. *)
Definition cleanStack (rooted : bool) (out : list string) : Prop :=
  ∃ names dots,
    out = names ++ dots ∧ Forall realName names ∧
    Forall (λ c, c = "..") dots ∧ (rooted = true → dots = []).

Definition cleanRender (rooted : bool) (out : list string) : string :=
  if rooted then "/" +:+ strings_Join out "/"
  else match out with
       | [] => "."
       | _ => strings_Join out "/"
       end.

(** *** Reserved hardware addresses *)

Definition zeroMAC : list Byte.byte := replicate 6 Byte.x00.
Definition broadcastMAC : list Byte.byte := replicate 6 Byte.xff.

(** *** Well-formed trees *)

Definition isDirAt (fs : FS) (k : list string) : bool :=
  match nodeAt fs k with
  | Some (Dir _) => true
  | _ => false
  end.

(** Every node sits in a directory. *)
Definition wfFS (fs : FS) : Prop :=
  map_Forall (λ k _, isDirAt fs (parent k) = true) (tree fs).

#[global] Instance wfFS_dec fs : Decision (wfFS fs).
Proof. unfold wfFS. apply _. Defined.

(** *** Decimal numerals *)

Fixpoint allDigits (s : string) : bool :=
  match s with
  | EmptyString => true
  | String c s' => isDigit c && allDigits s'
  end.

Fixpoint digitsValue (acc : Z) (s : string) : Z :=
  match s with
  | EmptyString => acc
  | String c s' =>
      digitsValue (acc * 10 + (Z.of_nat (Ascii.nat_of_ascii c) - 48)) s'
  end.

(** [s] is a decimal numeral of value [v]: one digit or more after an
    optional sign. *)
Definition signedDecimal (s : string) (v : Z) : Prop :=
  ∃ body, body ≠ "" ∧ allDigits body = true ∧
    ((s = body ∧ v = digitsValue 0 body) ∨
     (s = "+" +:+ body ∧ v = digitsValue 0 body) ∨
     (s = "-" +:+ body ∧ v = - digitsValue 0 body)).

(** *** Invocations of the operation under Retry *)

Section RetryRuns.

Context {St : Type}.
Variable time_Sleep : Z → St → St.
Variable sleep : Z.
Variable f : St → option error * St.

(** The state in which invocation [i] (counted from 0) starts when every
    earlier one failed and was slept on. *)
Fixpoint stateBefore (i : nat) (s : St) : St :=
  match i with
  | O => s
  | S i' => time_Sleep sleep (f (stateBefore i' s)).2
  end.

(** What invocation [i] returns. *)
Definition errorOf (i : nat) (s : St) : option error :=
  (f (stateBefore i s)).1.

End RetryRuns.

(** The operation wrapped in a counter of its invocations, the way a test
    double counts them; sleeping leaves the counter alone. *)
Definition counted {St} (f : St → option error * St)
    (cs : nat * St) : option error * (nat * St) :=
  let '(r, s') := f cs.2 in (r, (S cs.1, s')).

Definition countedSleep {St} (time_Sleep : Z → St → St) (d : Z)
    (cs : nat * St) : nat * St :=
  (cs.1, time_Sleep d cs.2).

(** *** File trees for the examples *)

Definition keyOf (path : string) : list string :=
  filter (λ c, c ≠ "") (strings_Split path "/").

Definition withNode (path : string) (n : node) (fs : FS) : FS :=
  fsInsert fs (keyOf path) n.

Definition mkdirs (path : string) (fs : FS) : FS :=
  (os_MkdirAll fs path 493).2.

Definition bytesOf (s : string) : list Byte.byte :=
  String.list_byte_of_string s.

Definition newline : string := String "010" EmptyString.

Definition emptyFS : FS := mkFS [] ∅.

(** A PF eth0 with four VFs configured; virtfn0 and virtfn2 are links,
    virtfn1 is a directory with an empty net/ below it, virtfn3 is
    missing; the VF at 0000:01:00.2 exposes two netdevices. *)
Definition sysfs : FS :=
  withNode "/sys/class/net/eth0/device/sriov_numvfs"
    (File 420 (bytesOf ("4" +:+ newline)))
  (withNode "/sys/class/net/eth0/device/virtfn0" (Symlink "../0000:01:00.0")
  (withNode "/sys/class/net/eth0/device/virtfn2" (Symlink "../0000:01:00.2")
  (withNode "/sys/bus/pci/devices/0000:01:00.2/net/eth5" (Dir 493)
  (withNode "/sys/bus/pci/devices/0000:01:00.2/net/eth3" (Dir 493)
  (mkdirs "/sys/class/net/eth0/device/virtfn1/net"
  (mkdirs "/sys/bus/pci/devices/0000:01:00.2/net"
  (mkdirs "/sys/class/net/eth0/device" emptyFS))))))).

(** A PF whose VF 0 is a directory with two netdevices below net/. *)
Definition sysfsTwoPorts : FS :=
  withNode "/sys/class/net/eth0/device/virtfn0/net/eth5" (Dir 493)
  (withNode "/sys/class/net/eth0/device/virtfn0/net/eth3" (Dir 493)
  (mkdirs "/sys/class/net/eth0/device/virtfn0/net" emptyFS)).

(** A PF eth0 with a negative number in sriov_numvfs. *)
Definition sysfsNegative : FS :=
  withNode "/sys/class/net/eth0/device/sriov_numvfs"
    (File 420 (bytesOf ("-1" +:+ newline)))
  (mkdirs "/sys/class/net/eth0/device" emptyFS).

(** A configuration that marshals to its decimal numeral. *)
Definition marshalZ (z : Z) : list Byte.byte + error :=
  inl (bytesOf (pretty z)).

(** The cache after one ADD of container abc, interface net1. *)
Definition cacheFS : FS :=
  (SaveNetConf marshalZ emptyFS "abc" "/var/lib/cni" "net1" 42).2.

(** Two ADDs whose keys collide: (a-b, c), then (a, b-c). *)
Definition collisionFS1 : FS :=
  (SaveNetConf marshalZ emptyFS "a-b" "/var/lib/cni" "c" 1).2.

Definition collisionFS2 : FS :=
  (SaveNetConf marshalZ collisionFS1 "a" "/var/lib/cni" "b-c" 2).2.

(** An operation that fails while its state, a countdown, is positive. *)
Definition failsUntilZero (s : nat) : option error * nat :=
  match s with
  | O => (None, O)
  | S s' => (Some (Errorf "not yet: %d" [AInt (Z.of_nat s)]), s')
  end.

Definition noSleep (d : Z) (s : nat) : nat := s.

(** ** The rest of pkg/utils/utils.go *)

Definition SysV4ArpNotify : string := "/proc/sys/net/ipv4/conf/".
Definition SysV6NdiscNotify : string := "/proc/sys/net/ipv6/conf/".

Definition UserspaceDrivers : list string :=
  ["vfio-pci"; "uio_pci_generic"; "igb_uio"].

Definition defaultRuntimeEndpoints : list string :=
  ["unix:///run/containerd/containerd.sock"; "unix:///run/crio/crio.sock";
   "unix:///var/run/cri-dockerd.sock"].

(** os.ModeAppend, which the source passes as the permission of the files
    it writes; it has no permission bit. *)
Definition ModeAppend : Z := 2 ^ 30.

Definition EnableArpAndNdiscNotify (fs : FS) (ifName : string)
  : option error * FS :=
  let v4ArpNotifyPath := filepath_Join [SysV4ArpNotify; ifName; "arp_notify"] in
  match os_WriteFile fs v4ArpNotifyPath (bytesOf "1") ModeAppend with
  | (Some err, fs1) =>
      (Some (Errorf "failed to write arp_notify=1 for interface %s: %v"
               [AStr ifName; AErr err]), fs1)
  | (None, fs1) =>
      let v6NdiscNotifyPath :=
        filepath_Join [SysV6NdiscNotify; ifName; "ndisc_notify"] in
      match os_WriteFile fs1 v6NdiscNotifyPath (bytesOf "1") ModeAppend with
      | (Some err, fs2) =>
          (Some (Errorf "failed to write ndisc_notify=1 for interface %s: %v"
                   [AStr ifName; AErr err]), fs2)
      | (None, fs2) => (None, fs2)
      end
  end.

(** The index expression files[0] is in range past the guard. *)
Definition GetPfName (fs : FS) (vf : string) : string * option error :=
  let pfSymLink := filepath_Join [SysBusPci; vf; "physfn"; "net"] in
  match os_Lstat fs pfSymLink with
  | inr err => ("", Some err)
  | inl _ =>
      match os_ReadDir fs pfSymLink with
      | inr err => ("", Some err)
      | inl files =>
          if decide (length files < 1)%nat then
            ("", Some (Errorf "PF network device not found" []))
          else
            match files with
            | first :: _ => (strings_TrimSpace (Name first), None)
            | [] => ("", None)
            end
      end
  end.

(** The slice expression s[:high] on a string: out of range is a run-time
    panic. *)
Definition stringUpTo (s : string) (high : Z) : option string :=
  if decide (0 ≤ high ∧ high ≤ Z.of_nat (String.length s))
  then Some (String.substring 0 (Z.to_nat high) s)
  else None.

(** The loop of GetSharedPF over the listing of the parent directory. *)
Fixpoint GetSharedPF_loop (ifName : string) (dirList : list FileInfo)
  : option string :=
  match dirList with
  | [] => None
  | file :: rest =>
      if decide (Name file ≠ ifName) then Some (Name file)
      else GetSharedPF_loop ifName rest
  end.

(** The loop of HasDpdkDriver over the userspace drivers. *)
Fixpoint HasDpdkDriver_loop (driverName : string) (drivers : list string)
  : bool :=
  match drivers with
  | [] => false
  | drv :: rest =>
      if decide (driverName = drv) then true
      else HasDpdkDriver_loop driverName rest
  end.

Section EvalSymlinks.

(** filepath.EvalSymlinks resolves every link of a name and returns the
    name found; it is taken as it comes.  On failure Go returns the empty
    string with the error. *)
Variable filepath_EvalSymlinks : FS → string → string + error.

Definition GetSharedPF (fs : FS) (ifName : string)
  : outcome (string * option error) :=
  let pfName := "" in
  let pfDir := filepath_Join [NetDirectory; ifName] in
  match os_Lstat fs pfDir with
  | inr err =>
      Returns
        (pfName,
         Some (Errorf "can't get the symbolic link of the device %q: %v"
                 [AStr ifName; AErr err]))
  | inl dirInfo =>
      if Z.land (Mode dirInfo) ModeSymlink =? 0 then
        Returns
          (pfName,
           Some (Errorf "no symbolic link for dir of the device %q"
                   [AStr ifName]))
      else
        let fullpath :=
          match filepath_EvalSymlinks fs pfDir with
          | inl p => p
          | inr _ => ""
          end in
        match stringUpTo fullpath
                (Z.of_nat (String.length fullpath)
                 - Z.of_nat (String.length ifName)) with
        | None => Panics "slice bounds out of range"
        | Some parentDir =>
            let dirList :=
              match os_ReadDir fs parentDir with
              | inl l => l
              | inr _ => []
              end in
            match GetSharedPF_loop ifName dirList with
            | Some name => Returns (name, None)
            | None =>
                Returns (pfName, Some (Errorf "shared PF not found" []))
            end
        end
  end.

Definition HasDpdkDriver (fs : FS) (pciAddr : string) : bool * option error :=
  let driverLink := filepath_Join [SysBusPci; pciAddr; "driver"] in
  match filepath_EvalSymlinks fs driverLink with
  | inr err => (false, Some err)
  | inl driverPath =>
      match os_Stat fs driverPath with
      | inr err => (false, Some err)
      | inl driverStat =>
          let driverName := Name driverStat in
          (HasDpdkDriver_loop driverName UserspaceDrivers, None)
      end
  end.

End EvalSymlinks.

(** *** IP families

    net.IP is a byte slice; To4 and To16 return nil (None here) for what
    is no address of the family. *)

Definition v4InV6Prefix : list Byte.byte :=
  replicate 10 Byte.x00 ++ [Byte.xff; Byte.xff].

Definition isZeros (p : list Byte.byte) : bool :=
  forallb (λ b, bool_decide (b = Byte.x00)) p.

Definition IP_To4 (ip : list Byte.byte) : option (list Byte.byte) :=
  if decide (length ip = 4%nat) then Some ip
  else if decide (length ip = 16%nat) then
    if isZeros (take 10 ip)
       && bool_decide (ip !! 10%nat = Some Byte.xff)
       && bool_decide (ip !! 11%nat = Some Byte.xff)
    then Some (take 4 (drop 12 ip))
    else None
  else None.

Definition IP_To16 (ip : list Byte.byte) : option (list Byte.byte) :=
  if decide (length ip = 4%nat) then Some (v4InV6Prefix ++ ip)
  else if decide (length ip = 16%nat) then Some ip
  else None.

Definition IsIPv4 (ip : list Byte.byte) : bool :=
  bool_decide (IP_To4 ip ≠ None).

Definition IsIPv6 (ip : list Byte.byte) : bool :=
  bool_decide (IP_To4 ip = None) && bool_decide (IP_To16 ip ≠ None).

(** *** The PCI to MAC mapping file *)

Definition PathExists (fs : FS) (path : string) : bool * option error :=
  match os_Stat fs path with
  | inl _ => (true, None)
  | inr err =>
      if os_IsNotExist err then (false, None) else (false, Some err)
  end.

(** os.Open for reading gives the node the name denotes; io.ReadAll on it
    gives the bytes of a regular file and fails on a directory. *)
Definition os_Open (fs : FS) (name : string) : node + error :=
  match locateFollow fs name with
  | Fails e => inr (PathError "open" name e)
  | Done k =>
      match nodeAt fs k with
      | None => inr (PathError "open" name ENOENT)
      | Some (Symlink _) => inr (PathError "open" name ELOOP)
      | Some n => inl n
      end
  end.

Definition io_ReadAll (name : string) (file : node)
  : list Byte.byte + error :=
  match file with
  | File _ data => inl data
  | _ => inr (PathError "read" name EISDIR)
  end.

Section PciToMac.

(** json.Unmarshal into the empty map of strings the source declares. *)
Variable json_Unmarshal : list Byte.byte → gmap string string + error.

Definition RetrieveMacFromPci (fs : FS) (pciAddr pciToMacFile : string)
  : string * option error :=
  match PathExists fs pciToMacFile with
  | (_, Some err) =>
      ("", Some (Errorf "error checking pciToMac file: error: %v" [AErr err]))
  | (true, None) =>
      match os_Open fs (filepath_Clean pciToMacFile) with
      | inr err =>
          ("", Some (Errorf "open pciToMac file %s error: %v"
                       [AStr pciToMacFile; AErr err]))
      | inl jsonFile =>
          match io_ReadAll (filepath_Clean pciToMacFile) jsonFile with
          | inr err =>
              ("", Some (Errorf "load pciToMac file %s: error: %v"
                           [AStr pciToMacFile; AErr err]))
          | inl jsonBytes =>
              match json_Unmarshal jsonBytes with
              | inr err =>
                  ("", Some (Errorf "parse pciToMac file %s: error: %v"
                               [AStr pciToMacFile; AErr err]))
              | inl pciToMacMap =>
                  match pciToMacMap !! pciAddr with
                  | None =>
                      ("", Some (Errorf "the pci Address %s is not found in the pciToMac File %s "
                                   [AStr pciAddr; AStr pciToMacFile]))
                  | Some mac => (mac, None)
                  end
              end
          end
      end
  | (false, None) =>
      ("", Some (Errorf "pciToMac file is not found in the path %s "
                   [AStr pciToMacFile]))
  end.

End PciToMac.

(** *** The container runtime *)

Section Runtime.

(** remote.NewRemoteRuntimeService with the time allowed to connect, and
    PodSandboxStatus with its verbose flag giving the info map of the
    response; both belong to the CRI client. *)
Context {Service : Type}.
Variable remote_NewRemoteRuntimeService : string → Z → Service + error.
Variable PodSandboxStatus :
  Service → string → bool → gmap string string + error.

Definition connectTimeout : Z := 2 * 1000000000.

(** The loop of getRuntimeService over the default endpoints, [res] and
    [err] being what the last attempt left. *)
Fixpoint getRuntimeService_loop (endPoints : list string)
    (res : option Service) (err : option error)
  : option Service * option error :=
  match endPoints with
  | [] => (res, err)
  | endPoint :: rest =>
      match remote_NewRemoteRuntimeService endPoint connectTimeout with
      | inr e => getRuntimeService_loop rest None (Some e)
      | inl s => (Some s, None)
      end
  end.

Definition getRuntimeService (runtimeEndpoint : string)
  : option Service * option error :=
  if decide (runtimeEndpoint = "") then
    getRuntimeService_loop defaultRuntimeEndpoints None None
  else
    match remote_NewRemoteRuntimeService runtimeEndpoint connectTimeout with
    | inr e => (None, Some e)
    | inl s => (Some s, None)
    end.

(** A method call on the nil interface is a run-time panic. *)
Definition GetContainerPid (runtimeEndpoint containerId : string)
  : outcome (option (gmap string string) * option error) :=
  match getRuntimeService runtimeEndpoint with
  | (_, Some err) =>
      Returns
        (None,
         Some (Errorf "could not initialize container runtime client: %v"
                 [AErr err]))
  | (None, None) => Panics "invalid memory address or nil pointer dereference"
  | (Some client, None) =>
      match PodSandboxStatus client containerId true with
      | inr err =>
          Returns
            (None,
             Some (Errorf "failed to get ContainerStatus from runtime: %v"
                     [AErr err]))
      | inl info => Returns (Some info, None)
      end
  end.

End Runtime.

(** *** More notions and examples *)

(** Sleeping moves a clock on; the operation takes no time. *)
Definition clockSleep {St} (d : Z) (ts : Z * St) : Z * St := (ts.1 + d, ts.2).

Definition timeless {St} (f : St → option error * St)
    (ts : Z * St) : option error * (Z * St) :=
  let '(r, s') := f ts.2 in (r, (ts.1, s')).

Definition idleSleep {St} (d : Z) (s : St) : St := s.

(** One key of the cache: an identifier that is a single path element. *)
Definition entryName (c : string) : Prop := realName c ∧ noSlash c.

(** EvalSymlinks for the examples: the name of the key found. *)
Definition evalSymlinksOf (fs : FS) (path : string) : string + error :=
  match locateFollow fs path with
  | Fails e => inr (PathError "lstat" path e)
  | Done k =>
      match nodeAt fs k with
      | None => inr (PathError "lstat" path ENOENT)
      | Some _ => inl ("/" +:+ strings_Join k "/")
      end
  end.

(** A PF whose virtfn0 and virtfn2 point at the same PCI address. *)
Definition sysfsTwice : FS :=
  withNode "/sys/class/net/eth0/device/sriov_numvfs"
    (File 420 (bytesOf ("4" +:+ newline)))
  (withNode "/sys/class/net/eth0/device/virtfn0" (Symlink "../0000:01:00.2")
  (withNode "/sys/class/net/eth0/device/virtfn2" (Symlink "../0000:01:00.2")
  (mkdirs "/sys/class/net/eth0/device" emptyFS))).

(** Two netdevices under one device directory, eth0 linked from
    /sys/class/net, and a dangling link eth9. *)
Definition sysfsShared : FS :=
  withNode "/sys/class/net/eth0" (Symlink "../../devices/pci0/net/eth0")
  (withNode "/sys/class/net/eth9" (Symlink "../../devices/gone/net/eth9")
  (mkdirs "/sys/class/net"
  (mkdirs "/sys/devices/pci0/net/eth1"
  (mkdirs "/sys/devices/pci0/net/eth0" emptyFS)))).

(** A decoder that knows one file content, standing for json.Unmarshal in
    the examples. *)
Definition unmarshalOne (data : list Byte.byte) : gmap string string + error :=
  if decide (data = bytesOf "one-entry")
  then inl {[ "0000:01:00.2" := "aa:bb:cc:dd:ee:ff" ]}
  else inr (Errorf "invalid character" []).

Definition macFS : FS :=
  withNode "/etc/cni/pci-to-mac.json" (File 420 (bytesOf "one-entry"))
  (mkdirs "/etc/cni" emptyFS).

(** A runtime that answers on the CRI-O socket only. *)
Definition crioOnly (endPoint : string) (timeout : Z) : string + error :=
  if decide (endPoint = "unix:///run/crio/crio.sock") then inl "crio"
  else inr (Errorf "connection refused: %s" [AStr endPoint]).

(** [fs'] keeps the directories and has the symbolic links of [fs]: what
    a write of a regular file or the making of a directory leaves as it
    was. *)
Definition grows (fs fs' : FS) : Prop :=
  cwd fs' = cwd fs ∧
  (∀ k perm, nodeAt fs k = Some (Dir perm) → nodeAt fs' k = Some (Dir perm)) ∧
  (∀ k target, nodeAt fs k = Some (Symlink target) ↔
               nodeAt fs' k = Some (Symlink target)).

(** The key of the element [c] in the directory at [kD], the element not
    being followed. *)
Definition childKey (fs : FS) (kD : list string) (c : string)
  : sys (list string) :=
  match nodeAt fs kD with
  | None => Fails ENOENT
  | Some (Dir _) => Done (kD ++ [c])
  | Some _ => Fails ENOTDIR
  end.

(** The elements of the cleaned name of a directory, as Split gives them
    for a name below it. *)
Definition dirElems (dir : string) : list string :=
  (if isRooted dir then [""] else [])
  ++ cleanElems (isRooted dir) (strings_Split dir "/").

(** The cache after the ADD of a second interface of container abc. *)
Definition cacheFS2 : FS :=
  (SaveNetConf marshalZ cacheFS "abc" "/var/lib/cni" "net2" 7).2.

(** The sysctl directories of an interface eth0, for both address
    families and for IPv4 alone. *)
Definition procfs : FS :=
  mkdirs "/proc/sys/net/ipv6/conf/eth0"
  (mkdirs "/proc/sys/net/ipv4/conf/eth0" emptyFS).

Definition procfsV4 : FS := mkdirs "/proc/sys/net/ipv4/conf/eth0" emptyFS.

(** A VF whose physical function has two netdevices. *)
Definition sysfsPf : FS :=
  mkdirs "/sys/bus/pci/devices/0000:01:00.2/physfn/net/eth1"
  (mkdirs "/sys/bus/pci/devices/0000:01:00.2/physfn/net/eth0" emptyFS).

(** A tree laid out the way sysfs is: the devices are under /sys/devices,
    and /sys/class/net/eth0, the entries of /sys/bus/pci/devices, device,
    physfn and virtfn0 are links to them. *)
Definition sysfsLinked : FS :=
  withNode "/sys/class/net/eth0"
    (Symlink "../../devices/pci0000:00/0000:01:00.0/net/eth0")
  (withNode "/sys/bus/pci/devices/0000:01:00.0"
    (Symlink "../../../devices/pci0000:00/0000:01:00.0")
  (withNode "/sys/bus/pci/devices/0000:01:00.2"
    (Symlink "../../../devices/pci0000:00/0000:01:00.2")
  (withNode "/sys/devices/pci0000:00/0000:01:00.0/net/eth0/device"
    (Symlink "../../../0000:01:00.0")
  (withNode "/sys/devices/pci0000:00/0000:01:00.0/virtfn0"
    (Symlink "../0000:01:00.2")
  (withNode "/sys/devices/pci0000:00/0000:01:00.2/physfn"
    (Symlink "../0000:01:00.0")
  (withNode "/sys/devices/pci0000:00/0000:01:00.0/sriov_numvfs"
    (File 420 (bytesOf ("1" +:+ newline)))
  (mkdirs "/sys/devices/pci0000:00/0000:01:00.2/net/eth3"
  (mkdirs "/sys/devices/pci0000:00/0000:01:00.0/net/eth0"
  (mkdirs "/sys/bus/pci/devices"
  (mkdirs "/sys/class/net" emptyFS)))))))))).

(** /var/run is a link to /run, as on most hosts. *)
Definition varRunFS : FS :=
  withNode "/var/run" (Symlink "/run") (mkdirs "/run" (mkdirs "/var" emptyFS)).

(** A link to a directory elsewhere, next to an entry e, and another e
    next to the directory the link points to. *)
Definition crossFS : FS :=
  withNode "/d/link" (Symlink "/o/sub")
  (withNode "/d/e" (File 384 (bytesOf "beside the link"))
  (withNode "/o/e" (File 384 (bytesOf "beside the target"))
  (mkdirs "/o/sub" (mkdirs "/d" emptyFS)))).

(** * Properties *)

(** ** The library model against the documented behaviour of Go *)

Example Clean_examples :
  map filepath_Clean
    [ "abc"; "abc/def"; "a/b/c"; "."; ".."; "../.."; "../../abc"; "/abc"; "/";
      "";
      "abc/"; "abc/def/"; "a/b/c/"; "./"; "../"; "../../"; "/abc/";
      "abc//def//ghi"; "//abc"; "///abc"; "//abc//"; "abc//";
      "abc/./def"; "/./abc/def"; "abc/.";
      "abc/def/ghi/../jkl"; "abc/def/../ghi/../jkl"; "abc/def/..";
      "abc/def/../.."; "/abc/def/../.."; "abc/def/../../..";
      "/abc/def/../../.."; "abc/def/../../../ghi/jkl/../../../mno";
      "/../abc";
      "abc/./../def"; "abc//./../def"; "abc/../../././../def" ]
  = [ "abc"; "abc/def"; "a/b/c"; "."; ".."; "../.."; "../../abc"; "/abc"; "/";
      ".";
      "abc"; "abc/def"; "a/b/c"; "."; ".."; "../.."; "/abc";
      "abc/def/ghi"; "/abc"; "/abc"; "/abc"; "abc";
      "abc/def"; "/abc/def"; "abc";
      "abc/def/jkl"; "abc/jkl"; "abc";
      "."; "/"; "..";
      "/"; "../../mno";
      "/abc";
      "def"; "def"; "../../def" ].
Proof. by vm_compute. Qed.

Example Join_examples :
  map filepath_Join
    [ []; [""]; ["/"]; ["a"]; ["a"; "b"]; ["a"; ""]; [""; "b"]; ["/"; "a"];
      ["/"; "a/b"]; ["/"; ""]; ["/a"; "b"]; ["a"; "/b"]; ["/a"; "/b"];
      ["a/"; "b"]; ["a/"; ""]; [""; ""]; ["/"; "a"; "b"] ]
  = [ ""; ""; "/"; "a"; "a/b"; "a"; "b"; "/a";
      "/a/b"; "/"; "/a/b"; "a/b"; "/a/b";
      "a/b"; "a"; ""; "/a/b" ].
Proof. by vm_compute. Qed.

Example Base_examples :
  map filepath_Base
    [ ""; "."; "/."; "/"; "////"; "x/"; "abc"; "abc/def"; "a/b/.x";
      "a/b/c."; "a/b/c.x"; "../0000:01:00.2" ]
  = [ "."; "."; "."; "/"; "/"; "x"; "abc"; "def"; ".x";
      "c."; "c.x"; "0000:01:00.2" ].
Proof. by vm_compute. Qed.

Example Split_examples :
  map (λ s, strings_Split s "/") [ ""; "/"; "a/b"; "/proc/12/ns/net"; "a//" ]
  = [ [""]; [""; ""]; ["a"; "b"]; [""; "proc"; "12"; "ns"; "net"];
      ["a"; ""; ""] ].
Proof. by vm_compute. Qed.

Example Atoi_examples :
  map (λ s, let r := strconv_Atoi s in (r.1, bool_decide (r.2 = None)))
    [ ""; "0"; "-0"; "1"; "-1"; "+1"; "012345"; "-012345"; "12345x"; "-"; "+";
      "1_000"; " 1"; "9223372036854775807"; "9223372036854775808";
      "-9223372036854775808"; "-9223372036854775809" ]
  = [ (0, false); (0, true); (0, true); (1, true); (-1, true); (1, true);
      (12345, true); (-12345, true); (0, false); (0, false); (0, false);
      (0, false); (0, false); (9223372036854775807, true);
      (9223372036854775807, false);
      (-9223372036854775808, true); (-9223372036854775808, false) ].
Proof. by vm_compute. Qed.

Example TrimSpace_examples :
  map strings_TrimSpace
    [ ""; "   "; "  a b  "; "4" +:+ String "010" "";
      bytesString [32; 9; 194; 160; 52; 226; 128; 128; 10; 194; 133]%nat;
      bytesString [194; 194; 133]%nat ]
  = [ ""; ""; "a b"; "4"; "4"; bytesString [194%nat] ].
Proof. by vm_compute. Qed.

(** ** Splitting and joining *)

Lemma Split_length s sep :
  length (strings_Split s sep) = S (strings_Count s sep).
Proof.
  induction s as [|a s IH]; simpl; [done|].
  destruct (decide (a = sep)); simpl; [by rewrite IH|].
  destruct (strings_Split s sep); simpl in *; lia.
Qed.

Lemma Split_noSlash s : Forall noSlash (strings_Split s "/").
Proof.
  induction s as [|a s IH]; simpl.
  - by constructor.
  - destruct (decide (a = "/"%char)) as [->|Hne].
    + by constructor.
    + destruct (strings_Split s "/") as [|h t]; simpl.
      * constructor; [|done]. unfold noSlash. simpl. by rewrite decide_False.
      * inversion IH; subst. constructor; [|done].
        unfold noSlash in *. simpl. by rewrite decide_False.
Qed.

Lemma Split_single s : noSlash s → strings_Split s "/" = [s].
Proof.
  unfold noSlash. induction s as [|a s IH]; simpl; [done|].
  destruct (decide (a = "/"%char)); [done|].
  intros H. by rewrite IH.
Qed.

Lemma Split_app s rest :
  noSlash s →
  strings_Split (s +:+ String "/" rest) "/" = s :: strings_Split rest "/".
Proof.
  unfold noSlash. induction s as [|a s IH]; simpl; [done|].
  destruct (decide (a = "/"%char)); [done|].
  intros H. by rewrite IH.
Qed.

Lemma Join_cons x y l sep :
  strings_Join (x :: y :: l) sep = x +:+ sep +:+ strings_Join (y :: l) sep.
Proof. done. Qed.

Lemma Split_Join l :
  l ≠ [] → Forall noSlash l →
  strings_Split (strings_Join l "/") "/" = l.
Proof.
  induction l as [|x l IH]; [done|]. intros _ Hall.
  inversion Hall as [|? ? Hx Hl]; subst.
  destruct l as [|y l].
  - by apply Split_single.
  - rewrite Join_cons.
    change ("/" +:+ strings_Join (y :: l) "/")
      with (String "/" (strings_Join (y :: l) "/")).
    rewrite Split_app by done. f_equal. by apply IH.
Qed.

(** ** Clean *)

Lemma cleanStep_stack r out c :
  cleanStack r out → cleanStack r (cleanStep r out c).
Proof.
  intros (names & dots & -> & Hn & Hd & Hr). unfold cleanStep.
  destruct (decide (c = "")); [by exists names, dots|].
  destruct (decide (c = ".")); [by exists names, dots|].
  destruct (decide (c = "..")) as [->|].
  - destruct names as [|x names]; simpl.
    + destruct dots as [|d dots].
      * destruct r; [by exists [], []|].
        exists [], [".."]. repeat split; auto. by intros [=].
      * inversion Hd; subst. rewrite decide_True by done.
        exists [], (".." :: ".." :: dots). repeat split; auto.
        intros Hrt. by specialize (Hr Hrt).
    + inversion Hn as [|? ? Hx Hn']; subst.
      destruct Hx as (_ & _ & Hx). rewrite decide_False by done.
      by exists names, dots.
  - exists (c :: names), dots. repeat split; auto.
    by constructor.
Qed.

Lemma cleanFold_stack r elems out :
  cleanStack r out → cleanStack r (fold_left (cleanStep r) elems out).
Proof.
  revert out. induction elems as [|c elems IH]; simpl; [done|].
  intros out H. by apply IH, cleanStep_stack.
Qed.

Lemma cleanStack_nil r : cleanStack r [].
Proof. by exists [], []. Qed.

Lemma cleanStep_Forall (P : string → Prop) r out c :
  Forall P out → P c → Forall P (cleanStep r out c).
Proof.
  intros Hout Hc. unfold cleanStep.
  repeat case_decide; try done; try by constructor.
  - destruct out as [|top rest]; [destruct r; auto|].
    inversion Hout; subst. case_decide; auto.
Qed.

Lemma cleanFold_Forall (P : string → Prop) r elems out :
  Forall P out → Forall P elems →
  Forall P (fold_left (cleanStep r) elems out).
Proof.
  revert out. induction elems as [|c elems IH]; simpl; [done|].
  intros out Hout Hall. inversion Hall; subst.
  by apply IH; [apply cleanStep_Forall|].
Qed.

Lemma lexStep_real cur c : realName c → lexStep cur c = cur ++ [c].
Proof.
  intros (H1 & H2 & H3). unfold lexStep. by rewrite !decide_False.
Qed.

Lemma parent_snoc (k : list string) c : parent (k ++ [c]) = k.
Proof. apply removelast_last. Qed.

Lemma cleanStep_lex r out c cur :
  cleanStack r out → (r = true → cur = []) →
  fold_left lexStep (rev (cleanStep r out c)) cur
  = lexStep (fold_left lexStep (rev out) cur) c.
Proof.
  intros (names & dots & -> & Hn & Hd & Hr) Hcur.
  unfold cleanStep, lexStep at 2.
  destruct (decide (c = "")); [done|].
  destruct (decide (c = ".")); [done|].
  destruct (decide (c = "..")) as [->|].
  - destruct names as [|x names]; simpl.
    + destruct dots as [|d dots].
      * destruct r; simpl; [by rewrite Hcur|done].
      * inversion Hd; subst. rewrite decide_True by done.
        simpl. by rewrite fold_left_app.
    + inversion Hn as [|? ? Hx Hn']; subst.
      pose proof Hx as (_ & _ & Hx3). rewrite decide_False by done.
      rewrite fold_left_app. simpl.
      by rewrite lexStep_real, parent_snoc.
  - simpl. rewrite fold_left_app. simpl. unfold lexStep.
    by rewrite !decide_False.
Qed.

Lemma cleanFold_lex r elems out cur :
  cleanStack r out → (r = true → cur = []) →
  fold_left lexStep (rev (fold_left (cleanStep r) elems out)) cur
  = fold_left lexStep elems (fold_left lexStep (rev out) cur).
Proof.
  revert out. induction elems as [|c elems IH]; simpl; [done|].
  intros out Hs Hcur.
  rewrite IH by (by try apply cleanStep_stack).
  by rewrite cleanStep_lex.
Qed.

Lemma cleanElems_lex r elems cur :
  (r = true → cur = []) →
  fold_left lexStep (cleanElems r elems) cur = fold_left lexStep elems cur.
Proof.
  intros Hcur. unfold cleanElems.
  by rewrite cleanFold_lex by (by try apply cleanStack_nil).
Qed.

(** Elements that are already clean are kept as they are. *)
Lemma cleanFold_real r names out :
  Forall realName names →
  fold_left (cleanStep r) names out = rev names ++ out.
Proof.
  revert out. induction names as [|c names IH]; simpl; [done|].
  intros out Hall. inversion Hall as [|? ? (H1 & H2 & H3) Hn]; subst.
  rewrite IH by done. unfold cleanStep. rewrite !decide_False by done.
  by rewrite <- app_assoc.
Qed.

Lemma cleanFold_dots dots out :
  Forall (λ c, c = "..") dots → Forall (λ c, c = "..") out →
  fold_left (cleanStep false) dots out = rev dots ++ out.
Proof.
  revert out. induction dots as [|c dots IH]; simpl; [done|].
  intros out Hall Hout. inversion Hall; subst.
  assert (cleanStep false out ".." = ".." :: out) as ->.
  { unfold cleanStep. rewrite !decide_False by done.
    rewrite decide_True by done.
    destruct out as [|top rest]; [done|].
    inversion Hout; subst. by rewrite decide_True. }
  rewrite IH by (by try constructor). by rewrite <- app_assoc.
Qed.

Lemma cleanElems_fixed r out :
  cleanStack r out → cleanElems r (rev out) = rev out.
Proof.
  intros (names & dots & -> & Hn & Hd & Hr). unfold cleanElems. f_equal.
  rewrite rev_app_distr, fold_left_app.
  rewrite cleanFold_real by (by apply Forall_rev).
  rewrite rev_involutive. f_equal.
  destruct r.
  - by rewrite Hr.
  - rewrite cleanFold_dots by (by try apply Forall_rev).
    by rewrite rev_involutive, app_nil_r.
Qed.

Lemma cleanElems_skip r elems :
  cleanElems r ("" :: elems) = cleanElems r elems.
Proof. done. Qed.

Lemma Clean_unfold p :
  p ≠ "" →
  filepath_Clean p
  = cleanRender (isRooted p) (cleanElems (isRooted p) (strings_Split p "/")).
Proof.
  intros Hp. unfold filepath_Clean, cleanRender. by rewrite decide_False.
Qed.

Lemma cleanStack_nonempty r out c :
  cleanStack r out → c ∈ out → c ≠ "".
Proof.
  intros (names & dots & -> & Hn & Hd & _) Hin.
  apply elem_of_app in Hin as [Hin|Hin].
  - rewrite Forall_forall in Hn. by destruct (Hn _ Hin).
  - rewrite Forall_forall in Hd. by rewrite (Hd _ Hin).
Qed.

Lemma Join_head_rooted x l :
  x ≠ "" → noSlash x → isRooted (strings_Join (x :: l) "/") = false.
Proof.
  intros Hx Hs.
  assert (∃ a x', x = String a x' ∧ a ≠ "/"%char) as (a & x' & -> & Ha).
  { destruct x as [|a x']; [done|]. exists a, x'. split; [done|].
    intros ->. unfold noSlash in Hs. simpl in Hs. done. }
  destruct l; simpl; by rewrite bool_decide_eq_false.
Qed.

Lemma rev_head_ok r st x l :
  cleanStack r st → Forall noSlash st →
  rev st = x :: l → x ≠ "" ∧ noSlash x.
Proof.
  intros Hst Hns Heq.
  assert (x ∈ st) as Hin.
  { apply list_elem_of_In, in_rev. rewrite Heq. by left. }
  split; [by eapply cleanStack_nonempty|].
  rewrite Forall_forall in Hns. by apply Hns.
Qed.

Lemma cleanRender_nonempty r st :
  cleanStack r st → Forall noSlash st → cleanRender r (rev st) ≠ "".
Proof.
  intros Hst Hns. unfold cleanRender.
  destruct (rev st) as [|x l] eqn:Heq; [by destruct r|].
  destruct (rev_head_ok _ _ _ _ Hst Hns Heq) as [Hx _].
  destruct r; [done|]. destruct x; [done|]. by destruct l.
Qed.

Lemma cleanRender_rooted r st :
  cleanStack r st → Forall noSlash st →
  isRooted (cleanRender r (rev st)) = r.
Proof.
  intros Hst Hns. unfold cleanRender.
  destruct (rev st) as [|x l] eqn:Heq; [by destruct r|].
  destruct (rev_head_ok _ _ _ _ Hst Hns Heq) as [Hx Hs].
  destruct r; [done|]. by apply Join_head_rooted.
Qed.

Lemma cleanRender_Split r st :
  cleanStack r st → Forall noSlash st →
  strings_Split (cleanRender r (rev st)) "/"
  = (if r then [""] else [])
    ++ match rev st with
       | [] => if r then [""] else ["."]
       | _ => rev st
       end.
Proof.
  intros Hst Hns.
  assert (Forall noSlash (rev st)) as Hns' by (by apply Forall_rev).
  unfold cleanRender. destruct r.
  - change ("/" +:+ strings_Join (rev st) "/")
      with (String "/" (strings_Join (rev st) "/")).
    simpl. f_equal.
    destruct (rev st) as [|x l] eqn:Heq; [done|].
    by apply Split_Join.
  - destruct (rev st) as [|x l] eqn:Heq; [done|].
    by apply Split_Join.
Qed.

Lemma cleanRender_elems r st :
  cleanStack r st → Forall noSlash st →
  cleanElems r (strings_Split (cleanRender r (rev st)) "/") = rev st.
Proof.
  intros Hst Hns. rewrite cleanRender_Split by done.
  destruct (rev st) as [|x l] eqn:Heq.
  - by destruct r.
  - rewrite <- Heq.
    destruct r; simpl; [rewrite cleanElems_skip|]; by apply cleanElems_fixed.
Qed.

Lemma cleanRender_lex r st cur :
  cleanStack r st → Forall noSlash st →
  fold_left lexStep (strings_Split (cleanRender r (rev st)) "/") cur
  = fold_left lexStep (rev st) cur.
Proof.
  intros Hst Hns. rewrite cleanRender_Split by done.
  destruct (rev st) as [|x l] eqn:Heq; by destruct r.
Qed.

Lemma cleanRender_Clean r st :
  cleanStack r st → Forall noSlash st →
  filepath_Clean (cleanRender r (rev st)) = cleanRender r (rev st).
Proof.
  intros Hst Hns.
  rewrite Clean_unfold by (by apply cleanRender_nonempty).
  by rewrite cleanRender_rooted, cleanRender_elems.
Qed.

Lemma Clean_stack p :
  let st := fold_left (cleanStep (isRooted p)) (strings_Split p "/") [] in
  cleanStack (isRooted p) st ∧ Forall noSlash st.
Proof.
  split.
  - apply cleanFold_stack, cleanStack_nil.
  - apply cleanFold_Forall; [done|apply Split_noSlash].
Qed.

Lemma Clean_nonempty p : filepath_Clean p ≠ "".
Proof.
  destruct (decide (p = "")) as [->|Hp]; [done|].
  rewrite Clean_unfold by done. unfold cleanElems.
  destruct (Clean_stack p). by eapply cleanRender_nonempty.
Qed.


(** Clean is idempotent. *)
Lemma Clean_Clean p : filepath_Clean (filepath_Clean p) = filepath_Clean p.
Proof.
  destruct (decide (p = "")) as [->|Hp]; [done|].
  rewrite (Clean_unfold p) by done. unfold cleanElems.
  destruct (Clean_stack p). by eapply cleanRender_Clean.
Qed.

(** A walk that meets no obstacle ends at the same place on the cleaned
    name. *)
Lemma Clean_lex p cur :
  p ≠ "" → (isRooted p = true → cur = []) →
  fold_left lexStep (strings_Split (filepath_Clean p) "/") cur
  = fold_left lexStep (strings_Split p "/") cur.
Proof.
  intros Hp Hcur. rewrite Clean_unfold by done. unfold cleanElems.
  destruct (Clean_stack p).
  erewrite cleanRender_lex by done.
  by apply (cleanElems_lex (isRooted p)).
Qed.

Lemma Join_Clean elem :
  filepath_Join elem = "" ∨
  filepath_Clean (filepath_Join elem) = filepath_Join elem.
Proof.
  induction elem as [|e rest IH]; simpl; [by left|].
  case_decide; [done|]. right. apply Clean_Clean.
Qed.

(** ** Resolving names *)

Lemma nodeAt_insert fs k n k' :
  k ≠ [] →
  nodeAt (fsInsert fs k n) k' = if decide (k = k') then Some n else nodeAt fs k'.
Proof.
  intros Hk. destruct k' as [|c k']; simpl.
  - by rewrite decide_False.
  - rewrite lookup_insert. by repeat case_decide.
Qed.

Lemma nodeAt_delete fs k k' :
  k ≠ [] →
  nodeAt (fsDelete fs k) k' = if decide (k = k') then None else nodeAt fs k'.
Proof.
  intros Hk. destruct k' as [|c k']; simpl.
  - by rewrite decide_False.
  - rewrite lookup_delete. by repeat case_decide.
Qed.

Lemma snoc_ne_nil (k : list string) c : k ++ [c] ≠ [].
Proof. by destruct k. Qed.

(** One more link allowed, and none. *)
Lemma walk_S fuel fs flw cur elems :
  walk (S fuel) fs flw cur elems
  = walkWith (viaLink (walk fuel fs flw)) fs flw cur elems.
Proof. done. Qed.

Lemma walk_O fs flw cur elems :
  walk 0 fs flw cur elems = walkWith (λ _ _ _, Fails ELOOP) fs flw cur elems.
Proof. done. Qed.

(** A resolution that follows no link ends where the elements lead. *)
Lemma walk_lex fs flw cur elems k :
  walk 0 fs flw cur elems = Done k → k = fold_left lexStep elems cur.
Proof.
  rewrite walk_O. revert cur.
  induction elems as [|c elems IH]; simpl; intros cur H.
  - by inversion H.
  - destruct (nodeAt fs cur) as [[| |]|]; try done.
    unfold lexStep at 2.
    destruct (decide (c = "")); [by apply IH|].
    destruct (decide (c = ".")); [by apply IH|].
    destruct (decide (c = "..")); [by apply IH|].
    destruct (nodeAt fs (cur ++ [c])) as [[| |t]|]; try by apply IH.
    destruct (flw || bool_decide (elems ≠ [])); [done|by apply IH].
Qed.

(** Where no link is followed, a name and its cleaned form that both
    denote something denote the same; a link in the middle of a name that
    dot-dot comes after is what makes the two differ. *)
Lemma walk_Clean_lex fs fs' flw flw' name cur k k' :
  name ≠ "" → (isRooted name = true → cur = []) →
  walk 0 fs flw cur (strings_Split name "/") = Done k →
  walk 0 fs' flw' cur (strings_Split (filepath_Clean name) "/") = Done k' →
  k' = k.
Proof.
  intros Hne Hcur H H'. apply walk_lex in H, H'. subst.
  by apply Clean_lex.
Qed.

Example resolution_examples :
  os_ReadFile crossFS "/d/link/../e" = inl (bytesOf "beside the target") ∧
  os_ReadFile crossFS (filepath_Clean "/d/link/../e")
    = inl (bytesOf "beside the link") ∧
  os_Readlink crossFS "/d/link" = inl "/o/sub" ∧
  os_Lstat crossFS "/d/link" = inl (mkFileInfo "link" (modeOf (Symlink ""))) ∧
  os_Lstat crossFS "/d/link/" = inl (mkFileInfo "link" (modeOf (Dir 493))) ∧
  os_ReadFile crossFS "/d/e/x" = inr (PathError "open" "/d/e/x" ENOTDIR) ∧
  os_ReadFile crossFS "/d/none/x" = inr (PathError "open" "/d/none/x" ENOENT) ∧
  os_Stat (withNode "/l" (Symlink "l") emptyFS) "/l"
    = inr (PathError "stat" "/l" ELOOP).
Proof. repeat split; by vm_compute. Qed.

(** *** Trees that keep their directories and links *)

Lemma grows_refl fs : grows fs fs.
Proof. by repeat split. Qed.

Lemma grows_trans fs1 fs2 fs3 : grows fs1 fs2 → grows fs2 fs3 → grows fs1 fs3.
Proof.
  intros (Hc1 & Hd1 & Hs1) (Hc2 & Hd2 & Hs2). repeat split.
  - congruence.
  - intros k perm H. by apply Hd2, Hd1.
  - intros H. by apply Hs2, Hs1.
  - intros H. by apply Hs1, Hs2.
Qed.

Lemma grows_insert fs k n :
  k ≠ [] →
  (∀ perm, nodeAt fs k ≠ Some (Dir perm)) →
  (∀ t, nodeAt fs k ≠ Some (Symlink t)) →
  (∀ t, n ≠ Symlink t) →
  grows fs (fsInsert fs k n).
Proof.
  intros Hk Hnd Hns Hn. repeat split.
  - intros k' perm H. rewrite nodeAt_insert by done.
    case_decide; [subst; by destruct (Hnd perm)|done].
  - intros H. rewrite nodeAt_insert by done.
    case_decide; [subst; by destruct (Hns target)|done].
  - rewrite nodeAt_insert by done.
    case_decide; [intros [= ->]; by destruct (Hn target)|done].
Qed.

Lemma walkWith_grows expand expand' fs fs' flw cur elems k :
  grows fs fs' →
  (∀ t d r k', expand t d r = Done k' → expand' t d r = Done k') →
  walkWith expand fs flw cur elems = Done k →
  walkWith expand' fs' flw cur elems = Done k.
Proof.
  intros (_ & Hd & Hs) Hexp. revert cur.
  induction elems as [|c rest IH]; simpl; [done|]. intros cur H.
  destruct (nodeAt fs cur) as [[| perm |]|] eqn:Hcur; try done.
  rewrite (Hd _ _ Hcur).
  destruct (decide (c = "")); [by apply IH|].
  destruct (decide (c = ".")); [by apply IH|].
  destruct (decide (c = "..")); [by apply IH|].
  destruct (nodeAt fs (cur ++ [c])) as [[| |t]|] eqn:Hk.
  1,2,4: destruct (nodeAt fs' (cur ++ [c])) as [[| |t']|] eqn:Hk';
    try (by apply IH); apply Hs in Hk'; congruence.
  apply Hs in Hk. rewrite Hk.
  destruct (flw || bool_decide (rest ≠ [])); [by apply Hexp|by apply IH].
Qed.

(** A name keeps its key on a tree that grew. *)
Lemma walk_grows fuel fs fs' flw cur elems k :
  grows fs fs' →
  walk fuel fs flw cur elems = Done k → walk fuel fs' flw cur elems = Done k.
Proof.
  intros Hg. revert cur elems k.
  induction fuel as [|fuel IH]; intros cur elems k.
  - rewrite !walk_O. by apply walkWith_grows.
  - rewrite !walk_S. apply walkWith_grows; [done|].
    intros t d r k'. unfold viaLink.
    destruct (decide (t = "")); [done|]. apply IH.
Qed.

Lemma grows_locate fs fs' name k :
  grows fs fs' → locate fs name = Done k → locate fs' name = Done k.
Proof.
  intros Hg. unfold locate, startDir. pose proof Hg as (Hc & _).
  destruct (decide (name = "")); [done|]. rewrite Hc. by apply walk_grows.
Qed.

Lemma grows_locateFollow fs fs' name k :
  grows fs fs' → locateFollow fs name = Done k → locateFollow fs' name = Done k.
Proof.
  intros Hg. unfold locateFollow, startDir. pose proof Hg as (Hc & _).
  destruct (decide (name = "")); [done|]. rewrite Hc. by apply walk_grows.
Qed.

(** *** With and without following the last element *)

Lemma walkWith_follow expF expT fs cur elems :
  (∀ t d r,
     match expF t d r with
     | Done k => (∀ t', nodeAt fs k ≠ Some (Symlink t')) → expT t d r = Done k
     | Fails e => expT t d r = Fails e
     end) →
  match walkWith expF fs false cur elems with
  | Done k =>
      (∀ t', nodeAt fs k ≠ Some (Symlink t')) →
      walkWith expT fs true cur elems = Done k
  | Fails e => walkWith expT fs true cur elems = Fails e
  end.
Proof.
  intros Hexp. revert cur.
  induction elems as [|c rest IH]; simpl; [done|]. intros cur.
  destruct (nodeAt fs cur) as [[| perm |]|] eqn:Hcur; try done.
  destruct (decide (c = "")); [by apply IH|].
  destruct (decide (c = ".")); [by apply IH|].
  destruct (decide (c = "..")); [by apply IH|].
  destruct (nodeAt fs (cur ++ [c])) as [[| |t]|] eqn:Hk; try apply IH.
  destruct rest as [|c' rest]; simpl.
  - intros H. by destruct (H t).
  - apply Hexp.
Qed.

(** A name whose last element is no link denotes the same either way,
    and fails the same. *)
Lemma walk_follow fuel fs cur elems :
  match walk fuel fs false cur elems with
  | Done k =>
      (∀ t', nodeAt fs k ≠ Some (Symlink t')) →
      walk fuel fs true cur elems = Done k
  | Fails e => walk fuel fs true cur elems = Fails e
  end.
Proof.
  revert cur elems. induction fuel as [|fuel IH]; intros cur elems.
  - rewrite !walk_O. by apply walkWith_follow.
  - rewrite !walk_S. apply walkWith_follow.
    intros t d r. unfold viaLink.
    destruct (decide (t = "")); [done|]. apply IH.
Qed.

Lemma locate_follow fs name k :
  locate fs name = Done k → (∀ t, nodeAt fs k ≠ Some (Symlink t)) →
  locateFollow fs name = Done k.
Proof.
  unfold locate, locateFollow. destruct (decide (name = "")); [done|].
  intros H Hk.
  pose proof (walk_follow maxSymlinks fs (startDir fs name)
                (strings_Split name "/")) as Hf.
  rewrite H in Hf. by apply Hf.
Qed.

Lemma locate_fails fs name e :
  locate fs name = Fails e → locateFollow fs name = Fails e.
Proof.
  unfold locate, locateFollow. destruct (decide (name = "")); [done|].
  intros H.
  pose proof (walk_follow maxSymlinks fs (startDir fs name)
                (strings_Split name "/")) as Hf.
  by rewrite H in Hf.
Qed.

(** *** After the key of a name is deleted *)

Lemma walkWith_deleted expF expD fs flw cur elems k :
  k ≠ [] →
  (∀ t d r, expF t d r = Done k →
     expD t d r = Done k ∨ expD t d r = Fails ENOENT) →
  walkWith expF fs false cur elems = Done k →
  walkWith expD (fsDelete fs k) flw cur elems = Done k ∨
  walkWith expD (fsDelete fs k) flw cur elems = Fails ENOENT.
Proof.
  intros Hk0 Hexp. revert cur.
  induction elems as [|c rest IH]; simpl; [by left|]. intros cur H.
  rewrite nodeAt_delete by done.
  destruct (decide (k = cur)) as [|Hcur]; [by right|].
  destruct (nodeAt fs cur) as [[| perm |]|]; try done.
  destruct (decide (c = "")); [by apply IH|].
  destruct (decide (c = ".")); [by apply IH|].
  destruct (decide (c = "..")); [by apply IH|].
  rewrite nodeAt_delete by done.
  destruct (decide (k = cur ++ [c])) as [Hkc|Hkc].
  - destruct rest as [|c' rest]; simpl; [left; by rewrite Hkc|right].
    rewrite nodeAt_delete by done. by rewrite decide_True.
  - destruct (nodeAt fs (cur ++ [c])) as [[| |t]|]; try by apply IH.
    destruct rest as [|c' rest]; simpl in *.
    + by inversion H.
    + rewrite orb_true_r. by apply Hexp.
Qed.

(** The name of a deleted key denotes nothing any more: it is resolved to
    the key, where nothing is, or not at all. *)
Lemma walk_deleted fuel fs flw cur elems k :
  k ≠ [] →
  walk fuel fs false cur elems = Done k →
  walk fuel (fsDelete fs k) flw cur elems = Done k ∨
  walk fuel (fsDelete fs k) flw cur elems = Fails ENOENT.
Proof.
  intros Hk. revert cur elems.
  induction fuel as [|fuel IH]; intros cur elems.
  - rewrite !walk_O. by apply walkWith_deleted.
  - rewrite !walk_S. apply walkWith_deleted; [done|].
    intros t d r. unfold viaLink.
    destruct (decide (t = "")); [done|]. apply IH.
Qed.

Lemma locateFollow_deleted fs name k :
  k ≠ [] → locate fs name = Done k →
  locateFollow (fsDelete fs k) name = Done k ∨
  locateFollow (fsDelete fs k) name = Fails ENOENT.
Proof.
  unfold locate, locateFollow. destruct (decide (name = "")); [done|].
  intros Hk H.
  change (startDir (fsDelete fs k) name) with (startDir fs name).
  by apply walk_deleted.
Qed.

Lemma nodeAt_deleted fs k : k ≠ [] → nodeAt (fsDelete fs k) k = None.
Proof. intros Hk. rewrite nodeAt_delete by done. by rewrite decide_True. Qed.

(** ** Write then read, remove then read *)

Lemma WriteFile_inv fs name data perm fs' :
  os_WriteFile fs name data perm = (None, fs') →
  ∃ kf pm,
    locateFollow fs name = Done kf ∧ kf ≠ [] ∧
    (∀ p, nodeAt fs kf ≠ Some (Dir p)) ∧
    (∀ t, nodeAt fs kf ≠ Some (Symlink t)) ∧
    (nodeAt fs kf = None → pm = perm) ∧
    fs' = fsInsert fs kf (File pm data).
Proof.
  unfold os_WriteFile.
  destruct (locateFollow fs name) as [kf|]; [|done].
  destruct (nodeAt fs kf) as [[p d|p|t]|] eqn:Hkf; try done.
  - intros [= <-]. exists kf, p.
    split; [done|]. split; [by intros ->|].
    split; [intros ? H; by rewrite Hkf in H|].
    split; [intros ? H; by rewrite Hkf in H|].
    split; [intros H; by rewrite Hkf in H|done].
  - destruct (nodeAt fs (parent kf)) as [[| |]|]; try done.
    intros [= <-]. exists kf, perm.
    split; [done|]. split; [by intros ->|].
    split; [intros ? H; by rewrite Hkf in H|].
    split; [intros ? H; by rewrite Hkf in H|].
    by split.
Qed.

Lemma WriteFile_fails fs name data perm e fs' :
  os_WriteFile fs name data perm = (Some e, fs') → fs' = fs.
Proof.
  unfold os_WriteFile.
  destruct (locateFollow fs name) as [kf|]; [|by intros [= _ <-]].
  destruct (nodeAt fs kf) as [[p d|p|t]|]; try by intros [= _ <-].
  destruct (nodeAt fs (parent kf)) as [[| |]|]; by intros [= _ <-].
Qed.

Lemma WriteFile_grows fs name data perm fs' :
  os_WriteFile fs name data perm = (None, fs') → grows fs fs'.
Proof.
  intros H. apply WriteFile_inv in H as (kf & pm & _ & ? & ? & ? & _ & ->).
  by apply grows_insert.
Qed.

Lemma WriteFile_ReadFile fs name data perm fs' :
  os_WriteFile fs name data perm = (None, fs') →
  os_ReadFile fs' name = inl data.
Proof.
  intros H. pose proof (WriteFile_grows _ _ _ _ _ H) as Hg.
  apply WriteFile_inv in H as (kf & pm & Hl & Hkf & _ & _ & _ & ->).
  unfold os_ReadFile. rewrite (grows_locateFollow _ _ _ _ Hg Hl).
  rewrite nodeAt_insert by done. by rewrite decide_True.
Qed.

Lemma Remove_gone fs name fs' :
  os_Remove fs name = (None, fs') →
  ∃ k, locate fs name = Done k ∧ k ≠ [] ∧ fs' = fsDelete fs k.
Proof.
  unfold os_Remove.
  destruct (locate fs name) as [k|]; [|done].
  repeat case_decide; try done.
  destruct k as [|c k]; [done|].
  destruct (tree fs !! (c :: k)) as [[| |]|]; try done.
  - intros [= <-]. by exists (c :: k).
  - destruct (children fs (c :: k)); [|done].
    intros [= <-]. by exists (c :: k).
  - intros [= <-]. by exists (c :: k).
Qed.

Lemma ReadFile_deleted fs name k :
  k ≠ [] → locate fs name = Done k →
  ∃ e, os_ReadFile (fsDelete fs k) name = inr e.
Proof.
  intros Hk Hloc. unfold os_ReadFile.
  destruct (locateFollow_deleted _ _ _ Hk Hloc) as [-> | ->]; [|eauto].
  rewrite nodeAt_deleted by done. eauto.
Qed.

Lemma Stat_deleted fs name k :
  k ≠ [] → locate fs name = Done k →
  os_Stat (fsDelete fs k) name = inr (PathError "stat" name ENOENT).
Proof.
  intros Hk Hloc. unfold os_Stat.
  destruct (locateFollow_deleted _ _ _ Hk Hloc) as [-> | ->]; [|done].
  by rewrite nodeAt_deleted.
Qed.

(** ** The NetConf cache *)

Lemma saveScratchNetConf_Read fs containerID dataDir netconf fs' :
  saveScratchNetConf fs containerID dataDir netconf = (None, fs') →
  ReadScratchNetConf fs' (filepath_Join [dataDir; containerID])
  = (netconf, None).
Proof.
  unfold saveScratchNetConf, ReadScratchNetConf.
  destruct (os_MkdirAll fs dataDir 448) as [[e|] fs1]; [done|].
  destruct (os_WriteFile fs1 _ netconf 384) as [[e|] fs2] eqn:Hw; [done|].
  intros [= <-].
  destruct (Join_Clean [dataDir; containerID]) as [Hj|Hj].
  - rewrite Hj in Hw. done.
  - rewrite Hj. by rewrite (WriteFile_ReadFile _ _ _ _ _ Hw).
Qed.

Lemma SaveNetConf_Read {Conf} (json_Marshal : Conf → list Byte.byte + error)
    fs cid dataDir podIfName conf fs' :
  SaveNetConf json_Marshal fs cid dataDir podIfName conf = (None, fs') →
  ∃ netConfBytes,
    json_Marshal conf = inl netConfBytes ∧
    ReadScratchNetConf fs'
      (filepath_Join [dataDir; strings_Join [cid; podIfName] "-"])
    = (netConfBytes, None).
Proof.
  unfold SaveNetConf.
  destruct (json_Marshal conf) as [netConfBytes|e]; [|done].
  intros H. exists netConfBytes. split; [done|].
  by apply saveScratchNetConf_Read in H.
Qed.

(** C2. A successful SaveNetConf, and so a successful saveScratchNetConf,
    followed by ReadScratchNetConf on the entry path derived from the data
    directory and containerID-podIfName returns exactly the bytes that
    were serialized and written. *)
Theorem SaveNetConf_roundtrip {Conf}
    (json_Marshal : Conf → list Byte.byte + error)
    (fs : FS) (cid dataDir podIfName : string) (conf : Conf) (fs' : FS) :
  SaveNetConf json_Marshal fs cid dataDir podIfName conf = (None, fs') →
  ∃ netConfBytes,
    json_Marshal conf = inl netConfBytes ∧
    saveScratchNetConf fs (cid +:+ "-" +:+ podIfName) dataDir netConfBytes
      = (None, fs') ∧
    ReadScratchNetConf fs'
      (filepath_Join [dataDir; cid +:+ "-" +:+ podIfName])
    = (netConfBytes, None).
Proof.
  intros H. destruct (SaveNetConf_Read _ _ _ _ _ _ _ H) as (b & Hm & Hr).
  exists b. repeat split; [done| |done].
  unfold SaveNetConf in H. by rewrite Hm in H.
Qed.

Lemma SaveNetConf_roundtrip_witness :
  SaveNetConf marshalZ emptyFS "abc" "/var/lib/cni" "net1" 42
    = (None, cacheFS) ∧
  ReadScratchNetConf cacheFS "/var/lib/cni/abc-net1" = (bytesOf "42", None).
Proof.
  assert (SaveNetConf marshalZ emptyFS "abc" "/var/lib/cni" "net1" 42
          = (None, cacheFS)) as H by (by vm_compute).
  split; [exact H|].
  destruct (SaveNetConf_roundtrip marshalZ _ _ _ _ _ _ H) as (b & Hm & _ & Hr).
  inversion Hm; subst. exact Hr.
Defined.

(** C10. The cache key is not injective: two different pairs of
    container ID and interface name can give the same key, and then both
    saves write the same file, so after the second save a read keyed by
    either pair returns the second payload. *)
Theorem SaveNetConf_key_collision :
  (∃ cid1 if1 cid2 if2 : string,
     (cid1, if1) ≠ (cid2, if2) ∧
     strings_Join [cid1; if1] "-" = strings_Join [cid2; if2] "-") ∧
  (∀ (Conf : Type) (json_Marshal : Conf → list Byte.byte + error)
     (fs fs1 fs2 : FS) (dataDir cid1 if1 cid2 if2 : string)
     (conf1 conf2 : Conf),
     (cid1, if1) ≠ (cid2, if2) →
     strings_Join [cid1; if1] "-" = strings_Join [cid2; if2] "-" →
     SaveNetConf json_Marshal fs cid1 dataDir if1 conf1 = (None, fs1) →
     SaveNetConf json_Marshal fs1 cid2 dataDir if2 conf2 = (None, fs2) →
     ∃ bytes2,
       json_Marshal conf2 = inl bytes2 ∧
       filepath_Join [dataDir; strings_Join [cid1; if1] "-"]
       = filepath_Join [dataDir; strings_Join [cid2; if2] "-"] ∧
       ReadScratchNetConf fs2
         (filepath_Join [dataDir; strings_Join [cid1; if1] "-"])
       = (bytes2, None) ∧
       ReadScratchNetConf fs2
         (filepath_Join [dataDir; strings_Join [cid2; if2] "-"])
       = (bytes2, None)).
Proof.
  split.
  - exists "a-b", "c", "a", "b-c". by split.
  - intros Conf json_Marshal fs fs1 fs2 dataDir cid1 if1 cid2 if2 conf1 conf2
      Hne Hkey _ H2.
    destruct (SaveNetConf_Read _ _ _ _ _ _ _ H2) as (b & Hm & Hr).
    exists b. rewrite Hkey. by repeat split.
Qed.

Lemma SaveNetConf_key_collision_witness :
  SaveNetConf marshalZ emptyFS "a-b" "/var/lib/cni" "c" 1
    = (None, collisionFS1) ∧
  SaveNetConf marshalZ collisionFS1 "a" "/var/lib/cni" "b-c" 2
    = (None, collisionFS2) ∧
  ReadScratchNetConf collisionFS2 "/var/lib/cni/a-b-c" = (bytesOf "2", None).
Proof.
  assert (SaveNetConf marshalZ emptyFS "a-b" "/var/lib/cni" "c" 1
          = (None, collisionFS1)) as H1 by (by vm_compute).
  assert (SaveNetConf marshalZ collisionFS1 "a" "/var/lib/cni" "b-c" 2
          = (None, collisionFS2)) as H2 by (by vm_compute).
  split; [exact H1|]. split; [exact H2|].
  destruct (proj2 SaveNetConf_key_collision Z marshalZ emptyFS
              collisionFS1 collisionFS2
              "/var/lib/cni" "a-b" "c" "a" "b-c" 1 2) as (b & Hm & _ & Hr & _);
    [done|done|exact H1|exact H2|].
  inversion Hm; subst. exact Hr.
Defined.

(** A name that ends in a dot or dot-dot element denotes a directory. *)
Lemma parent_isDir fs cur :
  wfFS fs → isDirAt fs cur = true → isDirAt fs (parent cur) = true.
Proof.
  intros Hwf Hcur. destruct cur as [|c cur]; [done|].
  unfold isDirAt in Hcur. simpl in Hcur.
  destruct (tree fs !! (c :: cur)) as [n|] eqn:Hk; [|done].
  by apply (Hwf _ _ Hk).
Qed.

Lemma walkWith_empties expand fs flw cur elems k :
  filter (λ c, c ≠ "") elems = [] →
  walkWith expand fs flw cur elems = Done k → k = cur.
Proof.
  revert cur. induction elems as [|e elems IH]; simpl; intros cur Hf H.
  - by inversion H.
  - rewrite filter_cons in Hf. destruct (decide (e ≠ "")) as [|He]; [done|].
    destruct (nodeAt fs cur) as [[| |]|]; try done.
    destruct (decide (e = "")); [by apply IH|]. by destruct He.
Qed.

Lemma walkWith_dots expand fs flw cur elems k c :
  wfFS fs →
  (∀ t d r k',
     expand t d r = Done k' →
     last (filter (λ c, c ≠ "") r) = Some c → isDirAt fs k' = true) →
  c = "." ∨ c = ".." →
  walkWith expand fs flw cur elems = Done k →
  last (filter (λ c, c ≠ "") elems) = Some c →
  isDirAt fs k = true.
Proof.
  intros Hwf Hexp Hc. revert cur.
  induction elems as [|e elems IH]; simpl; intros cur H Hlast; [done|].
  destruct (nodeAt fs cur) as [[|perm|]|] eqn:Hcur; try done.
  assert (isDirAt fs cur = true) as Hdir by (unfold isDirAt; by rewrite Hcur).
  rewrite filter_cons in Hlast.
  destruct (filter (λ c, c ≠ "") elems) as [|x l] eqn:Hf.
  - destruct (decide (e ≠ "")) as [He|]; [|done].
    simpl in Hlast. inversion Hlast; subst.
    rewrite decide_False in H by done.
    destruct Hc as [-> | ->].
    + rewrite decide_True in H by done.
      by rewrite (walkWith_empties _ _ _ _ _ _ Hf H).
    + rewrite decide_False, decide_True in H by done.
      rewrite (walkWith_empties _ _ _ _ _ _ Hf H). by apply parent_isDir.
  - assert (last (x :: l) = Some c) as Hlast'.
    { destruct (decide (e ≠ "")); [|done]. by rewrite last_cons_cons in Hlast. }
    destruct (decide (e = "")); [by eapply IH|].
    destruct (decide (e = ".")); [by eapply IH|].
    destruct (decide (e = "..")); [by eapply IH|].
    destruct (nodeAt fs (cur ++ [e])) as [[| |t]|]; try by eapply IH.
    destruct (flw || bool_decide (elems ≠ [])); [|by eapply IH].
    eapply Hexp; [done|]. by rewrite Hf.
Qed.

Lemma walk_dots fuel fs flw cur elems k c :
  wfFS fs → c = "." ∨ c = ".." →
  walk fuel fs flw cur elems = Done k →
  last (filter (λ c, c ≠ "") elems) = Some c →
  isDirAt fs k = true.
Proof.
  intros Hwf Hc. revert cur elems k.
  induction fuel as [|fuel IH]; intros cur elems k.
  - rewrite walk_O. by apply walkWith_dots.
  - rewrite walk_S. apply walkWith_dots; [done| |done].
    intros t d r k'. unfold viaLink.
    destruct (decide (t = "")); [done|]. intros H Hl.
    apply IH in H; [done|].
    rewrite filter_app. destruct (filter _ r) as [|x l]; [done|].
    by rewrite last_app, Hl.
Qed.

Lemma Base_dots fs name k :
  wfFS fs → locate fs name = Done k →
  filepath_Base name = "." ∨ filepath_Base name = ".." →
  isDirAt fs k = true.
Proof.
  unfold locate, filepath_Base. intros Hwf.
  destruct (decide (name = "")); [done|].
  intros Hw Hb.
  destruct (filter (λ c, c ≠ "") (strings_Split name "/")) as [|x l] eqn:Hf.
  { by destruct Hb. }
  destruct (last (x :: l)) as [c|] eqn:Hl; [|by destruct Hb].
  simpl in Hb. eapply walk_dots; eauto.
  by rewrite Hf.
Qed.

Lemma Remove_file fs name k perm data :
  wfFS fs → locate fs name = Done k →
  nodeAt fs k = Some (File perm data) →
  os_Remove fs name = (None, fsDelete fs k).
Proof.
  intros Hwf Hloc Hk. unfold os_Remove. rewrite Hloc.
  assert (isDirAt fs k = false) as Hnd by (unfold isDirAt; by rewrite Hk).
  destruct (decide (filepath_Base name = ".")) as [Hb|].
  { rewrite (Base_dots fs name k) in Hnd by auto. done. }
  destruct (decide (filepath_Base name = "..")) as [Hb|].
  { rewrite (Base_dots fs name k) in Hnd by auto. done. }
  destruct k as [|c k]; [done|]. simpl in Hk. by rewrite Hk.
Qed.

Lemma Stat_file fs name k perm data :
  locate fs name = Done k →
  nodeAt fs k = Some (File perm data) →
  ∃ fi, os_Stat fs name = inl fi.
Proof.
  intros Hloc Hk. unfold os_Stat.
  rewrite (locate_follow _ _ _ Hloc) by (intros t; by rewrite Hk).
  rewrite Hk. eauto.
Qed.

Lemma Stat_missing fs name k :
  locate fs name = Done k → nodeAt fs k = None →
  os_Stat fs name = inr (PathError "stat" name ENOENT).
Proof.
  intros Hloc Hk. unfold os_Stat.
  rewrite (locate_follow _ _ _ Hloc) by (intros t; by rewrite Hk).
  by rewrite Hk.
Qed.

Lemma ReadFile_Stat fs name data :
  os_ReadFile fs name = inl data → ∃ fi, os_Stat fs name = inl fi.
Proof.
  unfold os_ReadFile, os_Stat.
  destruct (locateFollow fs name) as [k|]; [|done].
  destruct (nodeAt fs k) as [n|]; [|done]. eauto.
Qed.

(** The claim C1 as it is written fails for a path that is not in cleaned
    form: ReadScratchNetConf cleans the path it is given, CleanCachedNetConf
    takes it as it is.  With no directory nope, the entry is there for the
    one and absent for the other: the clear returns no error, removes
    nothing, and the entry is read as before. *)
Lemma CleanCachedNetConf_unclean_path :
  ReadScratchNetConf cacheFS "/var/lib/cni/nope/../abc-net1"
    = (bytesOf "42", None) ∧
  CleanCachedNetConf cacheFS "/var/lib/cni/nope/../abc-net1"
    = (None, cacheFS) ∧
  ReadScratchNetConf
    (CleanCachedNetConf cacheFS "/var/lib/cni/nope/../abc-net1").2
    "/var/lib/cni/nope/../abc-net1"
    = (bytesOf "42", None).
Proof. repeat split; by vm_compute. Qed.

(** So it is with a link in the middle of the path: the clear removes the
    entry beside the target of the link, and the entry beside the link is
    read as before. *)
Example CleanCachedNetConf_through_link :
  (CleanCachedNetConf crossFS "/d/link/../e").1 = None ∧
  os_ReadFile (CleanCachedNetConf crossFS "/d/link/../e").2 "/o/e"
    = inr (PathError "open" "/o/e" ENOENT) ∧
  ReadScratchNetConf (CleanCachedNetConf crossFS "/d/link/../e").2
    "/d/link/../e" = (bytesOf "beside the link", None).
Proof. repeat split; by vm_compute. Qed.

(** C1, amended. For an entry path in cleaned form, which filepath.Clean
    leaves as it is and which every path SaveNetConf derives is:
    CleanCachedNetConf returns no error when the entry does not exist
    (os.Stat reports that it is absent, as it does whenever the directory
    of the entry is there and the entry is not); an entry that can be read
    passes the test of existence, and when no error is returned it has
    been removed, a ReadScratchNetConf on the same path fails and a second
    CleanCachedNetConf is a no-op; an entry that is a regular file is
    always removed; and every other failure of Stat or Remove is returned
    as an error. *)
Theorem CleanCachedNetConf_clears (fs : FS) (cRefPath : string) :
  filepath_Clean cRefPath = cRefPath →
  (∀ err, os_Stat fs cRefPath = inr err → os_IsNotExist err = true →
     CleanCachedNetConf fs cRefPath = (None, fs)) ∧
  (∀ k, locate fs cRefPath = Done k → nodeAt fs k = None →
     CleanCachedNetConf fs cRefPath = (None, fs)) ∧
  (∀ data fs', ReadScratchNetConf fs cRefPath = (data, None) →
     CleanCachedNetConf fs cRefPath = (None, fs') →
     isErr (ReadScratchNetConf fs' cRefPath)) ∧
  (∀ k perm data, wfFS fs → locate fs cRefPath = Done k →
     nodeAt fs k = Some (File perm data) →
     CleanCachedNetConf fs cRefPath = (None, fsDelete fs k)) ∧
  (∀ fi fs', os_Stat fs cRefPath = inl fi →
     CleanCachedNetConf fs cRefPath = (None, fs') →
     os_Remove fs cRefPath = (None, fs') ∧
     isErr (ReadScratchNetConf fs' cRefPath) ∧
     CleanCachedNetConf fs' cRefPath = (None, fs')) ∧
  (∀ err, os_Stat fs cRefPath = inr err → os_IsNotExist err = false →
     ∃ e, CleanCachedNetConf fs cRefPath = (Some e, fs)) ∧
  (∀ fi err fs', os_Stat fs cRefPath = inl fi →
     os_Remove fs cRefPath = (Some err, fs') →
     ∃ e, CleanCachedNetConf fs cRefPath = (Some e, fs')).
Proof.
  intros Hclean.
  assert (∀ fi fs', os_Stat fs cRefPath = inl fi →
            CleanCachedNetConf fs cRefPath = (None, fs') →
            os_Remove fs cRefPath = (None, fs') ∧
            isErr (ReadScratchNetConf fs' cRefPath) ∧
            CleanCachedNetConf fs' cRefPath = (None, fs')) as Hgone.
  { intros fi fs' Hs Hc. unfold CleanCachedNetConf in Hc. rewrite Hs in Hc.
    destruct (os_Remove fs cRefPath) as [[e|] fs1] eqn:Hr; [done|].
    inversion Hc; subst. split; [done|].
    destruct (Remove_gone _ _ _ Hr) as (k & Hloc & Hk & ->).
    split.
    - unfold isErr, ReadScratchNetConf. rewrite Hclean.
      by destruct (ReadFile_deleted _ _ _ Hk Hloc) as [e ->].
    - unfold CleanCachedNetConf. by rewrite (Stat_deleted _ _ _ Hk Hloc). }
  repeat apply conj.
  - intros err Hs He. unfold CleanCachedNetConf. by rewrite Hs, He.
  - intros k Hloc Hk. unfold CleanCachedNetConf.
    by rewrite (Stat_missing _ _ _ Hloc Hk).
  - intros data fs' Hread Hc.
    unfold ReadScratchNetConf in Hread. rewrite Hclean in Hread.
    destruct (os_ReadFile fs cRefPath) as [d|] eqn:Hrf; [|done].
    destruct (ReadFile_Stat _ _ _ Hrf) as [fi Hs].
    by destruct (Hgone fi fs' Hs Hc) as (_ & He & _).
  - intros k perm data Hwf Hloc Hk. unfold CleanCachedNetConf.
    destruct (Stat_file _ _ _ _ _ Hloc Hk) as [fi ->].
    by rewrite (Remove_file _ _ _ _ _ Hwf Hloc Hk).
  - exact Hgone.
  - intros err Hs He. unfold CleanCachedNetConf. rewrite Hs, He. eauto.
  - intros fi err fs' Hs Hr. unfold CleanCachedNetConf. rewrite Hs, Hr. eauto.
Qed.

Lemma CleanCachedNetConf_clears_witness :
  ∃ fs',
    CleanCachedNetConf cacheFS "/var/lib/cni/abc-net1" = (None, fs') ∧
    isErr (ReadScratchNetConf fs' "/var/lib/cni/abc-net1") ∧
    CleanCachedNetConf fs' "/var/lib/cni/abc-net1" = (None, fs').
Proof.
  destruct (CleanCachedNetConf_clears cacheFS "/var/lib/cni/abc-net1"
              ltac:(by vm_compute))
    as (_ & _ & _ & Hfile & Hgone & _).
  assert (wfFS cacheFS) as Hwf.
  { apply (bool_decide_unpack _). by vm_compute. }
  pose proof (Hfile ["var"; "lib"; "cni"; "abc-net1"] 384 (bytesOf "42") Hwf
                ltac:(by vm_compute) ltac:(by vm_compute)) as Hc.
  exists (fsDelete cacheFS ["var"; "lib"; "cni"; "abc-net1"]).
  split; [exact Hc|].
  destruct (Hgone (mkFileInfo "abc-net1" 384) _ ltac:(by vm_compute) Hc)
    as (_ & Herr & Hagain).
  by split.
Defined.

(** ** Validation *)

(** C4. IsValidMACAddress is true exactly for the addresses of six bytes
    other than 00:00:00:00:00:00 and FF:FF:FF:FF:FF:FF; it is false for
    every address shorter or longer than six bytes. *)
Theorem IsValidMACAddress_iff (addr : list Byte.byte) :
  (IsValidMACAddress addr = true ↔
     length addr = 6%nat ∧ addr ≠ zeroMAC ∧ addr ≠ broadcastMAC) ∧
  (IsValidMACAddress addr = false ↔
     length addr ≠ 6%nat ∨ addr = zeroMAC ∨ addr = broadcastMAC).
Proof.
  unfold IsValidMACAddress, invalidMACAddresses, bytes_Equal.
  change [Byte.x00; Byte.x00; Byte.x00; Byte.x00; Byte.x00; Byte.x00]
    with zeroMAC.
  change [Byte.xff; Byte.xff; Byte.xff; Byte.xff; Byte.xff; Byte.xff]
    with broadcastMAC.
  destruct (decide (length addr = 6%nat)) as [Hlen|Hlen]; simpl.
  - destruct (bool_decide_reflect (addr = zeroMAC)) as [Hz|Hz];
      destruct (bool_decide_reflect (addr = broadcastMAC)) as [Hb|Hb];
      intuition congruence.
  - intuition congruence.
Qed.

(** ** Retry *)

Section RetryFacts.

Context {St : Type}.
Variable time_Sleep : Z → St → St.
Variable sleep : Z.
Variable f : St → option error * St.

Lemma stateBefore_shift i s :
  stateBefore time_Sleep sleep f (S i) s
  = stateBefore time_Sleep sleep f i (time_Sleep sleep (f s).2).
Proof.
  induction i as [|i IH]; [done|].
  change (stateBefore time_Sleep sleep f (S (S i)) s)
    with (time_Sleep sleep (f (stateBefore time_Sleep sleep f (S i) s)).2).
  by rewrite IH.
Qed.

Lemma errorOf_shift i s :
  errorOf time_Sleep sleep f (S i) s
  = errorOf time_Sleep sleep f i (time_Sleep sleep (f s).2).
Proof. unfold errorOf. by rewrite stateBefore_shift. Qed.

Lemma counted_step c s :
  counted f (c, s) = ((f s).1, (S c, (f s).2)).
Proof. unfold counted. simpl. by destruct (f s). Qed.

Lemma Retry_loop_step n err (cs : nat * St) :
  Retry_loop (countedSleep time_Sleep) (S n) sleep (counted f) err cs
  = match (f cs.2).1 with
    | None => (None, (S cs.1, (f cs.2).2))
    | Some e =>
        Retry_loop (countedSleep time_Sleep) n sleep (counted f) (Some e)
          (S cs.1, time_Sleep sleep (f cs.2).2)
    end.
Proof.
  destruct cs as [c s]. simpl. rewrite counted_step. simpl.
  by destruct (f s) as [[e|] s'].
Qed.

(** The counter never changes what the loop computes. *)
Lemma Retry_loop_counted n err c s :
  Retry_loop time_Sleep n sleep f err s
  = ((Retry_loop (countedSleep time_Sleep) n sleep (counted f) err (c, s)).1,
     (Retry_loop (countedSleep time_Sleep) n sleep (counted f) err (c, s)).2.2).
Proof.
  revert err c s. induction n as [|n IH]; intros err c s; [done|].
  rewrite Retry_loop_step. simpl.
  destruct (f s) as [[e|] s']; simpl; [apply IH|done].
Qed.

Lemma Retry_loop_calls n err c s :
  ((Retry_loop (countedSleep time_Sleep) n sleep (counted f) err (c, s)).2.1
   ≤ c + n)%nat.
Proof.
  revert err c s. induction n as [|n IH]; intros err c s.
  - simpl. lia.
  - rewrite Retry_loop_step. simpl.
    destruct (f s) as [[e|] s']; simpl; [|lia].
    specialize (IH (Some e) (S c) (time_Sleep sleep s')). lia.
Qed.

Lemma Retry_loop_success n err c s k :
  (k < n)%nat →
  (∀ i, (i < k)%nat → errorOf time_Sleep sleep f i s ≠ None) →
  errorOf time_Sleep sleep f k s = None →
  Retry_loop (countedSleep time_Sleep) n sleep (counted f) err (c, s)
  = (None, ((c + S k)%nat, (f (stateBefore time_Sleep sleep f k s)).2)).
Proof.
  revert n err c s. induction k as [|k IH]; intros n err c s Hk Hfail Hok.
  - destruct n as [|n]; [lia|]. rewrite Retry_loop_step. simpl.
    unfold errorOf in Hok. simpl in Hok. rewrite Hok.
    do 2 f_equal. lia.
  - destruct n as [|n]; [lia|].
    rewrite stateBefore_shift, Retry_loop_step.
    pose proof (Hfail 0%nat ltac:(lia)) as H0.
    unfold errorOf in H0. simpl in H0.
    rewrite errorOf_shift in Hok. simpl.
    destruct (f s) as [[e|] s'] eqn:Hfs; [|done]. simpl in *.
    rewrite (IH n (Some e) (S c) (time_Sleep sleep s')); [| lia | | done].
    + do 2 f_equal. lia.
    + intros i Hi. specialize (Hfail (S i) ltac:(lia)).
      by rewrite errorOf_shift, Hfs in Hfail.
Qed.

Lemma Retry_loop_exhausted n err c s :
  (∀ i, (i < n)%nat → errorOf time_Sleep sleep f i s ≠ None) →
  Retry_loop (countedSleep time_Sleep) n sleep (counted f) err (c, s)
  = (match n with
     | O => err
     | S n' => errorOf time_Sleep sleep f n' s
     end,
     ((c + n)%nat, stateBefore time_Sleep sleep f n s)).
Proof.
  revert err c s. induction n as [|n IH]; intros err c s Hfail.
  - simpl. do 2 f_equal. lia.
  - rewrite stateBefore_shift, Retry_loop_step. simpl.
    pose proof (Hfail 0%nat ltac:(lia)) as H0.
    unfold errorOf in H0. simpl in H0.
    destruct (f s) as [[e|] s'] eqn:Hfs; [|done]. simpl.
    rewrite IH.
    + f_equal; [|f_equal; lia].
      destruct n as [|n]; [|by rewrite errorOf_shift, Hfs].
      unfold errorOf. simpl. by rewrite Hfs.
    + intros i Hi. specialize (Hfail (S i) ltac:(lia)).
      by rewrite errorOf_shift, Hfs in Hfail.
Qed.

End RetryFacts.

(** C7. With a positive retry count n, Retry invokes the operation at
    most n times; when invocation k+1 is the first to succeed, Retry
    returns nil right after it, the operation having run exactly k+1
    times; when all n invocations fail, Retry returns the error of the
    n-th one, the operation having run exactly n times. *)
Theorem Retry_attempts {St : Type} (time_Sleep : Z → St → St)
    (retries sleep : Z) (f : St → option error * St) (s : St) :
  0 < retries →
  let n := Z.to_nat retries in
  let r := Retry (countedSleep time_Sleep) retries sleep (counted f)
             (0%nat, s) in
  Retry time_Sleep retries sleep f s = (r.1, r.2.2) ∧
  (r.2.1 ≤ n)%nat ∧
  (∀ k, (k < n)%nat →
     (∀ i, (i < k)%nat → errorOf time_Sleep sleep f i s ≠ None) →
     errorOf time_Sleep sleep f k s = None →
     r = (None, (S k, (f (stateBefore time_Sleep sleep f k s)).2))) ∧
  ((∀ i, (i < n)%nat → errorOf time_Sleep sleep f i s ≠ None) →
     r.1 = errorOf time_Sleep sleep f (n - 1) s ∧ r.1 ≠ None ∧ r.2.1 = n).
Proof.
  intros Hpos n r. subst r. unfold Retry. fold n.
  assert (0 < n)%nat as Hn by (unfold n; lia).
  repeat apply conj.
  - apply Retry_loop_counted.
  - apply (Retry_loop_calls time_Sleep sleep f n None 0 s).
  - intros k Hk Hfail Hok.
    by rewrite (Retry_loop_success time_Sleep sleep f n None 0 s k).
  - intros Hfail. rewrite Retry_loop_exhausted by done.
    destruct n as [|n']; [lia|]. simpl.
    replace (n' - 0)%nat with n' by lia.
    repeat split. apply Hfail. lia.
Qed.

Lemma Retry_attempts_witness :
  Retry (countedSleep noSleep) 3 100 (counted failsUntilZero) (0%nat, 2%nat)
    = (None, (3%nat, 0%nat)) ∧
  (Retry (countedSleep noSleep) 3 100 (counted failsUntilZero)
     (0%nat, 5%nat)).1
    = Some (Errorf "not yet: %d" [AInt 3]).
Proof.
  split.
  - destruct (Retry_attempts noSleep 3 100 failsUntilZero 2%nat ltac:(lia))
      as (_ & _ & Hok & _).
    apply (Hok 2%nat); [simpl; lia| |done].
    intros i Hi.
    destruct i as [|[|i]]; [done|done|lia].
  - destruct (Retry_attempts noSleep 3 100 failsUntilZero 5%nat ltac:(lia))
      as (_ & _ & _ & Hall).
    destruct Hall as (-> & _).
    + intros i Hi. simpl in Hi.
      destruct i as [|[|[|i]]]; [done|done|done|lia].
    + done.
Defined.

(** C8. With a retry count of zero or less, Retry does not invoke the
    operation at all and returns a nil error. *)
Theorem Retry_nonpositive {St : Type} (time_Sleep : Z → St → St)
    (retries sleep : Z) (f : St → option error * St) (s : St) :
  retries ≤ 0 →
  Retry (countedSleep time_Sleep) retries sleep (counted f) (0%nat, s)
    = (None, (0%nat, s)) ∧
  Retry time_Sleep retries sleep f s = (None, s).
Proof.
  intros Hle. unfold Retry.
  replace (Z.to_nat retries) with 0%nat by lia. done.
Qed.

Lemma Retry_nonpositive_witness :
  Retry (countedSleep noSleep) (-1) 100 (counted failsUntilZero)
    (0%nat, 5%nat) = (None, (0%nat, 5%nat)) ∧
  Retry noSleep 0 100 failsUntilZero 5%nat = (None, 5%nat).
Proof.
  split.
  - apply (Retry_nonpositive noSleep (-1) 100 failsUntilZero 5%nat). lia.
  - apply (Retry_nonpositive noSleep 0 100 failsUntilZero 5%nat). lia.
Defined.

(** ** The namespace path *)

(** C9. GetContainerNetDevFromPci panics, on the slice of the split
    namespace path, exactly when the path has fewer than two slashes, and
    returns (a list or an error) exactly when the path splits into three
    elements or more. *)
Theorem GetContainerNetDevFromPci_panics (fs : FS)
    (netNSPath pciAddress : string) :
  ((∃ msg, GetContainerNetDevFromPci fs netNSPath pciAddress = Panics msg)
   ↔ (strings_Count netNSPath "/" < 2)%nat) ∧
  ((∃ r, GetContainerNetDevFromPci fs netNSPath pciAddress = Returns r)
   ↔ (3 ≤ length (strings_Split netNSPath "/"))%nat).
Proof.
  unfold GetContainerNetDevFromPci, sliceExpr.
  pose proof (Split_length netNSPath "/") as Hlen.
  destruct (decide (1 ≤ 3 ∧ 3 ≤ length (strings_Split netNSPath "/"))%nat)
    as [[_ H]|H].
  - split; split.
    + by intros [msg ?].
    + lia.
    + done.
    + eauto.
  - split; split.
    + lia.
    + eauto.
    + by intros [r ?].
    + lia.
Qed.

Lemma GetContainerNetDevFromPci_examples :
  GetContainerNetDevFromPci sysfs "" "0000:01:00.2"
    = Panics "slice bounds out of range" ∧
  GetContainerNetDevFromPci sysfs "/proc" "0000:01:00.2"
    = Panics "slice bounds out of range" ∧
  ∃ r, GetContainerNetDevFromPci sysfs "/proc/12/ns/net" "0000:01:00.2"
       = Returns r.
Proof. repeat split. by eexists. Qed.

(** ** The sysfs resolver *)

Lemma Readlink_Lstat fs name target :
  os_Readlink fs name = inl target →
  ∃ fi, os_Lstat fs name = inl fi ∧ (Z.land (Mode fi) ModeSymlink =? 0) = false.
Proof.
  unfold os_Readlink, os_Lstat.
  destruct (locate fs name) as [k|]; [|done].
  destruct (nodeAt fs k) as [[| |t]|]; try done.
  intros _. by eexists.
Qed.

Lemma GetPciAddress_ok fs ifName vf addr :
  GetPciAddress fs ifName vf = (addr, None) ↔
  ∃ fi pciinfo,
    os_Lstat fs (vfDirOf ifName vf) = inl fi ∧
    os_Readlink fs (vfDirOf ifName vf) = inl pciinfo ∧
    filepath_Base pciinfo = addr.
Proof.
  unfold GetPciAddress. split.
  - destruct (os_Lstat fs _) as [fi|]; [|done].
    destruct (Z.land (Mode fi) ModeSymlink =? 0); [done|].
    destruct (os_Readlink fs _) as [pciinfo|]; [|done].
    intros [= <-]. by exists fi, pciinfo.
  - intros (fi & pciinfo & Hl & Hr & <-).
    destruct (Readlink_Lstat _ _ _ Hr) as (fi' & Hl' & Hm).
    rewrite Hl', Hm, Hr. done.
Qed.

Lemma GetVfid_loop_finds fs addr pfName n vf i :
  vf ≤ i < vf + Z.of_nat n →
  GetPciAddress fs pfName i = (addr, None) →
  (∀ j a, vf ≤ j < i → GetPciAddress fs pfName j = (a, None) → a ≠ addr) →
  GetVfid_loop fs addr pfName n vf = Some i.
Proof.
  revert vf. induction n as [|n IH]; intros vf Hi Hat Hbefore; [lia|].
  simpl.
  destruct (decide (vf = i)) as [->|Hne].
  - apply GetPciAddress_ok in Hat as (fi & pciinfo & -> & -> & Hb).
    by rewrite decide_True.
  - assert (GetVfid_loop fs addr pfName n (vf + 1) = Some i) as Hrest.
    { apply IH; [lia|done|]. intros j a Hj. apply Hbefore. lia. }
    destruct (os_Lstat fs (vfDirOf pfName vf)) as [fi|] eqn:Hl; [|done].
    destruct (os_Readlink fs (vfDirOf pfName vf)) as [pciinfo|] eqn:Hr;
      [|done].
    destruct (decide (filepath_Base pciinfo = addr)) as [Hb|]; [|done].
    exfalso. apply (Hbefore vf addr); [lia| |done].
    apply GetPciAddress_ok. by exists fi, pciinfo.
Qed.

(** C3. When sriov_numvfs gives N, the index i lies in [0, N), the link
    virtfn<i> is there, and no other virtfn link of the PF has a target
    with the same basename, GetPciAddress gives that basename for i and
    GetVfid, given it, finds i. *)
Theorem GetVfid_GetPciAddress (fs : FS) (pfName : string) (N i : Z)
    (target : string) :
  GetSriovNumVfs fs pfName = (N, None) →
  0 ≤ i < N →
  os_Readlink fs (vfDirOf pfName i) = inl target →
  (∀ j target', 0 ≤ j < N → j ≠ i →
     os_Readlink fs (vfDirOf pfName j) = inl target' →
     filepath_Base target' ≠ filepath_Base target) →
  GetPciAddress fs pfName i = (filepath_Base target, None) ∧
  GetVfid fs (GetPciAddress fs pfName i).1 pfName = (i, None).
Proof.
  intros HN Hi Hlink Hdistinct.
  assert (GetPciAddress fs pfName i = (filepath_Base target, None)) as Hat.
  { apply GetPciAddress_ok.
    destruct (Readlink_Lstat _ _ _ Hlink) as (fi & Hl & _).
    by exists fi, target. }
  split; [done|]. rewrite Hat. simpl.
  unfold GetVfid. rewrite HN.
  rewrite (GetVfid_loop_finds fs _ pfName (Z.to_nat N) 0 i); [done|lia|done|].
  intros j a Hj Hja.
  apply GetPciAddress_ok in Hja as (fi & t' & _ & Hr & <-).
  apply (Hdistinct j t'); [lia|lia|done].
Qed.

Lemma GetVfid_GetPciAddress_witness :
  GetPciAddress sysfs "eth0" 2 = ("0000:01:00.2", None) ∧
  GetVfid sysfs "0000:01:00.2" "eth0" = (2, None).
Proof.
  apply (GetVfid_GetPciAddress sysfs "eth0" 4 2 "../0000:01:00.2").
  - by vm_compute.
  - lia.
  - by vm_compute.
  - intros j t' Hj Hne Hj'.
    assert (j = 0 ∨ j = 1 ∨ j = 3) as [-> | [-> | ->]] by lia;
      vm_compute in Hj'; by inversion Hj'.
Defined.

(** ** Atoi *)

Lemma digitVal_spec (c : ascii) (d : Z) :
  digitVal c = Some d ↔
  isDigit c = true ∧ d = Z.of_nat (Ascii.nat_of_ascii c) - 48.
Proof.
  unfold digitVal. destruct (isDigit c).
  - split; [by intros [= <-]|by intros [_ ->]].
  - split; [done|by intros [? _]].
Qed.

Lemma parseDigits_spec (acc : Z) (s : string) (n : Z) :
  parseDigits acc s = Some n ↔ allDigits s = true ∧ n = digitsValue acc s.
Proof.
  revert acc. induction s as [|c s IH]; intros acc; simpl.
  - split; [by intros [= <-]|by intros [_ ->]].
  - destruct (digitVal c) as [d|] eqn:Hd.
    + apply digitVal_spec in Hd as [Hc ->]. rewrite Hc. simpl. apply IH.
    + split; [done|]. intros [Hall _].
      apply andb_true_iff in Hall as [Hc _].
      assert (digitVal c = Some (Z.of_nat (Ascii.nat_of_ascii c) - 48)) as Hd'
        by (by apply digitVal_spec).
      by rewrite Hd in Hd'.
Qed.

Lemma allDigits_head (c : ascii) (s : string) :
  allDigits (String c s) = true → c ≠ "-"%char ∧ c ≠ "+"%char.
Proof.
  simpl. intros H. apply andb_true_iff in H as [Hc _].
  split; intros ->; done.
Qed.

Lemma Atoi_digits (neg : bool) (body s : string) :
  body ≠ "" → allDigits body = true →
  let v := if neg then - digitsValue 0 body else digitsValue 0 body in
  match body with
  | EmptyString => (0, Some (NumError "Atoi" s ErrSyntax))
  | _ =>
      match parseDigits 0 body with
      | None => (0, Some (NumError "Atoi" s ErrSyntax))
      | Some n =>
          let v := if neg then - n else n in
          if v <? intMin then (intMin, Some (NumError "Atoi" s ErrRange))
          else if intMax <? v then (intMax, Some (NumError "Atoi" s ErrRange))
          else (v, None)
      end
  end
  = if v <? intMin then (intMin, Some (NumError "Atoi" s ErrRange))
    else if intMax <? v then (intMax, Some (NumError "Atoi" s ErrRange))
    else (v, None).
Proof.
  intros Hne Hall v.
  assert (parseDigits 0 body = Some (digitsValue 0 body)) as Hp
    by (by apply parseDigits_spec).
  destruct body; [done|]. by rewrite Hp.
Qed.

(** Atoi succeeds on the decimal numerals that fit an int, and on nothing
    else. *)
Lemma Atoi_ok (s : string) (v : Z) :
  strconv_Atoi s = (v, None) ↔
  signedDecimal s v ∧ intMin ≤ v ≤ intMax.
Proof.
  split.
  - unfold strconv_Atoi.
    assert (∀ (neg : bool) (body : string),
      match body with
      | EmptyString => (0, Some (NumError "Atoi" s ErrSyntax))
      | _ =>
          match parseDigits 0 body with
          | None => (0, Some (NumError "Atoi" s ErrSyntax))
          | Some n =>
              let v := if neg then - n else n in
              if v <? intMin then (intMin, Some (NumError "Atoi" s ErrRange))
              else if intMax <? v
                   then (intMax, Some (NumError "Atoi" s ErrRange))
              else (v, None)
          end
      end = (v, None) →
      body ≠ "" ∧ allDigits body = true ∧
      v = (if neg then - digitsValue 0 body else digitsValue 0 body) ∧
      intMin ≤ v ≤ intMax) as Hbody.
    { intros neg body H.
      destruct body as [|c b]; [done|].
      destruct (parseDigits 0 (String c b)) as [n|] eqn:Hp; [|done].
      apply parseDigits_spec in Hp as [Hall ->].
      cbv zeta in H.
      destruct (Z.ltb_spec (if neg then - digitsValue 0 (String c b)
                            else digitsValue 0 (String c b)) intMin);
        [done|].
      destruct (Z.ltb_spec intMax (if neg then - digitsValue 0 (String c b)
                                   else digitsValue 0 (String c b)));
        [done|].
      inversion H; subst. repeat split; try done; lia. }
    destruct s as [|c r].
    + intros H. by destruct (Hbody false "" H).
    + destruct (decide (c = "-"%char)) as [->|Hm].
      * intros H. destruct (Hbody true r H) as (Hne & Hall & Hv & Hr).
        split; [|done]. exists r. repeat split; auto.
      * destruct (decide (c = "+"%char)) as [->|Hp].
        -- intros H. destruct (Hbody false r H) as (Hne & Hall & Hv & Hr).
           split; [|done]. exists r. repeat split; auto.
        -- intros H.
           destruct (Hbody false (String c r) H) as (Hne & Hall & Hv & Hr).
           split; [|done]. exists (String c r). repeat split; auto.
  - intros [(body & Hne & Hall & Hcase) Hrange].
    assert (∀ neg : bool,
      v = (if neg then - digitsValue 0 body else digitsValue 0 body) →
      (if (if neg then - digitsValue 0 body else digitsValue 0 body) <? intMin
       then (intMin, Some (NumError "Atoi" s ErrRange))
       else if intMax <? (if neg then - digitsValue 0 body
                          else digitsValue 0 body)
            then (intMax, Some (NumError "Atoi" s ErrRange))
       else (if neg then - digitsValue 0 body else digitsValue 0 body, None))
      = (v, None)) as Hfit.
    { intros neg <-.
      destruct (Z.ltb_spec v intMin); [lia|].
      by destruct (Z.ltb_spec intMax v); [lia|]. }
    unfold strconv_Atoi.
    destruct Hcase as [[-> Hv] | [[-> Hv] | [-> Hv]]].
    + destruct body as [|c b]; [done|].
      destruct (allDigits_head _ _ Hall) as [Hm Hp].
      rewrite !decide_False by done.
      rewrite (Atoi_digits false (String c b)) by done. by apply (Hfit false).
    + simpl. rewrite (Atoi_digits false body) by done. by apply (Hfit false).
    + simpl. rewrite (Atoi_digits true body) by done. by apply (Hfit true).
Qed.

(** ** sriov_numvfs *)

(** C5, as stated, fails: with -1 in sriov_numvfs GetSriovNumVfs returns
    the count -1 and no error. *)
Lemma GetSriovNumVfs_negative_count :
  os_ReadFile sysfsNegative "/sys/class/net/eth0/device/sriov_numvfs"
    = inl (bytesOf ("-1" +:+ newline)) ∧
  GetSriovNumVfs sysfsNegative "eth0" = (-1, None) ∧
  ¬ isErr (GetSriovNumVfs sysfsNegative "eth0").
Proof.
  split; [by vm_compute|]. split; [by vm_compute|].
  intros H. apply H. by vm_compute.
Qed.

(** C5, amended. GetSriovNumVfs fails when the sriov_numvfs file is absent
    or unreadable; when the file is read it returns v without error
    exactly when the file is not empty and its content, white space
    trimmed, is a decimal numeral with an optional sign whose value v fits
    an int, and fails otherwise.  A negative numeral is returned as a
    negative count. *)
Theorem GetSriovNumVfs_result (fs : FS) (ifName : string) :
  let sriovFile :=
    filepath_Join [NetDirectory; ifName; "device"; sriovConfigured] in
  (∀ err, os_Lstat fs sriovFile = inr err →
     isErr (GetSriovNumVfs fs ifName)) ∧
  (∀ err, os_ReadFile fs (filepath_Clean sriovFile) = inr err →
     isErr (GetSriovNumVfs fs ifName)) ∧
  (∀ fi data v,
     os_Lstat fs sriovFile = inl fi →
     os_ReadFile fs (filepath_Clean sriovFile) = inl data →
     (GetSriovNumVfs fs ifName = (v, None) ↔
      data ≠ [] ∧
      signedDecimal (strings_TrimSpace (stringOfBytes data)) v ∧
      intMin ≤ v ≤ intMax)) ∧
  (∀ fi data,
     os_Lstat fs sriovFile = inl fi →
     os_ReadFile fs (filepath_Clean sriovFile) = inl data →
     (¬ ∃ v, data ≠ [] ∧
             signedDecimal (strings_TrimSpace (stringOfBytes data)) v ∧
             intMin ≤ v ≤ intMax) →
     isErr (GetSriovNumVfs fs ifName)).
Proof.
  intros sriovFile.
  assert (∀ fi data v,
     os_Lstat fs sriovFile = inl fi →
     os_ReadFile fs (filepath_Clean sriovFile) = inl data →
     (GetSriovNumVfs fs ifName = (v, None) ↔
      data ≠ [] ∧
      signedDecimal (strings_TrimSpace (stringOfBytes data)) v ∧
      intMin ≤ v ≤ intMax)) as Hiff.
  { intros fi data v Hl Hr. unfold GetSriovNumVfs. fold sriovFile.
    rewrite Hl, Hr.
    destruct (decide (length data = 0%nat)) as [Hlen|Hlen].
    - split; [done|]. intros [Hne _]. by destruct data.
    - destruct (strconv_Atoi (strings_TrimSpace (stringOfBytes data)))
        as [n [e|]] eqn:Ha.
      + split; [done|]. intros (_ & Hs & Hrange).
        assert (strconv_Atoi (strings_TrimSpace (stringOfBytes data))
                = (v, None)) as Ha' by (by apply Atoi_ok).
        by rewrite Ha in Ha'.
      + apply Atoi_ok in Ha as [Hs Hrange]. split.
        * intros [= <-]. split; [|done]. by intros ->.
        * intros (_ & Hs' & Hrange').
          assert (strconv_Atoi (strings_TrimSpace (stringOfBytes data))
                  = (v, None)) as Hv by (by apply Atoi_ok).
          assert (strconv_Atoi (strings_TrimSpace (stringOfBytes data))
                  = (n, None)) as Hn by (by apply Atoi_ok).
          rewrite Hv in Hn. by inversion Hn. }
  repeat apply conj.
  - intros err Hl. unfold isErr, GetSriovNumVfs. fold sriovFile.
    by rewrite Hl.
  - intros err Hr. unfold isErr, GetSriovNumVfs. fold sriovFile.
    rewrite Hr. by destruct (os_Lstat fs sriovFile).
  - exact Hiff.
  - intros fi data Hl Hr Hnot. unfold isErr.
    destruct (GetSriovNumVfs fs ifName) as [v [e|]] eqn:Hg; [done|].
    exfalso. apply Hnot. exists v. by apply (Hiff fi data v Hl Hr).
Qed.

Lemma GetSriovNumVfs_result_witness :
  GetSriovNumVfs sysfsNegative "eth0" = (-1, None) ∧
  isErr (GetSriovNumVfs sysfs "eth1").
Proof.
  split.
  - destruct (GetSriovNumVfs_result sysfsNegative "eth0")
      as (_ & _ & Hiff & _).
    apply (Hiff (mkFileInfo "sriov_numvfs" 420) (bytesOf ("-1" +:+ newline)));
      [by vm_compute|by vm_compute|].
    split; [done|]. split; [|by vm_compute].
    exists "1". split; [done|]. split; [done|].
    right. right. by vm_compute.
  - destruct (GetSriovNumVfs_result sysfs "eth1") as (Hmissing & _).
    by eapply Hmissing; vm_compute.
Defined.

(** ** Netdevice names *)

(** C6, as stated, fails: of the two entries listed under net/
    GetVFLinkNames returns one. *)
Lemma GetVFLinkNames_first_entry_only :
  (∃ entries,
     os_ReadDir sysfs "/sys/bus/pci/devices/0000:01:00.2/net" = inl entries ∧
     map Name entries = ["eth3"; "eth5"]) ∧
  GetVFLinkNames sysfs "0000:01:00.2" = ("eth3", None).
Proof.
  split; [eexists; split; by vm_compute|by vm_compute].
Qed.

(** With no entries under net/, GetVFLinkNamesFromVFID returns the empty
    list and no error, where GetVFLinkNames reports the empty listing. *)
Lemma GetVFLinkNamesFromVFID_empty_listing :
  os_ReadDir sysfs "/sys/class/net/eth0/device/virtfn1/net" = inl [] ∧
  GetVFLinkNamesFromVFID sysfs "eth0" 1 = ([], None).
Proof. split; by vm_compute. Qed.

(** C6, amended. GetVFLinkNames returns the first entry listed under the
    net directory of the device and fails when that directory is missing,
    cannot be read or has no entries; GetVFLinkNamesFromVFID returns all
    the entries listed and fails when the directory is missing or cannot
    be read. *)
Theorem VFLinkNames_entries (fs : FS) :
  (∀ pciAddr,
     let vfDir := filepath_Join [SysBusPci; pciAddr; "net"] in
     (∀ err, os_Lstat fs vfDir = inr err →
        isErr (GetVFLinkNames fs pciAddr)) ∧
     (∀ err, os_ReadDir fs vfDir = inr err →
        isErr (GetVFLinkNames fs pciAddr)) ∧
     (∀ fi, os_Lstat fs vfDir = inl fi → os_ReadDir fs vfDir = inl [] →
        isErr (GetVFLinkNames fs pciAddr)) ∧
     (∀ fi first rest, os_Lstat fs vfDir = inl fi →
        os_ReadDir fs vfDir = inl (first :: rest) →
        GetVFLinkNames fs pciAddr = (Name first, None))) ∧
  (∀ pfName vfID,
     let vfDir :=
       filepath_Join [NetDirectory; pfName; "device"; virtfn vfID; "net"] in
     (∀ err, os_Lstat fs vfDir = inr err →
        isErr (GetVFLinkNamesFromVFID fs pfName vfID)) ∧
     (∀ err, os_ReadDir fs vfDir = inr err →
        isErr (GetVFLinkNamesFromVFID fs pfName vfID)) ∧
     (∀ fi entries, os_Lstat fs vfDir = inl fi →
        os_ReadDir fs vfDir = inl entries → entries ≠ [] →
        GetVFLinkNamesFromVFID fs pfName vfID = (map Name entries, None))).
Proof.
  split.
  - intros pciAddr vfDir. unfold GetVFLinkNames. fold vfDir.
    repeat apply conj.
    + intros err ->. done.
    + intros err ->. by destruct (os_Lstat fs vfDir).
    + intros fi -> ->. done.
    + intros fi first rest -> ->. done.
  - intros pfName vfID vfDir. unfold GetVFLinkNamesFromVFID. fold vfDir.
    repeat apply conj.
    + intros err ->. done.
    + intros err ->. by destruct (os_Lstat fs vfDir).
    + intros fi entries -> -> _. done.
Qed.

Lemma VFLinkNames_entries_witness :
  GetVFLinkNames sysfs "0000:01:00.2" = ("eth3", None) ∧
  GetVFLinkNamesFromVFID sysfsTwoPorts "eth0" 0 = (["eth3"; "eth5"], None) ∧
  isErr (GetVFLinkNamesFromVFID sysfs "eth0" 3).
Proof.
  destruct (VFLinkNames_entries sysfs) as [Hone Hall].
  destruct (VFLinkNames_entries sysfsTwoPorts) as [_ Hall2].
  destruct (Hone "0000:01:00.2") as (_ & _ & _ & Hfirst).
  destruct (Hall2 "eth0" 0) as (_ & _ & Hlist).
  destruct (Hall "eth0" 3) as (Hmissing & _).
  split; [|split].
  - by eapply (Hfirst _ (mkFileInfo "eth3" (modeOf (Dir 493)))
                 [mkFileInfo "eth5" (modeOf (Dir 493))]); vm_compute.
  - by eapply (Hlist _ [mkFileInfo "eth3" (modeOf (Dir 493));
                        mkFileInfo "eth5" (modeOf (Dir 493))]); vm_compute.
  - by eapply Hmissing; vm_compute.
Defined.

(** ** The resolver on a tree with the links of sysfs *)

Example sysfsLinked_examples :
  GetSriovNumVfs sysfsLinked "eth0" = (1, None) ∧
  GetPciAddress sysfsLinked "eth0" 0 = ("0000:01:00.2", None) ∧
  GetVfid sysfsLinked "0000:01:00.2" "eth0" = (0, None) ∧
  GetVFLinkNames sysfsLinked "0000:01:00.2" = ("eth3", None) ∧
  GetVFLinkNamesFromVFID sysfsLinked "eth0" 0 = (["eth3"], None).
Proof. repeat split; by vm_compute. Qed.

(** * Further properties *)

(** ** The scan of GetVfid *)

Lemma GetVfid_loop_Some fs addr pfName n vf i :
  GetVfid_loop fs addr pfName n vf = Some i →
  vf ≤ i < vf + Z.of_nat n ∧
  GetPciAddress fs pfName i = (addr, None) ∧
  (∀ j, vf ≤ j < i → GetPciAddress fs pfName j ≠ (addr, None)).
Proof.
  revert vf. induction n as [|n IH]; intros vf H; [done|].
  simpl in H.
  assert (GetVfid_loop fs addr pfName n (vf + 1) = Some i →
          GetPciAddress fs pfName vf ≠ (addr, None) →
          vf ≤ i < vf + Z.of_nat (S n) ∧
          GetPciAddress fs pfName i = (addr, None) ∧
          (∀ j, vf ≤ j < i → GetPciAddress fs pfName j ≠ (addr, None)))
    as Hnext.
  { intros Hrest Hvf. destruct (IH _ Hrest) as (Hr & Hat & Hbefore).
    repeat split; [lia|lia|done|].
    intros j Hj. destruct (decide (j = vf)) as [->|]; [done|].
    apply Hbefore. lia. }
  destruct (os_Lstat fs (vfDirOf pfName vf)) as [fi|] eqn:Hl.
  - destruct (os_Readlink fs (vfDirOf pfName vf)) as [pciinfo|] eqn:Hr.
    + destruct (decide (filepath_Base pciinfo = addr)) as [Hb|Hb].
      * inversion H; subst i. repeat split; [lia|lia| |intros j; lia].
        apply GetPciAddress_ok. by exists fi, pciinfo.
      * apply Hnext; [done|].
        intros Hat. apply GetPciAddress_ok in Hat as (? & t & _ & Ht & Hbt).
        rewrite Hr in Ht. by inversion Ht; subst.
    + apply Hnext; [done|].
      intros Hat. apply GetPciAddress_ok in Hat as (? & t & _ & Ht & _).
      by rewrite Hr in Ht.
  - apply Hnext; [done|].
    intros Hat. apply GetPciAddress_ok in Hat as (? & t & Hl' & _).
    by rewrite Hl in Hl'.
Qed.

Lemma GetVfid_loop_None fs addr pfName n vf :
  GetVfid_loop fs addr pfName n vf = None ↔
  ∀ j, vf ≤ j < vf + Z.of_nat n → GetPciAddress fs pfName j ≠ (addr, None).
Proof.
  split.
  - revert vf. induction n as [|n IH]; intros vf H j Hj; [lia|].
    simpl in H.
    assert (GetVfid_loop fs addr pfName n (vf + 1) = None →
            GetPciAddress fs pfName vf ≠ (addr, None) →
            GetPciAddress fs pfName j ≠ (addr, None)) as Hnext.
    { intros Hrest Hvf. destruct (decide (j = vf)) as [->|]; [done|].
      apply (IH _ Hrest). lia. }
    destruct (os_Lstat fs (vfDirOf pfName vf)) as [fi|] eqn:Hl.
    + destruct (os_Readlink fs (vfDirOf pfName vf)) as [pciinfo|] eqn:Hr.
      * destruct (decide (filepath_Base pciinfo = addr)) as [Hb|Hb]; [done|].
        apply Hnext; [done|].
        intros Hat. apply GetPciAddress_ok in Hat as (? & t & _ & Ht & Hbt).
        rewrite Hr in Ht. by inversion Ht; subst.
      * apply Hnext; [done|].
        intros Hat. apply GetPciAddress_ok in Hat as (? & t & _ & Ht & _).
        by rewrite Hr in Ht.
    + apply Hnext; [done|].
      intros Hat. apply GetPciAddress_ok in Hat as (? & t & Hl' & _).
      by rewrite Hl in Hl'.
  - intros Hnone.
    destruct (GetVfid_loop fs addr pfName n vf) as [i|] eqn:H; [|done].
    apply GetVfid_loop_Some in H as (Hr & Hat & _).
    by destruct (Hnone i Hr).
Qed.

(** X1. An index GetVfid returns lies in the range sriov_numvfs gives, and
    the link of that index has the address: GetPciAddress on the result
    gives the address back. *)
Theorem GetVfid_sound (fs : FS) (addr pfName : string) (i : Z) :
  GetVfid fs addr pfName = (i, None) →
  ∃ N, GetSriovNumVfs fs pfName = (N, None) ∧ 0 ≤ i < N ∧
       GetPciAddress fs pfName i = (addr, None).
Proof.
  unfold GetVfid.
  destruct (GetSriovNumVfs fs pfName) as [N [e|]]; [done|].
  destruct (GetVfid_loop fs addr pfName (Z.to_nat N) 0) as [vf|] eqn:Hloop;
    [|done].
  intros [= ->]. apply GetVfid_loop_Some in Hloop as (Hr & Hat & _).
  exists N. repeat split; [lia|lia|done].
Qed.

Lemma GetVfid_sound_witness :
  GetPciAddress sysfs "eth0" 2 = ("0000:01:00.2", None).
Proof.
  destruct (GetVfid_sound sysfs "0000:01:00.2" "eth0" 2 ltac:(by vm_compute))
    as (N & _ & _ & Hat).
  exact Hat.
Defined.

(** X2. When some link in range has the address, GetVfid does not fail
    and returns the least index whose link has it, also when several links
    share the address. *)
Theorem GetVfid_least (fs : FS) (addr pfName : string) (N j : Z) :
  GetSriovNumVfs fs pfName = (N, None) →
  0 ≤ j < N →
  GetPciAddress fs pfName j = (addr, None) →
  ∃ i, GetVfid fs addr pfName = (i, None) ∧ 0 ≤ i ≤ j ∧
       GetPciAddress fs pfName i = (addr, None) ∧
       (∀ j', 0 ≤ j' < i → GetPciAddress fs pfName j' ≠ (addr, None)).
Proof.
  intros HN Hj Hat. unfold GetVfid. rewrite HN.
  destruct (GetVfid_loop fs addr pfName (Z.to_nat N) 0) as [i|] eqn:Hloop.
  - apply GetVfid_loop_Some in Hloop as (Hr & Hi & Hbefore).
    exists i. repeat split; [lia| |done|done].
    destruct (Z.le_gt_cases i j) as [|Hgt]; [done|].
    destruct (Hbefore j ltac:(lia) Hat).
  - exfalso. apply (proj1 (GetVfid_loop_None _ _ _ _ _) Hloop j); [lia|done].
Qed.

Lemma GetVfid_least_witness :
  GetPciAddress sysfsTwice "eth0" 2 = ("0000:01:00.2", None) ∧
  GetVfid sysfsTwice "0000:01:00.2" "eth0" = (0, None).
Proof.
  assert (GetPciAddress sysfsTwice "eth0" 2 = ("0000:01:00.2", None)) as Hat
    by (by vm_compute).
  split; [exact Hat|].
  destruct (GetVfid_least sysfsTwice "0000:01:00.2" "eth0" 4 2
              ltac:(by vm_compute) ltac:(lia) Hat) as (i & Hi & Hr & _ & _).
  rewrite Hi. f_equal.
  assert (i = 0 ∨ i = 1 ∨ i = 2) as [-> | [-> | ->]] by lia;
    [done| |]; vm_compute in Hi; by inversion Hi.
Defined.

(** X3. Once sriov_numvfs is read, GetVfid fails exactly when no link in
    range has the address; so it fails for every address when the count
    is zero or negative. *)
Theorem GetVfid_not_found (fs : FS) (addr pfName : string) (N : Z) :
  GetSriovNumVfs fs pfName = (N, None) →
  (isErr (GetVfid fs addr pfName) ↔
   ∀ j, 0 ≤ j < N → GetPciAddress fs pfName j ≠ (addr, None)) ∧
  (N ≤ 0 → isErr (GetVfid fs addr pfName)) ∧
  (isErr (GetVfid fs addr pfName) → (GetVfid fs addr pfName).1 = 0).
Proof.
  intros HN.
  assert (isErr (GetVfid fs addr pfName) ↔
          ∀ j, 0 ≤ j < N → GetPciAddress fs pfName j ≠ (addr, None)) as Hiff.
  { unfold isErr, GetVfid. rewrite HN.
    destruct (GetVfid_loop fs addr pfName (Z.to_nat N) 0) as [i|] eqn:Hloop.
    - split; [done|]. intros Hnone.
      apply GetVfid_loop_Some in Hloop as (Hr & Hat & _).
      destruct (Hnone i ltac:(lia) Hat).
    - split; [|done]. intros _ j Hj.
      apply (proj1 (GetVfid_loop_None _ _ _ _ _) Hloop). lia. }
  repeat split.
  - apply Hiff.
  - apply Hiff.
  - intros Hle. apply Hiff. intros j Hj. lia.
  - unfold isErr, GetVfid. rewrite HN.
    by destruct (GetVfid_loop fs addr pfName (Z.to_nat N) 0).
Qed.

Lemma GetVfid_not_found_witness :
  isErr (GetVfid sysfs "0000:01:00.9" "eth0") ∧
  isErr (GetVfid sysfsNegative "0000:01:00.2" "eth0").
Proof.
  split.
  - destruct (GetVfid_not_found sysfs "0000:01:00.9" "eth0" 4
                ltac:(by vm_compute)) as (Hiff & _).
    apply Hiff. intros j Hj.
    assert (j = 0 ∨ j = 1 ∨ j = 2 ∨ j = 3) as [-> | [-> | [-> | ->]]] by lia;
      by vm_compute.
  - destruct (GetVfid_not_found sysfsNegative "0000:01:00.2" "eth0" (-1)
                ltac:(by vm_compute)) as (_ & Hneg & _).
    apply Hneg. lia.
Defined.

(** ** IP families *)

Lemma v4InV6_test (ip : list Byte.byte) :
  length ip = 16%nat →
  (isZeros (take 10 ip)
   && bool_decide (ip !! 10%nat = Some Byte.xff)
   && bool_decide (ip !! 11%nat = Some Byte.xff) = true
   ↔ take 12 ip = v4InV6Prefix).
Proof.
  intros Hlen.
  do 16 (destruct ip as [|? ip]; [done|]). destruct ip; [|done].
  unfold isZeros, v4InV6Prefix. simpl.
  rewrite !andb_true_iff, !bool_decide_eq_true.
  split.
  - intros [[(-> & -> & -> & -> & -> & -> & -> & -> & -> & -> & _) [= ->]]
              [= ->]]. done.
  - intros [= -> -> -> -> -> -> -> -> -> -> -> ->]. done.
Qed.

(** X4. IsIPv4 holds for the addresses of 4 bytes and for those of 16
    bytes that start with the IPv4-in-IPv6 prefix; IsIPv6 holds for the
    other addresses of 16 bytes; no address is of both families, and an
    address of any other length, the empty one included, is of neither. *)
Theorem IP_family (ip : list Byte.byte) :
  (IsIPv4 ip = true ↔
     length ip = 4%nat ∨ (length ip = 16%nat ∧ take 12 ip = v4InV6Prefix)) ∧
  (IsIPv6 ip = true ↔
     length ip = 16%nat ∧ take 12 ip ≠ v4InV6Prefix) ∧
  IsIPv4 ip && IsIPv6 ip = false ∧
  (IsIPv4 ip = false ∧ IsIPv6 ip = false ↔
     length ip ≠ 4%nat ∧ length ip ≠ 16%nat).
Proof.
  unfold IsIPv4, IsIPv6, IP_To4, IP_To16.
  destruct (decide (length ip = 4%nat)) as [H4|H4].
  { repeat case_bool_decide; simpl; intuition (try done; try lia). }
  destruct (decide (length ip = 16%nat)) as [H16|H16].
  - pose proof (v4InV6_test ip H16) as Htest.
    destruct (isZeros (take 10 ip)
              && bool_decide (ip !! 10%nat = Some Byte.xff)
              && bool_decide (ip !! 11%nat = Some Byte.xff)).
    + assert (take 12 ip = v4InV6Prefix) as Hp by (by apply Htest).
      repeat case_bool_decide; simpl; intuition (try done; try lia).
    + assert (take 12 ip ≠ v4InV6Prefix) as Hp.
      { intros Hp. apply Htest in Hp. done. }
      repeat case_bool_decide; simpl; intuition (try done; try lia).
  - repeat case_bool_decide; simpl; intuition (try done; try lia).
Qed.

Example IP_family_examples :
  map (λ ip, (IsIPv4 ip, IsIPv6 ip))
    [ []; [Byte.x0a; Byte.x00; Byte.x00; Byte.x01];
      v4InV6Prefix ++ [Byte.x0a; Byte.x00; Byte.x00; Byte.x01];
      replicate 15 Byte.x00 ++ [Byte.x01];
      replicate 5 Byte.x00 ]
  = [ (false, false); (true, false); (true, false); (false, true);
      (false, false) ].
Proof. by vm_compute. Qed.

(** ** The time Retry sleeps *)

Section RetryClock.

Context {St : Type}.
Variable sleep : Z.
Variable f : St → option error * St.

Lemma Retry_clock_step n err (ts : Z * St) :
  Retry_loop clockSleep (S n) sleep (timeless f) err ts
  = match (f ts.2).1 with
    | None => (None, (ts.1, (f ts.2).2))
    | Some e =>
        Retry_loop clockSleep n sleep (timeless f) (Some e)
          (ts.1 + sleep, (f ts.2).2)
    end.
Proof.
  destruct ts as [t s]. simpl. unfold timeless at 1. simpl.
  by destruct (f s) as [[e|] s'].
Qed.

Lemma Retry_clock_success n err t s k :
  (k < n)%nat →
  (∀ i, (i < k)%nat → errorOf idleSleep sleep f i s ≠ None) →
  errorOf idleSleep sleep f k s = None →
  Retry_loop clockSleep n sleep (timeless f) err (t, s)
  = (None, (t + Z.of_nat k * sleep,
            (f (stateBefore idleSleep sleep f k s)).2)).
Proof.
  revert n err t s. induction k as [|k IH]; intros n err t s Hk Hfail Hok.
  - destruct n as [|n]; [lia|]. rewrite Retry_clock_step. simpl.
    unfold errorOf in Hok. simpl in Hok. rewrite Hok.
    do 2 f_equal. lia.
  - destruct n as [|n]; [lia|].
    rewrite stateBefore_shift, Retry_clock_step.
    pose proof (Hfail 0%nat ltac:(lia)) as H0.
    unfold errorOf in H0. simpl in H0.
    rewrite errorOf_shift in Hok. simpl.
    destruct (f s) as [[e|] s'] eqn:Hfs; [|done]. simpl in *.
    unfold idleSleep at 1 in Hok. unfold idleSleep at 2.
    rewrite (IH n (Some e) (t + sleep) s'); [| lia | | done].
    + do 2 f_equal. lia.
    + intros i Hi. specialize (Hfail (S i) ltac:(lia)).
      by rewrite errorOf_shift, Hfs in Hfail.
Qed.

Lemma Retry_clock_exhausted n err t s :
  (∀ i, (i < n)%nat → errorOf idleSleep sleep f i s ≠ None) →
  Retry_loop clockSleep n sleep (timeless f) err (t, s)
  = (match n with
     | O => err
     | S n' => errorOf idleSleep sleep f n' s
     end,
     (t + Z.of_nat n * sleep, stateBefore idleSleep sleep f n s)).
Proof.
  revert err t s. induction n as [|n IH]; intros err t s Hfail.
  - simpl. do 2 f_equal. lia.
  - rewrite stateBefore_shift, Retry_clock_step. simpl.
    pose proof (Hfail 0%nat ltac:(lia)) as H0.
    unfold errorOf in H0. simpl in H0.
    destruct (f s) as [[e|] s'] eqn:Hfs; [|done]. simpl.
    unfold idleSleep at 3.
    rewrite IH.
    + f_equal; [|f_equal; lia].
      destruct n as [|n]; [|by rewrite errorOf_shift, Hfs].
      unfold errorOf. simpl. by rewrite Hfs.
    + intros i Hi. specialize (Hfail (S i) ltac:(lia)).
      by rewrite errorOf_shift, Hfs in Hfail.
Qed.

End RetryClock.

(** X5. With a positive retry count, an operation that takes no time and
    a clock that sleeping moves on: when invocation k+1 is the first to
    succeed, Retry has slept k intervals; when all invocations fail it has
    slept one interval per invocation, the last one included, before it
    returns the last error. *)
Theorem Retry_elapsed {St : Type} (retries sleep : Z)
    (f : St → option error * St) (s : St) (t0 : Z) :
  0 < retries →
  let n := Z.to_nat retries in
  let r := Retry clockSleep retries sleep (timeless f) (t0, s) in
  (∀ k, (k < n)%nat →
     (∀ i, (i < k)%nat → errorOf idleSleep sleep f i s ≠ None) →
     errorOf idleSleep sleep f k s = None →
     r.1 = None ∧ r.2.1 = t0 + Z.of_nat k * sleep) ∧
  ((∀ i, (i < n)%nat → errorOf idleSleep sleep f i s ≠ None) →
     r.1 = errorOf idleSleep sleep f (n - 1) s ∧
     r.2.1 = t0 + retries * sleep).
Proof.
  intros Hpos n r. subst r. unfold Retry. fold n.
  split.
  - intros k Hk Hfail Hok.
    by rewrite (Retry_clock_success sleep f n None t0 s k).
  - intros Hfail. rewrite Retry_clock_exhausted by done.
    destruct n as [|n'] eqn:Hn; [lia|]. simpl.
    replace (n' - 0)%nat with n' by lia. split; [done|]. lia.
Qed.

Lemma Retry_elapsed_witness :
  (Retry clockSleep 3 100 (timeless failsUntilZero) (0, 2%nat)).2.1 = 200 ∧
  (Retry clockSleep 3 100 (timeless failsUntilZero) (0, 5%nat)).2.1 = 300.
Proof.
  split.
  - destruct (Retry_elapsed 3 100 failsUntilZero 2%nat 0 ltac:(lia))
      as (Hok & _).
    destruct (Hok 2%nat) as (_ & ->); [simpl; lia| |done|done].
    intros i Hi. destruct i as [|[|i]]; [done|done|lia].
  - destruct (Retry_elapsed 3 100 failsUntilZero 5%nat 0 ltac:(lia))
      as (_ & Hall).
    destruct Hall as (_ & ->); [|done].
    intros i Hi. simpl in Hi.
    destruct i as [|[|[|i]]]; [done|done|done|lia].
Defined.

(** ** The container runtime *)

Section RuntimeFacts.

Context {Service : Type}.
Variable connect : string → Z → Service + error.

Lemma getRuntimeService_loop_Some endPoints err s :
  getRuntimeService_loop connect endPoints None err = (Some s, None) ↔
  ∃ pre endPoint post,
    endPoints = pre ++ endPoint :: post ∧
    Forall (λ ep, ∃ e, connect ep connectTimeout = inr e) pre ∧
    connect endPoint connectTimeout = inl s.
Proof.
  revert err. induction endPoints as [|ep rest IH]; intros err; simpl.
  - split; [done|]. intros (pre & ? & ? & H & _). by destruct pre.
  - destruct (connect ep connectTimeout) as [s'|e] eqn:Hc.
    + split.
      * intros [= ->]. exists [], ep, rest. by repeat split.
      * intros (pre & ep' & post & Heq & Hpre & Hok).
        destruct pre as [|p pre]; simpl in Heq; inversion Heq; subst.
        -- rewrite Hc in Hok. by inversion Hok.
        -- inversion Hpre as [|? ? [e He] ?]; subst. by rewrite Hc in He.
    + rewrite IH. split.
      * intros (pre & ep' & post & -> & Hpre & Hok).
        exists (ep :: pre), ep', post. repeat split; [|done].
        constructor; eauto.
      * intros (pre & ep' & post & Heq & Hpre & Hok).
        destruct pre as [|p pre]; simpl in Heq; inversion Heq; subst.
        -- by rewrite Hc in Hok.
        -- inversion Hpre; subst. by exists pre, ep', post.
Qed.

Lemma getRuntimeService_loop_None endPoints err r e :
  getRuntimeService_loop connect endPoints None err = (r, Some e) ↔
  r = None ∧
  Forall (λ ep, ∃ e', connect ep connectTimeout = inr e') endPoints ∧
  match last endPoints with
  | Some ep => connect ep connectTimeout = inr e
  | None => err = Some e
  end.
Proof.
  revert err. induction endPoints as [|ep rest IH]; intros err; simpl.
  - split; [by intros [= -> ->]|by intros (-> & _ & ->)].
  - destruct (connect ep connectTimeout) as [s'|e0] eqn:Hc.
    + split; [done|]. intros (_ & Hall & _).
      inversion Hall as [|? ? [e' He'] ?]; subst. by rewrite Hc in He'.
    + rewrite IH. split.
      * intros (-> & Hall & Hlast). repeat split; [constructor; eauto|].
        destruct rest as [|ep' rest'].
        -- simpl in *. rewrite Hc. by inversion Hlast.
        -- rewrite last_cons_cons.
           destruct (last (ep' :: rest')) eqn:Hl; [done|].
           by apply last_None in Hl.
      * intros (-> & Hall & Hlast). inversion Hall; subst.
        repeat split; [done|].
        destruct rest as [|ep' rest'].
        -- simpl in *. rewrite Hc in Hlast. by inversion Hlast.
        -- rewrite last_cons_cons in Hlast.
           destruct (last (ep' :: rest')) eqn:Hl; [done|].
           by apply last_None in Hl.
Qed.

Lemma getRuntimeService_not_nil runtimeEndpoint :
  getRuntimeService connect runtimeEndpoint ≠ (None, None).
Proof.
  unfold getRuntimeService.
  destruct (decide (runtimeEndpoint = "")).
  - simpl.
    destruct (connect "unix:///run/containerd/containerd.sock" _); [done|].
    destruct (connect "unix:///run/crio/crio.sock" _); [done|].
    by destruct (connect "unix:///var/run/cri-dockerd.sock" _).
  - by destruct (connect runtimeEndpoint connectTimeout).
Qed.

End RuntimeFacts.

(** X6. With no endpoint given, getRuntimeService returns the service of
    the first default endpoint, in the order of the list, that accepts
    the connection, and fails exactly when all three refuse, with the
    error of the last one; a service and an error never come together,
    and one of the two always comes. *)
Theorem getRuntimeService_fallback {Service : Type}
    (connect : string → Z → Service + error) :
  (∀ s, getRuntimeService connect "" = (Some s, None) ↔
     ∃ pre endPoint post,
       defaultRuntimeEndpoints = pre ++ endPoint :: post ∧
       Forall (λ ep, ∃ e, connect ep connectTimeout = inr e) pre ∧
       connect endPoint connectTimeout = inl s) ∧
  (∀ r e, getRuntimeService connect "" = (r, Some e) ↔
     r = None ∧
     Forall (λ ep, ∃ e', connect ep connectTimeout = inr e')
       defaultRuntimeEndpoints ∧
     connect "unix:///var/run/cri-dockerd.sock" connectTimeout = inr e) ∧
  (∀ runtimeEndpoint, getRuntimeService connect runtimeEndpoint ≠ (None, None)).
Proof.
  repeat apply conj.
  - intros s. unfold getRuntimeService. rewrite decide_True by done.
    apply getRuntimeService_loop_Some.
  - intros r e. unfold getRuntimeService. rewrite decide_True by done.
    apply (getRuntimeService_loop_None connect defaultRuntimeEndpoints None).
  - apply getRuntimeService_not_nil.
Qed.

Example getRuntimeService_example :
  getRuntimeService crioOnly "" = (Some "crio", None) ∧
  getRuntimeService crioOnly "unix:///run/containerd/containerd.sock"
  = (None,
     Some (Errorf "connection refused: %s"
             [AStr "unix:///run/containerd/containerd.sock"])).
Proof. split; by vm_compute. Qed.

(** X7. GetContainerPid never calls the runtime through a nil client: it
    always returns, either an info map without an error or an error
    without a map; and it returns the info map of the sandbox exactly when
    a runtime was reached and answered the status query, the map being
    the one the runtime gave. *)
Theorem GetContainerPid_returns {Service : Type}
    (connect : string → Z → Service + error)
    (status : Service → string → bool → gmap string string + error)
    (runtimeEndpoint containerId : string) :
  ((∃ info,
      GetContainerPid connect status runtimeEndpoint containerId
        = Returns (Some info, None)) ∨
   (∃ err,
      GetContainerPid connect status runtimeEndpoint containerId
        = Returns (None, Some err))) ∧
  (∀ info,
     GetContainerPid connect status runtimeEndpoint containerId
       = Returns (Some info, None) ↔
     ∃ client,
       getRuntimeService connect runtimeEndpoint = (Some client, None) ∧
       status client containerId true = inl info).
Proof.
  unfold GetContainerPid.
  destruct (getRuntimeService connect runtimeEndpoint) as [[client|] [e|]]
    eqn:Hsvc.
  - split; [right; eauto|]. intros info. split; [done|].
    by intros (c & [=] & _).
  - destruct (status client containerId true) as [info|e] eqn:Hst.
    + split; [left; eauto|]. intros info'. split.
      * intros [= <-]. by exists client.
      * intros (c & [= <-] & Hc). rewrite Hst in Hc. by inversion Hc.
    + split; [right; eauto|]. intros info. split; [done|].
      intros (c & [= <-] & Hc). by rewrite Hst in Hc.
  - split; [right; eauto|]. intros info. split; [done|].
    by intros (c & [=] & _).
  - by destruct (getRuntimeService_not_nil connect runtimeEndpoint).
Qed.

Example GetContainerPid_example :
  GetContainerPid crioOnly
    (λ client id verbose, inl {[ "pid" := client +:+ ":" +:+ id ]}) "" "c1"
  = Returns (Some {[ "pid" := "crio:c1" ]}, None).
Proof. by vm_compute. Qed.

(** ** The mapping file *)

Lemma Open_ReadAll fs name data :
  (∃ file, os_Open fs name = inl file ∧ io_ReadAll name file = inl data) ↔
  os_ReadFile fs name = inl data.
Proof.
  unfold os_Open, os_ReadFile, io_ReadAll.
  destruct (locateFollow fs name) as [k|].
  - destruct (nodeAt fs k) as [[p d|p|t]|].
    + split.
      * by intros (file & [= <-] & [= <-]).
      * intros [= <-]. by exists (File p d).
    + split; [|done]. by intros (file & [= <-] & ?).
    + split; [|done]. by intros (file & [=] & _).
    + split; [|done]. by intros (file & [=] & _).
  - split; [|done]. by intros (file & [=] & _).
Qed.

(** X8. RetrieveMacFromPci returns a MAC without error exactly when the
    mapping file is there, can be read and decoded, and holds the PCI
    address, the MAC being the value found; a missing address is an error
    and no default, and with an error the string returned is empty. *)
Theorem RetrieveMacFromPci_lookup
    (json_Unmarshal : list Byte.byte → gmap string string + error)
    (fs : FS) (pciAddr pciToMacFile : string) :
  (∀ mac,
     RetrieveMacFromPci json_Unmarshal fs pciAddr pciToMacFile = (mac, None) ↔
     ∃ fi data pciToMacMap,
       os_Stat fs pciToMacFile = inl fi ∧
       os_ReadFile fs (filepath_Clean pciToMacFile) = inl data ∧
       json_Unmarshal data = inl pciToMacMap ∧
       pciToMacMap !! pciAddr = Some mac) ∧
  (isErr (RetrieveMacFromPci json_Unmarshal fs pciAddr pciToMacFile) →
   (RetrieveMacFromPci json_Unmarshal fs pciAddr pciToMacFile).1 = "").
Proof.
  unfold RetrieveMacFromPci, PathExists, isErr.
  pose proof (Open_ReadAll fs (filepath_Clean pciToMacFile)) as Hor.
  split.
  - intros mac.
    destruct (os_Stat fs pciToMacFile) as [fi|e].
    + destruct (os_Open fs (filepath_Clean pciToMacFile)) as [file|e] eqn:Ho.
      * destruct (io_ReadAll (filepath_Clean pciToMacFile) file)
          as [data|e] eqn:Hr.
        -- assert (os_ReadFile fs (filepath_Clean pciToMacFile) = inl data)
             as Hread by (apply Hor; eauto).
           destruct (json_Unmarshal data) as [m|e] eqn:Hj.
           ++ destruct (m !! pciAddr) as [mac'|] eqn:Hm.
              ** split.
                 --- intros [= <-]. by exists fi, data, m.
                 --- intros (? & d & m' & _ & Hd & Hj' & Hm').
                     rewrite Hread in Hd. inversion Hd; subst.
                     rewrite Hj in Hj'. inversion Hj'; subst.
                     rewrite Hm in Hm'. by inversion Hm'.
              ** split; [done|].
                 intros (? & d & m' & _ & Hd & Hj' & Hm').
                 rewrite Hread in Hd. inversion Hd; subst.
                 rewrite Hj in Hj'. inversion Hj'; subst.
                 by rewrite Hm in Hm'.
           ++ split; [done|].
              intros (? & d & m' & _ & Hd & Hj' & _).
              rewrite Hread in Hd. inversion Hd; subst.
              by rewrite Hj in Hj'.
        -- split; [done|].
           intros (? & d & m' & _ & Hd & _).
           apply Hor in Hd as (file' & Ho' & Hr').
           inversion Ho'; subst. by rewrite Hr in Hr'.
      * split; [done|].
        intros (? & d & m' & _ & Hd & _).
        by apply Hor in Hd as (file' & Ho' & _).
    + split.
      * by destruct (os_IsNotExist e).
      * by intros (? & ? & ? & ? & _).
  - destruct (os_Stat fs pciToMacFile) as [fi|e].
    + destruct (os_Open fs (filepath_Clean pciToMacFile)) as [file|e];
        [|done].
      destruct (io_ReadAll (filepath_Clean pciToMacFile) file) as [data|e];
        [|done].
      destruct (json_Unmarshal data) as [m|e]; [|done].
      by destruct (m !! pciAddr).
    + by destruct (os_IsNotExist e).
Qed.

Example RetrieveMacFromPci_examples :
  RetrieveMacFromPci unmarshalOne macFS "0000:01:00.2"
    "/etc/cni/pci-to-mac.json" = ("aa:bb:cc:dd:ee:ff", None) ∧
  isErr (RetrieveMacFromPci unmarshalOne macFS "0000:01:00.3"
           "/etc/cni/pci-to-mac.json") ∧
  isErr (RetrieveMacFromPci unmarshalOne macFS "0000:01:00.2"
           "/etc/cni/missing.json") ∧
  isErr (RetrieveMacFromPci unmarshalOne macFS "0000:01:00.2" "/etc/cni").
Proof. repeat split; by vm_compute. Qed.

(** ** Drivers *)

Lemma HasDpdkDriver_loop_elem driverName drivers :
  HasDpdkDriver_loop driverName drivers = true ↔ driverName ∈ drivers.
Proof.
  induction drivers as [|drv rest IH]; simpl.
  - split; [done|]. by intros ?%elem_of_nil.
  - rewrite elem_of_cons. destruct (decide (driverName = drv)); [tauto|].
    rewrite IH. tauto.
Qed.

Lemma Stat_Name fs name fi :
  os_Stat fs name = inl fi → Name fi = filepath_Base name.
Proof.
  unfold os_Stat. destruct (locateFollow fs name) as [k|]; [|done].
  destruct (nodeAt fs k); [|done]. by intros [= <-].
Qed.

(** X9. HasDpdkDriver answers true without error exactly when the driver
    link resolves, the resolved path can be stat-ed and its last element
    is vfio-pci, uio_pci_generic or igb_uio; it fails exactly when the
    link does not resolve or the resolved path cannot be stat-ed, and
    then answers false. *)
Theorem HasDpdkDriver_userspace
    (filepath_EvalSymlinks : FS → string → string + error)
    (fs : FS) (pciAddr : string) :
  let driverLink := filepath_Join [SysBusPci; pciAddr; "driver"] in
  (HasDpdkDriver filepath_EvalSymlinks fs pciAddr = (true, None) ↔
     ∃ driverPath fi,
       filepath_EvalSymlinks fs driverLink = inl driverPath ∧
       os_Stat fs driverPath = inl fi ∧
       filepath_Base driverPath ∈ ["vfio-pci"; "uio_pci_generic"; "igb_uio"]) ∧
  (isErr (HasDpdkDriver filepath_EvalSymlinks fs pciAddr) ↔
     (∃ err, filepath_EvalSymlinks fs driverLink = inr err) ∨
     (∃ driverPath err,
        filepath_EvalSymlinks fs driverLink = inl driverPath ∧
        os_Stat fs driverPath = inr err)) ∧
  (isErr (HasDpdkDriver filepath_EvalSymlinks fs pciAddr) →
   (HasDpdkDriver filepath_EvalSymlinks fs pciAddr).1 = false).
Proof.
  intros driverLink. unfold HasDpdkDriver, isErr. fold driverLink.
  destruct (filepath_EvalSymlinks fs driverLink) as [driverPath|e] eqn:He.
  - destruct (os_Stat fs driverPath) as [fi|e] eqn:Hs.
    + rewrite (Stat_Name _ _ _ Hs).
      pose proof (HasDpdkDriver_loop_elem (filepath_Base driverPath)
                    UserspaceDrivers) as Hl.
      destruct (HasDpdkDriver_loop (filepath_Base driverPath)
                  UserspaceDrivers); simpl; repeat split; try done.
      * intros _. exists driverPath, fi. repeat split; [done|]. by apply Hl.
      * intros [[err [=]] | (p & err & [= <-] & Hs')].
        by rewrite Hs in Hs'.
      * intros (p & fi' & [= <-] & _ & Hin). by apply Hl in Hin.
      * intros [[err [=]] | (p & err & [= <-] & Hs')].
        by rewrite Hs in Hs'.
    + simpl. repeat split; try done.
      * intros (p & fi' & [= <-] & Hs' & _). by rewrite Hs in Hs'.
      * intros _. right. by exists driverPath, e.
  - simpl. repeat split; try done.
    + by intros (p & fi' & [=] & _).
    + intros _. left. by exists e.
Qed.

Example HasDpdkDriver_examples :
  HasDpdkDriver (λ _ _, inl "/sys/bus/pci/drivers/vfio-pci")
    (mkdirs "/sys/bus/pci/drivers/vfio-pci" emptyFS) "0000:01:00.2"
    = (true, None) ∧
  HasDpdkDriver (λ _ _, inl "/sys/bus/pci/drivers/ixgbevf")
    (mkdirs "/sys/bus/pci/drivers/ixgbevf" emptyFS) "0000:01:00.2"
    = (false, None) ∧
  isErr (HasDpdkDriver evalSymlinksOf emptyFS "0000:01:00.2").
Proof. repeat split; by vm_compute. Qed.

(** ** The shared PF *)

Lemma GetSharedPF_loop_Some ifName dirList name :
  GetSharedPF_loop ifName dirList = Some name ↔
  ∃ pre file post,
    dirList = pre ++ file :: post ∧
    Forall (λ f, Name f = ifName) pre ∧
    Name file = name ∧ name ≠ ifName.
Proof.
  induction dirList as [|f rest IH]; simpl.
  - split; [done|]. intros (pre & ? & ? & H & _). by destruct pre.
  - destruct (decide (Name f ≠ ifName)) as [Hne|Heq].
    + split.
      * intros [= <-]. by exists [], f, rest.
      * intros (pre & file & post & Hl & Hpre & Hn & Hd).
        destruct pre as [|p pre]; simpl in Hl; inversion Hl; subst; [done|].
        inversion Hpre; subst. done.
    + assert (Name f = ifName) as Hf by (by destruct (decide (Name f = ifName))).
      rewrite IH. split.
      * intros (pre & file & post & -> & Hpre & Hn & Hd).
        exists (f :: pre), file, post. repeat split; try done.
        by constructor.
      * intros (pre & file & post & Hl & Hpre & Hn & Hd).
        destruct pre as [|p pre]; simpl in Hl; inversion Hl; subst.
        -- by destruct Hd.
        -- inversion Hpre; subst. by exists pre, file, post.
Qed.

Lemma stringUpTo_None (s : string) (n : nat) :
  stringUpTo s (Z.of_nat (String.length s) - Z.of_nat n) = None ↔
  (String.length s < n)%nat.
Proof.
  unfold stringUpTo. case_decide; split; try done; lia.
Qed.

Lemma ReadDir_empty_name fs : ∃ e, os_ReadDir fs "" = inr e.
Proof. by eexists. Qed.

(** X10. A name GetSharedPF returns is never the name it was given: it is
    the first entry with another name in the listing of the directory that
    the resolved path of the device, its last bytes cut off, names. *)
Theorem GetSharedPF_sibling
    (filepath_EvalSymlinks : FS → string → string + error)
    (fs : FS) (ifName name : string) :
  GetSharedPF filepath_EvalSymlinks fs ifName = Returns (name, None) →
  name ≠ ifName ∧
  ∃ fullpath entries pre file post,
    filepath_EvalSymlinks fs (filepath_Join [NetDirectory; ifName])
      = inl fullpath ∧
    os_ReadDir fs
      (String.substring 0 (String.length fullpath - String.length ifName)
         fullpath) = inl entries ∧
    entries = pre ++ file :: post ∧
    Forall (λ f, Name f = ifName) pre ∧
    Name file = name.
Proof.
  unfold GetSharedPF.
  destruct (os_Lstat fs _) as [fi|]; [|done].
  destruct (Z.land (Mode fi) ModeSymlink =? 0); [done|].
  destruct (filepath_EvalSymlinks fs _) as [fullpath|e] eqn:He.
  - unfold stringUpTo. case_decide as Hr; [|done].
    replace (Z.to_nat (Z.of_nat (String.length fullpath)
                       - Z.of_nat (String.length ifName)))
      with (String.length fullpath - String.length ifName)%nat by lia.
    destruct (os_ReadDir fs _) as [entries|] eqn:Hd.
    + destruct (GetSharedPF_loop ifName entries) as [n|] eqn:Hloop; [|done].
      intros [= ->].
      apply GetSharedPF_loop_Some in Hloop
        as (pre & file & post & -> & Hpre & Hn & Hne).
      split; [done|]. by exists fullpath, (pre ++ file :: post), pre, file, post.
    + done.
  - unfold stringUpTo. case_decide as Hr; [|done].
    simpl in Hr.
    replace (Z.to_nat (Z.of_nat (String.length "")
                       - Z.of_nat (String.length ifName)))
      with 0%nat by (simpl; lia).
    simpl. done.
Qed.

Lemma GetSharedPF_sibling_witness :
  GetSharedPF evalSymlinksOf sysfsShared "eth0" = Returns ("eth1", None) ∧
  "eth1" ≠ "eth0".
Proof.
  assert (GetSharedPF evalSymlinksOf sysfsShared "eth0"
          = Returns ("eth1", None)) as H by (by vm_compute).
  split; [exact H|].
  by destruct (GetSharedPF_sibling evalSymlinksOf sysfsShared "eth0" "eth1" H).
Defined.

(** X11. GetSharedPF panics, on the slice of the resolved path, exactly
    when the device is a symbolic link and the resolved path is shorter
    than the device name; the error of EvalSymlinks being dropped, that is
    the case whenever the link of a named device does not resolve. *)
Theorem GetSharedPF_panics
    (filepath_EvalSymlinks : FS → string → string + error)
    (fs : FS) (ifName : string) :
  let pfDir := filepath_Join [NetDirectory; ifName] in
  let fullpath :=
    match filepath_EvalSymlinks fs pfDir with
    | inl p => p
    | inr _ => ""
    end in
  ((∃ msg, GetSharedPF filepath_EvalSymlinks fs ifName = Panics msg) ↔
   ∃ fi, os_Lstat fs pfDir = inl fi ∧
         (Z.land (Mode fi) ModeSymlink =? 0) = false ∧
         (String.length fullpath < String.length ifName)%nat) ∧
  (∀ target err,
     os_Readlink fs pfDir = inl target →
     filepath_EvalSymlinks fs pfDir = inr err →
     ifName ≠ "" →
     ∃ msg, GetSharedPF filepath_EvalSymlinks fs ifName = Panics msg).
Proof.
  intros pfDir fullpath.
  assert ((∃ msg, GetSharedPF filepath_EvalSymlinks fs ifName = Panics msg) ↔
          ∃ fi, os_Lstat fs pfDir = inl fi ∧
                (Z.land (Mode fi) ModeSymlink =? 0) = false ∧
                (String.length fullpath < String.length ifName)%nat) as Hiff.
  { unfold GetSharedPF. fold pfDir. fold fullpath.
    destruct (os_Lstat fs pfDir) as [fi|e].
    - destruct (Z.land (Mode fi) ModeSymlink =? 0) eqn:Hm.
      + split; [by intros [? ?]|].
        intros (fi' & [= <-] & Hf & _). by rewrite Hm in Hf.
      + destruct (stringUpTo fullpath _) as [parentDir|] eqn:Hs.
        * split.
          -- intros [msg H].
             by destruct (GetSharedPF_loop ifName _).
          -- intros (fi' & _ & _ & Hlen).
             apply stringUpTo_None in Hlen. by rewrite Hs in Hlen.
        * split; [|eauto]. intros _. exists fi.
          repeat split; [done|]. by apply stringUpTo_None.
    - split; [by intros [? ?]|]. by intros (fi' & [=] & _). }
  split; [exact Hiff|].
  intros target err Hlink He Hne. apply Hiff.
  destruct (Readlink_Lstat _ _ _ Hlink) as (fi & Hl & Hm).
  exists fi. repeat split; [done|done|].
  unfold fullpath. rewrite He. destruct ifName; [done|]. simpl. lia.
Qed.

Lemma GetSharedPF_panics_witness :
  ∃ msg, GetSharedPF evalSymlinksOf sysfsShared "eth9" = Panics msg.
Proof.
  destruct (GetSharedPF_panics evalSymlinksOf sysfsShared "eth9")
    as (_ & Hdangling).
  by eapply (Hdangling "../../devices/gone/net/eth9"); vm_compute.
Defined.

(** ** The container's device directory *)




(** ** What a mkdir leaves alone *)

Lemma skipWhile_length f l : (length (skipWhile f l) ≤ length l)%nat.
Proof.
  induction l as [|a l IH]; simpl; [done|].
  destruct (f a); simpl; lia.
Qed.

Lemma ascii_list_length s :
  length (String.list_ascii_of_string s) = String.length s.
Proof. induction s as [|a s IH]; simpl; by f_equal. Qed.

Lemma ascii_string_length l :
  String.length (String.string_of_list_ascii l) = length l.
Proof. induction l as [|a l IH]; simpl; by f_equal. Qed.

(** The parent MkdirAll recurses on is shorter than the name. *)
Lemma parentOf_shorter path :
  parentOf path ≠ "" →
  (String.length (parentOf path) < String.length path)%nat.
Proof.
  unfold parentOf. intros Hne.
  set (r := skipWhile _ (skipWhile _ _)) in *.
  assert (length r ≤ String.length path)%nat as Hr.
  { unfold r. etransitivity; [apply skipWhile_length|].
    etransitivity; [apply skipWhile_length|].
    by rewrite length_rev, ascii_list_length. }
  rewrite ascii_string_length, length_rev.
  destruct r as [|a r]; [done|]. simpl in *. lia.
Qed.

(** The depth os.MkdirAll allows is never used up: any fuel from the
    length of the name on gives the same. *)
Lemma mkdirAll_fuel fuel1 fuel2 fs path perm :
  (String.length path ≤ fuel1)%nat → (String.length path ≤ fuel2)%nat →
  mkdirAll fuel1 fs path perm = mkdirAll fuel2 fs path perm.
Proof.
  revert fuel2 fs path.
  induction fuel1 as [|fuel1 IH]; intros fuel2 fs path H1 H2.
  - destruct path; [|simpl in H1; lia].
    destruct fuel2; simpl; [done|]. by destruct (os_Stat fs "").
  - destruct fuel2 as [|fuel2].
    + destruct path; [|simpl in H2; lia]. simpl.
      by destruct (os_Stat fs "").
    + simpl. destruct (os_Stat fs path); [done|].
      destruct (decide (parentOf path = "")) as [|Hp]; [done|].
      pose proof (parentOf_shorter path Hp).
      rewrite (IH fuel2) by lia. done.
Qed.

Lemma MkdirAll_fuel fuel fs path perm :
  (String.length path ≤ fuel)%nat →
  mkdirAll fuel fs path perm = os_MkdirAll fs path perm.
Proof. intros H. by apply mkdirAll_fuel. Qed.

Lemma Mkdir_inv fs name perm fs' :
  os_Mkdir fs name perm = (None, fs') →
  ∃ k p,
    name ≠ "" ∧
    walk maxSymlinks fs false (startDir fs name)
      (dropEmptyTail (strings_Split name "/")) = Done k ∧
    k ≠ [] ∧ nodeAt fs k = None ∧ nodeAt fs (parent k) = Some (Dir p) ∧
    fs' = fsInsert fs k (Dir perm).
Proof.
  unfold os_Mkdir. destruct (decide (name = "")); [done|].
  destruct (walk _ _ _ _ _) as [k|]; [|done].
  destruct (nodeAt fs k) as [nd|] eqn:Hk; [done|].
  destruct (nodeAt fs (parent k)) as [[|p|]|] eqn:Hp; try done.
  intros [= <-]. exists k, p. repeat split; try done. by intros ->.
Qed.

Lemma Mkdir_fails fs name perm e fs' :
  os_Mkdir fs name perm = (Some e, fs') → fs' = fs.
Proof.
  unfold os_Mkdir. destruct (decide (name = "")); [by intros [= _ <-]|].
  destruct (walk _ _ _ _ _) as [k|]; [|by intros [= _ <-]].
  destruct (nodeAt fs k) as [nd|]; [by intros [= _ <-]|].
  destruct (nodeAt fs (parent k)) as [[|p|]|]; by intros [= _ <-].
Qed.

Lemma wfFS_mkdir fs k perm p :
  wfFS fs → k ≠ [] → nodeAt fs k = None →
  nodeAt fs (parent k) = Some (Dir p) →
  wfFS (fsInsert fs k (Dir perm)).
Proof.
  intros Hwf Hne Hk Hp.
  unfold wfFS in *. simpl. apply map_Forall_insert_2.
  - unfold isDirAt. rewrite nodeAt_insert by done.
    rewrite decide_False; [by rewrite Hp|].
    intros Heq. by rewrite <- Heq, Hk in Hp.
  - eapply map_Forall_impl; [exact Hwf|].
    intros k0 nd Hd. simpl in Hd. unfold isDirAt in *.
    rewrite nodeAt_insert by done.
    case_decide as Heq; [|done].
    rewrite <- Heq in Hd. by rewrite Hk in Hd.
Qed.

Lemma Mkdir_grows fs name perm r fs' :
  os_Mkdir fs name perm = (r, fs') →
  grows fs fs' ∧
  (∀ k n, nodeAt fs k = Some n → nodeAt fs' k = Some n) ∧
  (wfFS fs → wfFS fs').
Proof.
  destruct r as [e|].
  - intros H. apply Mkdir_fails in H as ->.
    split; [apply grows_refl|]. by split.
  - intros H. apply Mkdir_inv in H as (k & p & _ & _ & Hne & Hk & Hp & ->).
    split; [|split].
    + apply grows_insert; try done; intros ?; by rewrite Hk.
    + intros k0 nd Hn. rewrite nodeAt_insert by done.
      case_decide; [subst; by rewrite Hk in Hn|done].
    + intros Hwf. by eapply wfFS_mkdir.
Qed.

Lemma frame_refl fs :
  grows fs fs ∧
  (∀ k n, nodeAt fs k = Some n → nodeAt fs k = Some n) ∧
  (wfFS fs → wfFS fs).
Proof. split; [apply grows_refl|]. by split. Qed.

Lemma frame_trans fs0 fs1 fs2 :
  grows fs0 fs1 ∧
  (∀ k n, nodeAt fs0 k = Some n → nodeAt fs1 k = Some n) ∧
  (wfFS fs0 → wfFS fs1) →
  grows fs1 fs2 ∧
  (∀ k n, nodeAt fs1 k = Some n → nodeAt fs2 k = Some n) ∧
  (wfFS fs1 → wfFS fs2) →
  grows fs0 fs2 ∧
  (∀ k n, nodeAt fs0 k = Some n → nodeAt fs2 k = Some n) ∧
  (wfFS fs0 → wfFS fs2).
Proof.
  intros (Hg & Hkeep & Hwf) (Hg' & Hkeep' & Hwf').
  split; [by eapply grows_trans|]. split; [|by auto].
  intros k n Hn. by apply Hkeep', Hkeep.
Qed.

(** The last step of MkdirAll, the parent being made. *)
Lemma mkdirAll_last fs fs1 path perm r fs' :
  grows fs fs1 ∧
  (∀ k n, nodeAt fs k = Some n → nodeAt fs1 k = Some n) ∧
  (wfFS fs → wfFS fs1) →
  match os_Mkdir fs1 path perm with
  | (None, fs2) => (None, fs2)
  | (Some err, fs2) =>
      match os_Lstat fs2 path with
      | inl dir => if IsDir dir then (None, fs2) else (Some err, fs2)
      | inr _ => (Some err, fs2)
      end
  end = (r, fs') →
  grows fs fs' ∧
  (∀ k n, nodeAt fs k = Some n → nodeAt fs' k = Some n) ∧
  (wfFS fs → wfFS fs').
Proof.
  intros H1.
  destruct (os_Mkdir fs1 path perm) as [[e|] fs2] eqn:Hm;
    apply Mkdir_grows in Hm.
  - destruct (os_Lstat fs2 path) as [fi|]; [destruct (IsDir fi)|];
      intros [= _ <-]; by eapply frame_trans.
  - intros [= _ <-]. by eapply frame_trans.
Qed.

Lemma mkdirAll_grows fuel fs path perm r fs' :
  mkdirAll fuel fs path perm = (r, fs') →
  grows fs fs' ∧
  (∀ k n, nodeAt fs k = Some n → nodeAt fs' k = Some n) ∧
  (wfFS fs → wfFS fs').
Proof.
  revert fs path r fs'.
  induction fuel as [|fuel IH]; intros fs path r fs'; simpl.
  - destruct (os_Stat fs path) as [fi|].
    { destruct (IsDir fi); intros [= _ <-]; apply frame_refl. }
    apply mkdirAll_last, frame_refl.
  - destruct (os_Stat fs path) as [fi|].
    { destruct (IsDir fi); intros [= _ <-]; apply frame_refl. }
    destruct (decide (parentOf path = "")).
    { apply mkdirAll_last, frame_refl. }
    destruct (mkdirAll fuel fs (parentOf path) perm) as [[e1|] fs1] eqn:Hp;
      apply IH in Hp.
    + by intros [= _ <-].
    + by apply mkdirAll_last.
Qed.

Lemma MkdirAll_grows fs path perm r fs' :
  os_MkdirAll fs path perm = (r, fs') →
  grows fs fs' ∧
  (∀ k n, nodeAt fs k = Some n → nodeAt fs' k = Some n) ∧
  (wfFS fs → wfFS fs').
Proof. apply mkdirAll_grows. Qed.

(** ** Where the entries of the cache are *)

Lemma Split_app_any a b :
  strings_Split (a +:+ String "/" b) "/"
  = strings_Split a "/" ++ strings_Split b "/".
Proof.
  induction a as [|c a IH]; simpl.
  - done.
  - destruct (decide (c = "/"%char)); [by rewrite IH|].
    rewrite IH.
    pose proof (Split_length a "/") as Hl.
    destruct (strings_Split a "/") as [|h t]; [done|]. done.
Qed.

Lemma Count_app a b c :
  strings_Count (a +:+ b) c = (strings_Count a c + strings_Count b c)%nat.
Proof.
  induction a as [|x a IH]; simpl; [done|].
  destruct (decide (x = c)); simpl; by rewrite IH.
Qed.

(** The key of SaveNetConf is one path element when the identifiers have
    no slash. *)
Lemma key_entryName cid podIfName :
  noSlash cid → noSlash podIfName →
  entryName (strings_Join [cid; podIfName] "-").
Proof.
  unfold noSlash. intros Hc Hi.
  change (strings_Join [cid; podIfName] "-") with (cid +:+ "-" +:+ podIfName).
  assert (1 ≤ strings_Count (cid +:+ "-" +:+ podIfName) "-")%nat as Hdash.
  { rewrite !Count_app. simpl. lia. }
  split.
  - repeat split; intros Heq; rewrite Heq in Hdash; simpl in Hdash; lia.
  - unfold noSlash. rewrite !Count_app, Hc, Hi. done.
Qed.

Lemma cleanStep_real r out c : realName c → cleanStep r out c = c :: out.
Proof.
  intros (H1 & H2 & H3). unfold cleanStep. by rewrite !decide_False.
Qed.

Lemma Join2_Split dir c :
  entryName c →
  strings_Split (filepath_Join [dir; c]) "/" = dirElems dir ++ [c] ∧
  isRooted (filepath_Join [dir; c]) = isRooted dir ∧
  filepath_Join [dir; c] ≠ "".
Proof.
  intros [Hreal Hns].
  assert (c ≠ "") as Hc by (by destruct Hreal).
  assert (∀ r path st,
            path ≠ "" → isRooted path = r →
            strings_Split path "/" = st ++ [c] →
            strings_Split (filepath_Clean path) "/"
            = (if r then [""] else []) ++ cleanElems r st ++ [c] ∧
            isRooted (filepath_Clean path) = r ∧
            filepath_Clean path ≠ "") as Hclean.
  { intros r path st Hp Hr Hsplit.
    assert (cleanStack r (c :: fold_left (cleanStep r) st [])) as Hst.
    { rewrite <- (cleanStep_real r _ c Hreal).
      apply cleanStep_stack, cleanFold_stack, cleanStack_nil. }
    assert (Forall noSlash (c :: fold_left (cleanStep r) st [])) as Hall.
    { constructor; [done|]. apply cleanFold_Forall; [done|].
      pose proof (Split_noSlash path) as Hn. rewrite Hsplit in Hn.
      by apply Forall_app in Hn as [Hn _]. }
    assert (filepath_Clean path
            = cleanRender r (rev (c :: fold_left (cleanStep r) st []))) as ->.
    { rewrite Clean_unfold by done. rewrite Hr, Hsplit. f_equal.
      unfold cleanElems. rewrite fold_left_app. simpl.
      by rewrite cleanStep_real. }
    split; [|split].
    - rewrite cleanRender_Split by done. f_equal. simpl.
      unfold cleanElems.
      by destruct (rev (fold_left (cleanStep r) st [])).
    - by apply cleanRender_rooted.
    - by apply cleanRender_nonempty. }
  unfold dirElems. simpl.
  destruct (decide (dir = "")) as [->|Hd].
  - simpl. rewrite decide_False by done.
    destruct (Hclean false c [] Hc) as (H1 & H2 & H3).
    + destruct c as [|x c']; [done|]. simpl.
      apply bool_decide_eq_false. intros ->.
      unfold noSlash in Hns. simpl in Hns. done.
    + by apply Split_single.
    + done.
  - change (strings_Join [dir; c] "/") with (dir +:+ String "/" c).
    rewrite <- app_assoc.
    apply (Hclean (isRooted dir) _ (strings_Split dir "/")).
    + by destruct dir.
    + by destruct dir.
    + etransitivity; [apply (Split_app_any dir c)|].
      by rewrite (Split_single c).
Qed.

Lemma walkWith_child expand fs kD c :
  realName c → walkWith expand fs false kD [c] = childKey fs kD c.
Proof.
  intros (H1 & H2 & H3). unfold childKey. simpl.
  destruct (nodeAt fs kD) as [[| |]|]; try done.
  rewrite !decide_False by done.
  by destruct (nodeAt fs (kD ++ [c])) as [[| |]|].
Qed.

Lemma walkWith_snoc expF expT fs cur elems c :
  realName c →
  (∀ t d r,
     expF t d (r ++ [c])
     = match expT t d r with
       | Done kD => childKey fs kD c
       | Fails e => Fails e
       end) →
  walkWith expF fs false cur (elems ++ [c])
  = match walkWith expT fs true cur elems with
    | Done kD => childKey fs kD c
    | Fails e => Fails e
    end.
Proof.
  intros Hc Hexp. revert cur.
  induction elems as [|c0 rest IH]; intros cur.
  - by apply walkWith_child.
  - simpl. destruct (nodeAt fs cur) as [[| |]|]; try done.
    destruct (decide (c0 = "")); [by apply IH|].
    destruct (decide (c0 = ".")); [by apply IH|].
    destruct (decide (c0 = "..")); [by apply IH|].
    destruct (nodeAt fs (cur ++ [c0])) as [[| |t]|]; try by apply IH.
    rewrite bool_decide_true by (by destruct rest). apply Hexp.
Qed.

(** An element after a name is looked up, unfollowed, in what the name
    denotes when followed. *)
Lemma walk_snoc fuel fs cur elems c :
  realName c →
  walk fuel fs false cur (elems ++ [c])
  = match walk fuel fs true cur elems with
    | Done kD => childKey fs kD c
    | Fails e => Fails e
    end.
Proof.
  intros Hc. revert cur elems. induction fuel as [|fuel IH]; intros cur elems.
  - rewrite !walk_O. by apply walkWith_snoc.
  - rewrite !walk_S. apply walkWith_snoc; [done|].
    intros t d r. unfold viaLink. destruct (decide (t = "")); [done|].
    rewrite app_assoc. apply IH.
Qed.

Lemma walkWith_snoc_follow expA expT fs cur elems c kf :
  (∀ kD, walkWith expA fs true kD [c] = Done kf →
     ∃ f, walk f fs true kD [c] = Done kf) →
  (∀ t d r, expA t d (r ++ [c]) = Done kf →
     ∃ kD f, expT t d r = Done kD ∧ walk f fs true kD [c] = Done kf) →
  walkWith expA fs true cur (elems ++ [c]) = Done kf →
  ∃ kD f,
    walkWith expT fs true cur elems = Done kD ∧
    walk f fs true kD [c] = Done kf.
Proof.
  intros Hbase Hexp. revert cur.
  induction elems as [|c0 rest IH]; intros cur H.
  - destruct (Hbase _ H) as [f Hf]. by exists cur, f.
  - simpl in *. destruct (nodeAt fs cur) as [[| |]|]; try done.
    destruct (decide (c0 = "")); [by apply IH|].
    destruct (decide (c0 = ".")); [by apply IH|].
    destruct (decide (c0 = "..")); [by apply IH|].
    destruct (nodeAt fs (cur ++ [c0])) as [[| |t]|]; try by apply IH.
    simpl in *. by apply Hexp.
Qed.

(** The same with the element followed: it is resolved from what the
    name before it denotes, with the links that are left. *)
Lemma walk_snoc_follow fuel fs cur elems c kf :
  walk fuel fs true cur (elems ++ [c]) = Done kf →
  ∃ kD f,
    walk fuel fs true cur elems = Done kD ∧
    walk f fs true kD [c] = Done kf.
Proof.
  revert cur elems. induction fuel as [|fuel IH]; intros cur elems.
  - rewrite !walk_O. apply walkWith_snoc_follow; [|done].
    intros kD H. by exists 0%nat.
  - rewrite !walk_S. apply walkWith_snoc_follow.
    + intros kD H. by exists (S fuel).
    + intros t d r. unfold viaLink. destruct (decide (t = "")); [done|].
      rewrite app_assoc. apply IH.
Qed.

(** An entry is looked up in the directory the data directory denotes. *)
Lemma locate_entry fs dir c k :
  entryName c →
  locate fs (filepath_Join [dir; c]) = Done k ↔
  ∃ kD, walk maxSymlinks fs true (startDir fs dir) (dirElems dir) = Done kD ∧
        isDirAt fs kD = true ∧ k = kD ++ [c].
Proof.
  intros Hc. destruct (Join2_Split dir c Hc) as (Hs & Hr & Hne).
  pose proof Hc as [Hreal _].
  unfold locate, startDir. rewrite decide_False by done.
  rewrite Hs, Hr, walk_snoc by done.
  destruct (walk _ fs true _ (dirElems dir)) as [kD|e]; simpl.
  - unfold childKey, isDirAt. destruct (nodeAt fs kD) as [[| |]|] eqn:Hk.
    + split; [done|]. intros (? & [= <-] & Hd & _). by rewrite Hk in Hd.
    + split.
      * intros [= <-]. exists kD. by rewrite Hk.
      * by intros (? & [= <-] & _ & ->).
    + split; [done|]. intros (? & [= <-] & Hd & _). by rewrite Hk in Hd.
    + split; [done|]. intros (? & [= <-] & Hd & _). by rewrite Hk in Hd.
  - split; [done|]. by intros (? & [=] & _).
Qed.

(** An entry that can be read and is no link is a regular file at the
    key of its name. *)
Lemma Read_entry fs path data :
  filepath_Clean path = path →
  ReadScratchNetConf fs path = (data, None) →
  (∀ target, os_Readlink fs path ≠ inl target) →
  ∃ k perm, locate fs path = Done k ∧ nodeAt fs k = Some (File perm data).
Proof.
  unfold ReadScratchNetConf, os_ReadFile, os_Readlink.
  intros -> Hread Hnolink.
  destruct (locate fs path) as [k|e] eqn:Hl.
  - destruct (nodeAt fs k) as [[p d|p|t]|] eqn:Hk.
    + rewrite (locate_follow _ _ _ Hl) in Hread by (intros t; by rewrite Hk).
      rewrite Hk in Hread. inversion Hread; subst. by exists k, p.
    + rewrite (locate_follow _ _ _ Hl) in Hread by (intros t; by rewrite Hk).
      by rewrite Hk in Hread.
    + by destruct (Hnolink t).
    + rewrite (locate_follow _ _ _ Hl) in Hread by (intros t; by rewrite Hk).
      by rewrite Hk in Hread.
  - by rewrite (locate_fails _ _ _ Hl) in Hread.
Qed.

Lemma Read_file fs path k perm data :
  filepath_Clean path = path →
  locate fs path = Done k → nodeAt fs k = Some (File perm data) →
  ReadScratchNetConf fs path = (data, None).
Proof.
  intros Hc Hl Hk. unfold ReadScratchNetConf, os_ReadFile.
  rewrite Hc, (locate_follow _ _ _ Hl) by (intros t; by rewrite Hk).
  by rewrite Hk.
Qed.

Lemma Join2_Clean dir c :
  entryName c →
  filepath_Clean (filepath_Join [dir; c]) = filepath_Join [dir; c].
Proof.
  intros Hc. destruct (Join_Clean [dir; c]) as [H|H]; [|done].
  by destruct (Join2_Split dir c Hc) as (_ & _ & Hne).
Qed.

Lemma ReadFile_inv fs name data :
  os_ReadFile fs name = inl data →
  ∃ k p, locateFollow fs name = Done k ∧ nodeAt fs k = Some (File p data).
Proof.
  unfold os_ReadFile. destruct (locateFollow fs name) as [k|]; [|done].
  destruct (nodeAt fs k) as [[p d| |]|] eqn:Hk; try done.
  intros [= <-]. eauto.
Qed.

(** *** Past a regular file, and past a deleted entry *)

Lemma walkWith_past_file expT expF fs cur l rest kf p d :
  rest ≠ [] → nodeAt fs kf = Some (File p d) →
  (∀ t dd r k, expT t dd r = Done kf → expF t dd (r ++ rest) ≠ Done k) →
  walkWith expT fs true cur l = Done kf →
  ∀ k, walkWith expF fs false cur (l ++ rest) ≠ Done k.
Proof.
  intros Hrest Hkf Hexp. revert cur.
  induction l as [|c l IH]; intros cur H k.
  - simpl in H. inversion H; subst. simpl.
    destruct rest as [|c rest]; [done|]. simpl. by rewrite Hkf.
  - simpl in *. destruct (nodeAt fs cur) as [[| |]|]; try done.
    destruct (decide (c = "")); [by apply IH|].
    destruct (decide (c = ".")); [by apply IH|].
    destruct (decide (c = "..")); [by apply IH|].
    destruct (nodeAt fs (cur ++ [c])) as [[| |t]|]; try by apply IH.
    rewrite bool_decide_true by (destruct l; [by destruct rest|done]).
    by apply Hexp.
Qed.

(** A name that denotes a regular file denotes nothing with more elements
    after it, however many links are allowed. *)
Lemma walk_past_file fuel' fuel fs cur l rest kf p d :
  rest ≠ [] → nodeAt fs kf = Some (File p d) →
  walk fuel fs true cur l = Done kf →
  ∀ k, walk fuel' fs false cur (l ++ rest) ≠ Done k.
Proof.
  intros Hrest Hkf. revert fuel cur l.
  induction fuel' as [|fuel' IH]; intros fuel cur l.
  - rewrite walk_O. destruct fuel; [rewrite walk_O|rewrite walk_S];
      by apply (walkWith_past_file _ _ _ _ _ _ _ p d).
  - rewrite walk_S. destruct fuel as [|fuel]; [rewrite walk_O|rewrite walk_S];
      apply (walkWith_past_file _ _ _ _ _ _ _ p d); try done.
    intros t dd r k. unfold viaLink. destruct (decide (t = "")); [done|].
    intros H. rewrite app_assoc. by eapply IH.
Qed.

Lemma walkWith_delete_other expF expD fs cur elems k k0 :
  k0 ≠ [] → k ≠ k0 →
  (∀ p, nodeAt fs k0 ≠ Some (Dir p)) →
  (∀ t, nodeAt fs k0 = Some (Symlink t) →
     ∀ r k', r ≠ [] → expF t (parent k0) r ≠ Done k') →
  (∀ t d r, expF t d r = Done k → expD t d r = Done k) →
  walkWith expF fs false cur elems = Done k →
  walkWith expD (fsDelete fs k0) false cur elems = Done k.
Proof.
  intros Hk0 Hne Hnd Hblock Hexp. revert cur.
  induction elems as [|c rest IH]; simpl; [done|]. intros cur H.
  rewrite nodeAt_delete by done.
  destruct (nodeAt fs cur) as [[| perm |]|] eqn:Hcur; try done.
  rewrite decide_False by (intros ->; by destruct (Hnd perm)).
  destruct (decide (c = "")); [by apply IH|].
  destruct (decide (c = ".")); [by apply IH|].
  destruct (decide (c = "..")); [by apply IH|].
  rewrite nodeAt_delete by done.
  destruct (decide (k0 = cur ++ [c])) as [Hkc|Hkc].
  - exfalso. rewrite <- Hkc in H.
    destruct (nodeAt fs k0) as [[| q |t]|] eqn:Hn.
    + destruct rest as [|c' rest]; simpl in H.
      * inversion H. by destruct Hne.
      * by rewrite Hn in H.
    + by destruct (Hnd q).
    + destruct rest as [|c' rest]; simpl in H.
      * inversion H. by destruct Hne.
      * apply (Hblock t eq_refl (c' :: rest) k); [done|].
        by rewrite Hkc, parent_snoc.
    + destruct rest as [|c' rest]; simpl in H.
      * inversion H. by destruct Hne.
      * by rewrite Hn in H.
  - destruct (nodeAt fs (cur ++ [c])) as [[| |t]|]; try by apply IH.
    simpl in *. destruct (bool_decide (rest ≠ [])); [by apply Hexp|by apply IH].
Qed.

(** A name keeps its key when another key is deleted that no name gets
    past: one that holds no directory, and no link that leads on. *)
Lemma walk_delete_other fuel fs cur elems k k0 :
  k0 ≠ [] → k ≠ k0 →
  (∀ p, nodeAt fs k0 ≠ Some (Dir p)) →
  (∀ t, nodeAt fs k0 = Some (Symlink t) →
     ∀ f r k', r ≠ [] → viaLink (walk f fs false) t (parent k0) r ≠ Done k') →
  walk fuel fs false cur elems = Done k →
  walk fuel (fsDelete fs k0) false cur elems = Done k.
Proof.
  intros Hk0 Hne Hnd Hblock. revert cur elems.
  induction fuel as [|fuel IH]; intros cur elems.
  - rewrite !walk_O. by apply walkWith_delete_other.
  - rewrite !walk_S. apply walkWith_delete_other; try done.
    + intros t Ht. by apply Hblock.
    + intros t d r. unfold viaLink. destruct (decide (t = "")); [done|].
      apply IH.
Qed.

(** ** Entries of the cache do not disturb one another *)

Lemma saveScratchNetConf_inv fs containerID dataDir netconf fs' :
  saveScratchNetConf fs containerID dataDir netconf = (None, fs') →
  ∃ fs1,
    os_MkdirAll fs dataDir 448 = (None, fs1) ∧
    os_WriteFile fs1 (filepath_Join [dataDir; containerID]) netconf 384
      = (None, fs').
Proof.
  unfold saveScratchNetConf.
  destruct (os_MkdirAll fs dataDir 448) as [[e|] fs1]; [done|].
  destruct (os_WriteFile fs1 _ netconf 384) as [[e|] fs2] eqn:Hw; [done|].
  intros [= <-]. by exists fs1.
Qed.

Lemma saveScratchNetConf_keeps fs c1 c2 dataDir netconf data1 fs' :
  entryName c1 → entryName c2 → c1 ≠ c2 →
  ReadScratchNetConf fs (filepath_Join [dataDir; c1]) = (data1, None) →
  (∀ t, os_Readlink fs (filepath_Join [dataDir; c1]) ≠ inl t) →
  (∀ t, os_Readlink fs (filepath_Join [dataDir; c2]) ≠ inl t) →
  saveScratchNetConf fs c2 dataDir netconf = (None, fs') →
  ReadScratchNetConf fs' (filepath_Join [dataDir; c1]) = (data1, None).
Proof.
  intros Hc1 Hc2 Hne Hread Hnl1 Hnl2 Hsave.
  destruct (Read_entry _ _ _ (Join2_Clean dataDir c1 Hc1) Hread Hnl1)
    as (k1 & p1 & Hl1 & Hk1).
  apply (locate_entry _ _ _ _ Hc1) in Hl1 as Hl1'.
  destruct Hl1' as (kD & Hw & Hd & ->).
  assert (locate fs (filepath_Join [dataDir; c2]) = Done (kD ++ [c2])) as Hl2.
  { apply locate_entry; [done|]. by exists kD. }
  assert (∀ t, nodeAt fs (kD ++ [c2]) ≠ Some (Symlink t)) as Hns2.
  { intros t Ht. apply (Hnl2 t). unfold os_Readlink. by rewrite Hl2, Ht. }
  apply saveScratchNetConf_inv in Hsave as (fs1 & Hmk & Hwr).
  destruct (MkdirAll_grows _ _ _ _ _ Hmk) as (Hg1 & Hkeep & _).
  pose proof (WriteFile_grows _ _ _ _ _ Hwr) as Hg2.
  apply WriteFile_inv in Hwr as (kf & pm & Hlf & _ & _ & _ & _ & ->).
  assert (kf = kD ++ [c2]) as ->.
  { apply (grows_locate _ _ _ _ Hg1) in Hl2.
    rewrite (locate_follow _ _ _ Hl2) in Hlf; [by inversion Hlf|].
    intros t Ht. destruct Hg1 as (_ & _ & Hs). apply Hs in Ht.
    by destruct (Hns2 t). }
  apply (Read_file _ _ (kD ++ [c1]) p1); [by apply Join2_Clean| |].
  - eapply grows_locate; [|exact Hl1]. by eapply grows_trans.
  - rewrite nodeAt_insert by apply snoc_ne_nil. rewrite decide_False.
    + by apply Hkeep.
    + intros Heq. apply app_inj_tail in Heq as [_ Heq]. by destruct Hne.
Qed.

(** X13. Saving one entry leaves another one alone: for identifiers
    without slash and two different keys in the same data directory,
    neither entry being a symbolic link, an entry that could be read
    before a successful SaveNetConf of the other reads the same after. *)
Theorem SaveNetConf_keeps_other_entries {Conf}
    (json_Marshal : Conf → list Byte.byte + error)
    (fs fs' : FS) (dataDir cid1 if1 cid2 if2 : string) (conf2 : Conf)
    (data1 : list Byte.byte) :
  noSlash cid1 → noSlash if1 → noSlash cid2 → noSlash if2 →
  strings_Join [cid1; if1] "-" ≠ strings_Join [cid2; if2] "-" →
  ReadScratchNetConf fs
    (filepath_Join [dataDir; strings_Join [cid1; if1] "-"]) = (data1, None) →
  (∀ t, os_Readlink fs
          (filepath_Join [dataDir; strings_Join [cid1; if1] "-"]) ≠ inl t) →
  (∀ t, os_Readlink fs
          (filepath_Join [dataDir; strings_Join [cid2; if2] "-"]) ≠ inl t) →
  SaveNetConf json_Marshal fs cid2 dataDir if2 conf2 = (None, fs') →
  ReadScratchNetConf fs'
    (filepath_Join [dataDir; strings_Join [cid1; if1] "-"]) = (data1, None).
Proof.
  intros H1 H2 H3 H4 Hne Hread Hnl1 Hnl2 Hsave.
  unfold SaveNetConf in Hsave.
  destruct (json_Marshal conf2) as [b|]; [|done].
  apply (saveScratchNetConf_keeps fs (strings_Join [cid1; if1] "-")
           (strings_Join [cid2; if2] "-") dataDir b data1 fs');
    try done; by apply key_entryName.
Qed.

Lemma SaveNetConf_keeps_other_entries_witness :
  ReadScratchNetConf cacheFS2 "/var/lib/cni/abc-net1" = (bytesOf "42", None) ∧
  ReadScratchNetConf cacheFS2 "/var/lib/cni/abc-net2" = (bytesOf "7", None).
Proof.
  split; [|by vm_compute].
  apply (SaveNetConf_keeps_other_entries marshalZ cacheFS cacheFS2
           "/var/lib/cni" "abc" "net1" "abc" "net2" 7);
    try done; try (by vm_compute).
Defined.

(** A readable entry is a regular file or a link that ends at one, and no
    name gets past it. *)
Lemma entry_blocks fs dir c data kD :
  entryName c →
  os_ReadFile fs (filepath_Join [dir; c]) = inl data →
  locate fs (filepath_Join [dir; c]) = Done (kD ++ [c]) →
  (∀ p, nodeAt fs (kD ++ [c]) ≠ Some (Dir p)) ∧
  (∀ t, nodeAt fs (kD ++ [c]) = Some (Symlink t) →
     ∀ f r k', r ≠ [] →
       viaLink (walk f fs false) t (parent (kD ++ [c])) r ≠ Done k').
Proof.
  intros Hc Hrf Hl. split.
  - intros p Hdir. unfold os_ReadFile in Hrf.
    rewrite (locate_follow _ _ _ Hl) in Hrf by (intros t; by rewrite Hdir).
    by rewrite Hdir in Hrf.
  - intros t Ht f r k' Hr.
    apply ReadFile_inv in Hrf as (kf & p & Hlf & Hkf).
    destruct (Join2_Split dir c Hc) as (Hs & Hroot & Hne).
    apply (locate_entry _ _ _ _ Hc) in Hl as (kD' & Hw & Hd & Heq).
    apply app_inj_tail in Heq as [<- _].
    unfold locateFollow in Hlf. rewrite decide_False in Hlf by done.
    unfold startDir in *. rewrite Hs, Hroot in Hlf.
    apply walk_snoc_follow in Hlf as (kD2 & f2 & Hw2 & Hlast).
    rewrite Hw in Hw2. inversion Hw2; subst kD2.
    rewrite parent_snoc. unfold viaLink.
    destruct (decide (t = "")) as [|Hte]; [done|].
    pose proof Hc as [(H1 & H2 & H3) _].
    unfold isDirAt in Hd.
    destruct (nodeAt fs kD) as [[|q|]|] eqn:HkD; try done.
    destruct f2 as [|f2].
    + rewrite walk_O in Hlast. simpl in Hlast.
      rewrite HkD, !decide_False, Ht in Hlast by done. done.
    + rewrite walk_S in Hlast. simpl in Hlast.
      rewrite HkD, !decide_False, Ht in Hlast by done. simpl in Hlast.
      unfold viaLink in Hlast. rewrite decide_False in Hlast by done.
      pose proof (walk_past_file f f2 fs _ _ r kf p data Hr Hkf Hlast k')
        as Hpast.
      by rewrite <- app_assoc in Hpast.
Qed.

(** X14. Clearing one entry leaves another one alone: for identifiers
    without slash and two different keys in the same data directory, both
    entries readable and the one kept no symbolic link, the entry kept
    reads the same after a CleanCachedNetConf of the other that returns no
    error, and the other cannot be read any more. *)
Theorem CleanCachedNetConf_keeps_other_entries
    (fs fs' : FS) (dataDir cid1 if1 cid2 if2 : string)
    (data1 data2 : list Byte.byte) :
  noSlash cid1 → noSlash if1 → noSlash cid2 → noSlash if2 →
  strings_Join [cid1; if1] "-" ≠ strings_Join [cid2; if2] "-" →
  ReadScratchNetConf fs
    (filepath_Join [dataDir; strings_Join [cid1; if1] "-"]) = (data1, None) →
  (∀ t, os_Readlink fs
          (filepath_Join [dataDir; strings_Join [cid1; if1] "-"]) ≠ inl t) →
  ReadScratchNetConf fs
    (filepath_Join [dataDir; strings_Join [cid2; if2] "-"]) = (data2, None) →
  CleanCachedNetConf fs
    (filepath_Join [dataDir; strings_Join [cid2; if2] "-"]) = (None, fs') →
  ReadScratchNetConf fs'
    (filepath_Join [dataDir; strings_Join [cid1; if1] "-"]) = (data1, None) ∧
  isErr (ReadScratchNetConf fs'
           (filepath_Join [dataDir; strings_Join [cid2; if2] "-"])).
Proof.
  intros H1 H2 H3 H4 Hne Hread Hnl1 Hread2 Hclean.
  pose proof (key_entryName _ _ H1 H2) as Hc1.
  pose proof (key_entryName _ _ H3 H4) as Hc2.
  set (c1 := strings_Join [cid1; if1] "-") in *.
  set (c2 := strings_Join [cid2; if2] "-") in *.
  destruct (Read_entry _ _ _ (Join2_Clean dataDir c1 Hc1) Hread Hnl1)
    as (k1 & p1 & Hl1 & Hk1).
  apply (locate_entry _ _ _ _ Hc1) in Hl1 as Hl1'.
  destruct Hl1' as (kD & Hw & Hd & ->).
  assert (os_ReadFile fs (filepath_Join [dataDir; c2]) = inl data2) as Hrf2.
  { unfold ReadScratchNetConf in Hread2.
    rewrite (Join2_Clean dataDir c2 Hc2) in Hread2.
    destruct (os_ReadFile fs _); by inversion Hread2. }
  destruct (ReadFile_Stat _ _ _ Hrf2) as [fi Hst].
  unfold CleanCachedNetConf in Hclean. rewrite Hst in Hclean.
  destruct (os_Remove fs _) as [[e|] fs2] eqn:Hrm; [done|].
  inversion Hclean; subst fs2.
  destruct (Remove_gone _ _ _ Hrm) as (k2 & Hl2 & Hk2 & ->).
  assert (k2 = kD ++ [c2]) as ->.
  { apply (locate_entry _ _ _ _ Hc2) in Hl2 as (kD' & Hw' & _ & ->).
    rewrite Hw in Hw'. by inversion Hw'. }
  destruct (entry_blocks _ _ _ _ _ Hc2 Hrf2 Hl2) as (Hnd & Hblock).
  assert (kD ++ [c1] ≠ kD ++ [c2]) as Hkne.
  { intros Heq. apply app_inj_tail in Heq as [_ Heq]. by destruct Hne. }
  split.
  - apply (Read_file _ _ (kD ++ [c1]) p1); [by apply Join2_Clean| |].
    + unfold locate in Hl1 |- *.
      destruct (decide (filepath_Join [dataDir; c1] = "")); [done|].
      change (startDir (fsDelete fs (kD ++ [c2])) (filepath_Join [dataDir; c1]))
        with (startDir fs (filepath_Join [dataDir; c1])).
      by apply walk_delete_other.
    + rewrite nodeAt_delete by done. by rewrite decide_False.
  - unfold isErr, ReadScratchNetConf. rewrite (Join2_Clean dataDir c2 Hc2).
    by destruct (ReadFile_deleted _ _ _ Hk2 Hl2) as [e ->].
Qed.

Lemma CleanCachedNetConf_keeps_other_entries_witness :
  ∃ fs',
    CleanCachedNetConf cacheFS2 "/var/lib/cni/abc-net2" = (None, fs') ∧
    ReadScratchNetConf fs' "/var/lib/cni/abc-net1" = (bytesOf "42", None).
Proof.
  destruct (CleanCachedNetConf cacheFS2 "/var/lib/cni/abc-net2")
    as [r fs'] eqn:Hc.
  assert (r = None) as ->.
  { apply (f_equal fst) in Hc. vm_compute in Hc. by subst. }
  exists fs'. split; [done|].
  by destruct (CleanCachedNetConf_keeps_other_entries cacheFS2 fs'
              "/var/lib/cni" "abc" "net1" "abc" "net2"
              (bytesOf "42") (bytesOf "7")
              ltac:(done) ltac:(done) ltac:(done) ltac:(done) ltac:(done)
              ltac:(by vm_compute) ltac:(by vm_compute) ltac:(by vm_compute)
              Hc) as [H _].
Defined.

(** X15. PathExists agrees with the cache: after a successful SaveNetConf
    it reports the entry path as existing, and after a CleanCachedNetConf
    that returned no error it reports the path as not existing, both
    without error. *)
Theorem PathExists_after
    {Conf} (json_Marshal : Conf → list Byte.byte + error) :
  (∀ fs fs' cid dataDir podIfName conf,
     SaveNetConf json_Marshal fs cid dataDir podIfName conf = (None, fs') →
     PathExists fs'
       (filepath_Join [dataDir; strings_Join [cid; podIfName] "-"])
     = (true, None)) ∧
  (∀ fs fs' cRefPath,
     CleanCachedNetConf fs cRefPath = (None, fs') →
     PathExists fs' cRefPath = (false, None)).
Proof.
  split.
  - intros fs fs' cid dataDir podIfName conf Hsave.
    unfold SaveNetConf in Hsave.
    destruct (json_Marshal conf) as [b|]; [|done].
    apply saveScratchNetConf_inv in Hsave as (fs1 & _ & Hwr).
    apply WriteFile_ReadFile in Hwr.
    destruct (ReadFile_Stat _ _ _ Hwr) as [fi Hst].
    unfold PathExists. by rewrite Hst.
  - intros fs fs' p Hclean. unfold CleanCachedNetConf in Hclean.
    unfold PathExists.
    destruct (os_Stat fs p) as [fi|err] eqn:Hst.
    + destruct (os_Remove fs p) as [[e|] fs2] eqn:Hrm; [done|].
      inversion Hclean; subst fs2.
      destruct (Remove_gone _ _ _ Hrm) as (k & Hl & Hk & ->).
      by rewrite (Stat_deleted _ _ _ Hk Hl).
    + destruct (os_IsNotExist err) eqn:He; [|done].
      inversion Hclean; subst fs'. by rewrite Hst, He.
Qed.

Lemma PathExists_after_witness :
  PathExists cacheFS "/var/lib/cni/abc-net1" = (true, None) ∧
  PathExists (CleanCachedNetConf cacheFS "/var/lib/cni/abc-net1").2
    "/var/lib/cni/abc-net1" = (false, None).
Proof.
  destruct (PathExists_after marshalZ) as [Hsave Hclean].
  split.
  - apply (Hsave emptyFS cacheFS "abc" "/var/lib/cni" "net1" 42).
    by vm_compute.
  - apply (Hclean cacheFS). by vm_compute.
Defined.

(** ** The data directory *)

Lemma IsDir_Dir name perm : IsDir (mkFileInfo name (modeOf (Dir perm))) = true.
Proof.
  unfold IsDir. simpl. apply negb_true_iff, Z.eqb_neq. intros H.
  apply (f_equal (λ z, Z.testbit z 31)) in H.
  rewrite Z.land_spec, Z.lor_spec in H.
  by replace (Z.testbit ModeDir 31) with true in H by by vm_compute.
Qed.

Lemma IsDir_inv name n :
  IsDir (mkFileInfo name (modeOf n)) = true → ∃ perm, n = Dir perm.
Proof.
  destruct n as [p d|p|t]; [|by eauto|by vm_compute].
  unfold IsDir. simpl.
  rewrite <- Z.land_assoc.
  replace (Z.land ModePerm ModeDir) with 0 by by vm_compute.
  by rewrite Z.land_0_r.
Qed.

Lemma Stat_dir fs name k perm :
  locateFollow fs name = Done k → nodeAt fs k = Some (Dir perm) →
  ∃ fi, os_Stat fs name = inl fi ∧ IsDir fi = true.
Proof.
  intros Hl Hk. unfold os_Stat. rewrite Hl, Hk.
  eexists. split; [done|]. apply IsDir_Dir.
Qed.

Lemma Stat_dir_inv fs name fi :
  os_Stat fs name = inl fi → IsDir fi = true →
  ∃ k perm, locateFollow fs name = Done k ∧ nodeAt fs k = Some (Dir perm).
Proof.
  unfold os_Stat. destruct (locateFollow fs name) as [k|]; [|done].
  destruct (nodeAt fs k) as [n|] eqn:Hk; [|done].
  intros [= <-] Hd. apply IsDir_inv in Hd as [perm ->]. eauto.
Qed.

Lemma Lstat_dir_inv fs name fi :
  os_Lstat fs name = inl fi → IsDir fi = true →
  ∃ k perm, locate fs name = Done k ∧ nodeAt fs k = Some (Dir perm).
Proof.
  unfold os_Lstat. destruct (locate fs name) as [k|]; [|done].
  destruct (nodeAt fs k) as [n|] eqn:Hk; [|done].
  intros [= <-] Hd. apply IsDir_inv in Hd as [perm ->]. eauto.
Qed.

Lemma dropEmptyTail_app elems :
  ∃ ex, Forall (λ c, c = "") ex ∧ elems = dropEmptyTail elems ++ ex.
Proof.
  induction elems as [|c rest (ex & Hex & IH)]; simpl.
  - by exists [].
  - destruct (dropEmptyTail rest) as [|x l] eqn:Hd.
    + destruct (decide (c = "")) as [->|].
      * exists ("" :: ex). split; [by constructor|]. simpl in IH. by rewrite IH.
      * exists ex. split; [done|]. simpl in *. by rewrite IH.
    + exists ex. split; [done|]. simpl in *. by rewrite IH.
Qed.

Lemma walkWith_empties_dir expand fs flw k ex :
  Forall (λ c, c = "") ex → isDirAt fs k = true →
  walkWith expand fs flw k ex = Done k.
Proof.
  intros Hex Hd. induction Hex as [|c ex -> _ IH]; simpl; [done|].
  unfold isDirAt in Hd. destruct (nodeAt fs k) as [[| |]|]; try done.
Qed.

Lemma walkWith_trailing expF expT fs cur l ex k :
  Forall (λ c, c = "") ex →
  (∀ t d r k', expF t d r = Done k' → isDirAt fs k' = true →
     expT t d (r ++ ex) = Done k') →
  walkWith expF fs false cur l = Done k → isDirAt fs k = true →
  walkWith expT fs true cur (l ++ ex) = Done k.
Proof.
  intros Hex Hexp. revert cur.
  induction l as [|c rest IH]; intros cur H Hd.
  - simpl in H. inversion H; subst. by apply walkWith_empties_dir.
  - simpl in *. destruct (nodeAt fs cur) as [[| |]|]; try done.
    destruct (decide (c = "")); [by apply IH|].
    destruct (decide (c = ".")); [by apply IH|].
    destruct (decide (c = "..")); [by apply IH|].
    destruct (nodeAt fs (cur ++ [c])) as [[| |t]|] eqn:Hk; try by apply IH.
    simpl. destruct rest as [|c' rest]; simpl in H.
    + inversion H; subst. unfold isDirAt in Hd. by rewrite Hk in Hd.
    + by apply Hexp.
Qed.

(** A name that denotes a directory, its last element not followed,
    denotes it with slashes after it and the last element followed. *)
Lemma walk_trailing fuel fs cur l ex k :
  Forall (λ c, c = "") ex →
  walk fuel fs false cur l = Done k → isDirAt fs k = true →
  walk fuel fs true cur (l ++ ex) = Done k.
Proof.
  intros Hex. revert cur l k. induction fuel as [|fuel IH]; intros cur l k.
  - rewrite !walk_O. by apply walkWith_trailing.
  - rewrite !walk_S. apply walkWith_trailing; [done|].
    intros t d r k'. unfold viaLink. destruct (decide (t = "")); [done|].
    rewrite app_assoc. apply IH.
Qed.

(** What the last step of MkdirAll leaves when it reports no error. *)
Lemma mkdirAll_last_dir fs1 path perm fs' :
  match os_Mkdir fs1 path perm with
  | (None, fs2) => (None, fs2)
  | (Some err, fs2) =>
      match os_Lstat fs2 path with
      | inl dir => if IsDir dir then (None, fs2) else (Some err, fs2)
      | inr _ => (Some err, fs2)
      end
  end = (None, fs') →
  ∃ k p, locateFollow fs' path = Done k ∧ nodeAt fs' k = Some (Dir p).
Proof.
  destruct (os_Mkdir fs1 path perm) as [[e|] fs2] eqn:Hm.
  - destruct (os_Lstat fs2 path) as [fi|] eqn:Hl; [|done].
    destruct (IsDir fi) eqn:Hd; [|done]. intros [= <-].
    destruct (Lstat_dir_inv _ _ _ Hl Hd) as (k & p & Hloc & Hk).
    exists k, p. split; [|done].
    apply locate_follow; [done|]. intros t. by rewrite Hk.
  - intros [= <-]. pose proof (Mkdir_grows _ _ _ _ _ Hm) as (Hg & _).
    apply Mkdir_inv in Hm as (k & p & Hne & Hw & Hk0 & _ & _ & ->).
    exists k, perm.
    assert (nodeAt (fsInsert fs1 k (Dir perm)) k = Some (Dir perm)) as Hk.
    { rewrite nodeAt_insert by done. by rewrite decide_True. }
    split; [|done].
    unfold locateFollow. rewrite decide_False by done.
    change (startDir (fsInsert fs1 k (Dir perm)) path)
      with (startDir fs1 path).
    destruct (dropEmptyTail_app (strings_Split path "/")) as (ex & Hex & Heq).
    rewrite Heq. apply walk_trailing; [done| |].
    + by apply (walk_grows _ fs1).
    + unfold isDirAt. by rewrite Hk.
Qed.

Lemma mkdirAll_dir fuel fs path perm fs' :
  mkdirAll fuel fs path perm = (None, fs') →
  ∃ k p, locateFollow fs' path = Done k ∧ nodeAt fs' k = Some (Dir p).
Proof.
  destruct fuel as [|fuel]; simpl.
  - destruct (os_Stat fs path) as [fi|] eqn:Hst.
    { destruct (IsDir fi) eqn:Hd; [|done]. intros [= <-].
      by eapply Stat_dir_inv. }
    apply mkdirAll_last_dir.
  - destruct (os_Stat fs path) as [fi|err0] eqn:Hst.
    { destruct (IsDir fi) eqn:Hd; [|done]. intros [= <-].
      by eapply Stat_dir_inv. }
    destruct (if decide (parentOf path = "") then (None, fs)
              else mkdirAll fuel fs (parentOf path) perm) as [[e1|] fs1];
      [done|].
    apply mkdirAll_last_dir.
Qed.

(** X16. A successful SaveNetConf leaves the data directory in place: on
    a file tree in which every node sits in a directory, Stat of dataDir
    afterwards finds a directory. *)
Theorem SaveNetConf_makes_dataDir {Conf}
    (json_Marshal : Conf → list Byte.byte + error)
    (fs fs' : FS) (cid dataDir podIfName : string) (conf : Conf) :
  wfFS fs →
  SaveNetConf json_Marshal fs cid dataDir podIfName conf = (None, fs') →
  ∃ fi, os_Stat fs' dataDir = inl fi ∧ IsDir fi = true.
Proof.
  intros Hwf Hsave. unfold SaveNetConf in Hsave.
  destruct (json_Marshal conf) as [b|]; [|done].
  apply saveScratchNetConf_inv in Hsave as (fs1 & Hmk & Hwr).
  apply mkdirAll_dir in Hmk as (k & p & Hl & Hk).
  apply WriteFile_grows in Hwr as Hg.
  apply (Stat_dir fs' dataDir k p).
  - by eapply grows_locateFollow.
  - destruct Hg as (_ & Hd & _). by apply Hd.
Qed.

Lemma SaveNetConf_makes_dataDir_witness :
  ∃ fi, os_Stat cacheFS "/var/lib/cni" = inl fi ∧ IsDir fi = true.
Proof.
  apply (SaveNetConf_makes_dataDir marshalZ emptyFS cacheFS
           "abc" "/var/lib/cni" "net1" 42).
  - apply (bool_decide_unpack _). by vm_compute.
  - by vm_compute.
Defined.

Example SaveNetConf_through_link :
  (SaveNetConf marshalZ varRunFS "abc" "/var/run/cni" "net1" 42).1 = None ∧
  nodeAt (SaveNetConf marshalZ varRunFS "abc" "/var/run/cni" "net1" 42).2
    ["run"; "cni"; "abc-net1"] = Some (File 384 (bytesOf "42")) ∧
  ReadScratchNetConf
    (SaveNetConf marshalZ varRunFS "abc" "/var/run/cni" "net1" 42).2
    "/var/run/cni/abc-net1" = (bytesOf "42", None).
Proof. repeat split; by vm_compute. Qed.

Example MkdirAll_examples :
  (os_MkdirAll emptyFS "/a/b/" 493).1 = None ∧
  (os_MkdirAll cacheFS "/var/lib/cni/abc-net1/x" 448).1
    = Some (PathError "mkdir" "/var/lib/cni/abc-net1" ENOTDIR) ∧
  (os_MkdirAll (withNode "/l" (Symlink "/gone") emptyFS) "/l/x" 448).1
    = Some (PathError "mkdir" "/l" EEXIST) ∧
  os_MkdirAll emptyFS "" 448 = (Some (PathError "mkdir" "" ENOENT), emptyFS).
Proof. repeat split; by vm_compute. Qed.

(** X17. A SaveNetConf that fails before it writes, the error being that
    of json.Marshal or of MkdirAll, has changed and removed nothing that
    existed: every node of the file tree is as it was (directories made
    before the failure may have been added). *)
Theorem SaveNetConf_error_keeps {Conf}
    (json_Marshal : Conf → list Byte.byte + error)
    (fs fs' : FS) (cid dataDir podIfName : string) (conf : Conf) (e : error) :
  SaveNetConf json_Marshal fs cid dataDir podIfName conf = (Some e, fs') →
  (∀ path err,
     e ≠ Errorf "failed to write container data in the path(%q): %v"
           [AStr path; AErr err]) →
  ∀ k n, nodeAt fs k = Some n → nodeAt fs' k = Some n.
Proof.
  unfold SaveNetConf, saveScratchNetConf.
  destruct (json_Marshal conf) as [b|]; [|by intros [= _ <-]].
  destruct (os_MkdirAll fs dataDir 448) as [[e1|] fs1] eqn:Hmk.
  - intros [= _ <-] _. by apply (MkdirAll_grows _ _ _ _ _ Hmk).
  - destruct (os_WriteFile fs1 _ b 384) as [[e2|] fs2] eqn:Hwr; [|done].
    intros [= <- _] Hne. exfalso. eapply Hne. reflexivity.
Qed.

Lemma SaveNetConf_error_keeps_witness :
  ∃ e fs',
    SaveNetConf marshalZ cacheFS "c" "/var/lib/cni/abc-net1" "x" 5
      = (Some e, fs') ∧
    nodeAt fs' ["var"; "lib"; "cni"; "abc-net1"]
      = Some (File 384 (bytesOf "42")).
Proof.
  destruct (SaveNetConf marshalZ cacheFS "c" "/var/lib/cni/abc-net1" "x" 5)
    as [r fs'] eqn:Hs.
  destruct r as [e|]; [|apply (f_equal fst) in Hs; by vm_compute in Hs].
  exists e, fs'. split; [done|].
  apply (SaveNetConf_error_keeps marshalZ cacheFS fs'
           "c" "/var/lib/cni/abc-net1" "x" 5 e Hs).
  - apply (f_equal fst) in Hs. vm_compute in Hs. inversion Hs; subst e.
    by intros path err.
  - by vm_compute.
Defined.

(** ** The notify switches *)

Lemma WriteFile_same_data fs name name' data perm fs' :
  os_ReadFile fs name' = inl data →
  os_WriteFile fs name data perm = (None, fs') →
  os_ReadFile fs' name' = inl data.
Proof.
  intros Hr Hw. pose proof (WriteFile_grows _ _ _ _ _ Hw) as Hg.
  apply ReadFile_inv in Hr as (k & p & Hl & Hk).
  apply WriteFile_inv in Hw as (kf & pm & _ & Hkf & _ & _ & _ & ->).
  unfold os_ReadFile. rewrite (grows_locateFollow _ _ _ _ Hg Hl).
  rewrite nodeAt_insert by done. case_decide; [done|by rewrite Hk].
Qed.

(** X18. EnableArpAndNdiscNotify writes the two switches in order and
    undoes nothing: when it returns nil both files read 1; when the first
    write fails the error names arp_notify and nothing has changed; when
    the second fails the error names ndisc_notify and arp_notify stays
    at 1. *)
Theorem EnableArpAndNdiscNotify_effect (fs fs' : FS) (ifName : string)
    (r : option error) :
  EnableArpAndNdiscNotify fs ifName = (r, fs') →
  match r with
  | None =>
      os_ReadFile fs' (filepath_Join [SysV4ArpNotify; ifName; "arp_notify"])
        = inl (bytesOf "1") ∧
      os_ReadFile fs' (filepath_Join [SysV6NdiscNotify; ifName; "ndisc_notify"])
        = inl (bytesOf "1")
  | Some e =>
      (∃ err,
         e = Errorf "failed to write arp_notify=1 for interface %s: %v"
               [AStr ifName; AErr err] ∧
         fs' = fs) ∨
      (∃ err,
         e = Errorf "failed to write ndisc_notify=1 for interface %s: %v"
               [AStr ifName; AErr err] ∧
         os_ReadFile fs'
           (filepath_Join [SysV4ArpNotify; ifName; "arp_notify"])
         = inl (bytesOf "1"))
  end.
Proof.
  unfold EnableArpAndNdiscNotify.
  destruct (os_WriteFile fs _ (bytesOf "1") ModeAppend)
    as [[e1|] fs1] eqn:Hw1.
  - intros [= <- <-]. left. exists e1. split; [done|].
    by apply WriteFile_fails in Hw1.
  - apply WriteFile_ReadFile in Hw1 as Hr1.
    destruct (os_WriteFile fs1 _ (bytesOf "1") ModeAppend)
      as [[e2|] fs2] eqn:Hw2; intros [= <- <-].
    + right. exists e2. split; [done|].
      by apply WriteFile_fails in Hw2 as ->.
    + split.
      * by eapply WriteFile_same_data.
      * by eapply WriteFile_ReadFile.
Qed.

Lemma EnableArpAndNdiscNotify_effect_witness :
  os_ReadFile (EnableArpAndNdiscNotify procfs "eth0").2
    "/proc/sys/net/ipv4/conf/eth0/arp_notify" = inl (bytesOf "1") ∧
  os_ReadFile (EnableArpAndNdiscNotify procfs "eth0").2
    "/proc/sys/net/ipv6/conf/eth0/ndisc_notify" = inl (bytesOf "1").
Proof.
  apply (EnableArpAndNdiscNotify_effect procfs
           (EnableArpAndNdiscNotify procfs "eth0").2 "eth0" None).
  by vm_compute.
Defined.

Example EnableArpAndNdiscNotify_examples :
  (EnableArpAndNdiscNotify procfsV4 "eth0").1
    = Some (Errorf "failed to write ndisc_notify=1 for interface %s: %v"
              [AStr "eth0";
               AErr (PathError "open"
                       "/proc/sys/net/ipv6/conf/eth0/ndisc_notify" ENOENT)]) ∧
  os_ReadFile (EnableArpAndNdiscNotify procfsV4 "eth0").2
    "/proc/sys/net/ipv4/conf/eth0/arp_notify" = inl (bytesOf "1") ∧
  EnableArpAndNdiscNotify emptyFS "eth0"
    = (Some (Errorf "failed to write arp_notify=1 for interface %s: %v"
               [AStr "eth0";
                AErr (PathError "open"
                        "/proc/sys/net/ipv4/conf/eth0/arp_notify" ENOENT)]),
       emptyFS).
Proof. by vm_compute. Qed.

(** ** Which entry of a listing is taken *)

Lemma leb_trans a b c :
  String.leb a b = true → String.leb b c = true → String.leb a c = true.
Proof.
  unfold String.leb. intros Hab Hbc.
  destruct (String.compare a b) eqn:E1; try done.
  - by apply String.compare_eq_iff in E1 as ->.
  - destruct (String.compare b c) eqn:E2; try done.
    + apply String.compare_eq_iff in E2 as <-. by rewrite E1.
    + apply OrderedTypeEx.String_as_OT.cmp_lt in E1.
      apply OrderedTypeEx.String_as_OT.cmp_lt in E2.
      pose proof (OrderedTypeEx.String_as_OT.lt_trans _ _ _ E1 E2) as H.
      apply OrderedTypeEx.String_as_OT.cmp_lt in H.
      unfold OrderedTypeEx.String_as_OT.cmp in H. by rewrite H.
Qed.

Lemma nameLe_trans : Transitive nameLe.
Proof.
  intros a b c Hab Hbc. unfold nameLe in *.
  apply Is_true_true. apply Is_true_true in Hab, Hbc. by eapply leb_trans.
Qed.

Lemma nameLe_total : Total nameLe.
Proof.
  intros a b. unfold nameLe.
  destruct (String.leb_total (Name a) (Name b)) as [H|H];
    [left|right]; by apply Is_true_true.
Qed.

Lemma ReadDir_least fs name first rest :
  os_ReadDir fs name = inl (first :: rest) →
  ∀ fi, fi ∈ first :: rest → String.leb (Name first) (Name fi) = true.
Proof.
  unfold os_ReadDir. destruct (locateFollow fs name) as [k|]; [|done].
  destruct (nodeAt fs k) as [[| p |]|]; try done.
  intros [= Hc] fi Hin.
  pose proof (@StronglySorted_merge_sort _ nameLe _ nameLe_trans nameLe_total
                (omap (childOf k) (map_to_list (tree fs)))) as Hs.
  fold (children fs k) in Hs. rewrite Hc in Hs.
  apply StronglySorted_inv in Hs as [_ Hall].
  apply elem_of_cons in Hin as [->|Hin].
  - destruct (String.leb_total (Name first) (Name first)); done.
  - rewrite Forall_forall in Hall. apply Is_true_true. by apply Hall.
Qed.

(** X19. Of several netdevices of a VF, GetVFLinkNames takes the one
    whose name comes first in byte order: the name it returns is the name
    of an entry of the net directory and is below or equal to the name of
    every entry. *)
Theorem GetVFLinkNames_least (fs : FS) (pciAddr name : string) :
  GetVFLinkNames fs pciAddr = (name, None) →
  ∃ entries,
    os_ReadDir fs (filepath_Join [SysBusPci; pciAddr; "net"]) = inl entries ∧
    name ∈ map Name entries ∧
    ∀ fi, fi ∈ entries → String.leb name (Name fi) = true.
Proof.
  unfold GetVFLinkNames.
  destruct (os_Lstat fs _) as [fi0|]; [|done].
  destruct (os_ReadDir fs _) as [entries|] eqn:Hrd; [|done].
  case_decide; [done|].
  destruct entries as [|first rest]; [done|]. simpl.
  intros [= <-]. exists (first :: rest).
  split; [done|]. split; [apply elem_of_cons; by left|].
  by eapply ReadDir_least.
Qed.

Lemma GetVFLinkNames_least_witness :
  ∃ entries,
    os_ReadDir sysfs (filepath_Join [SysBusPci; "0000:01:00.2"; "net"])
      = inl entries ∧
    "eth3" ∈ map Name entries ∧
    ∀ fi, fi ∈ entries → String.leb "eth3" (Name fi) = true.
Proof.
  apply (GetVFLinkNames_least sysfs "0000:01:00.2" "eth3").
  by vm_compute.
Defined.


Example GetPfName_examples :
  GetPfName sysfsPf "0000:01:00.2" = ("eth0", None) ∧
  GetPfName sysfs "0000:01:00.2"
    = ("", Some (PathError "lstat"
                   "/sys/bus/pci/devices/0000:01:00.2/physfn/net" ENOENT)) ∧
  GetPfName (mkdirs "/sys/bus/pci/devices/0000:01:00.2/physfn/net" emptyFS)
    "0000:01:00.2"
    = ("", Some (Errorf "PF network device not found" [])).
Proof. by vm_compute. Qed.

Example GetPfName_linked : GetPfName sysfsLinked "0000:01:00.2" = ("eth0", None).
Proof. by vm_compute. Qed.
